(** * Simple-Pendulum-Simulator: piecewise-linear functions, integration
      schemes and the stepping engine

    A shallow embedding of [graph/function.py], [graph/vector_function.py],
    [physics/force.py], [physics/gravity.py], [physics/pendulum_tension.py],
    [physics/body.py], [physics/animated_body.py], [physics/pendulum.py] and
    [physics/body_replay.py], with the list helpers of [plot_simulation.py]
    and [data.py].

    Conventions of the embedding.
    - Numbers.  Python's [int] and [float] values are idealised as exact
      rationals ([Qc], canonical fractions with Leibniz equality); every
      arithmetic statement below is a statement "under real arithmetic".
      Division keeps Python's [ZeroDivisionError].
    - Objects.  [Function] objects are mutable and shared (the integral of a
      function is reachable both from its owner and from the
      [VectorFunction] returned by [integrate]), so they live in a store
      ([Heap]) and are passed around as references ([loc]).  Read-only
      methods are functions of the object's current value; mutating methods
      are store transformers.
    - Exceptions.  A raised exception leaves the store as it is at the point
      of the [raise]: a computation returns the store together with either a
      value or the exception. *)

From stdpp Require Import base list numbers sorting.
From Stdlib Require Import QArith Qcanon.
From Stdlib Require Qcabs.

Local Open Scope Z_scope.
Local Open Scope Qc_scope.

(** ** Python runtime *)

Inductive Exception : Type :=
  | ValueError_no_stored_points   (* ValueError('Function object has no stored points.') *)
  | ValueError_point_exists       (* ValueError('Point at x=... already exists in points list') *)
  | IndexError
  | KeyError
  | ZeroDivisionError
  | NotImplementedError
  | AttributeError
  | TypeError
  | RecursionError
  | InvalidReference.             (* a reference outside the store; no operation below creates one *)

Inductive result (A : Type) : Type :=
  | Ok (a : A)
  | Raise (e : Exception).
Arguments Ok {A} a.
Arguments Raise {A} e.

Global Instance Exception_eq_dec : EqDecision Exception.
Proof. solve_decision. Defined.

Global Instance result_eq_dec {A : Type} `{EqDecision A} : EqDecision (result A).
Proof. solve_decision. Defined.

Definition rbind {A B : Type} (r : result A) (k : A -> result B) : result B :=
  match r with
  | Ok a => k a
  | Raise e => Raise e
  end.

(** Computations over a mutable state [S] that may raise. *)
Definition M (S A : Type) : Type := S -> S * result A.

Definition ret {S A : Type} (a : A) : M S A := fun s => (s, Ok a).
Definition raise {S A : Type} (e : Exception) : M S A := fun s => (s, Raise e).
Definition lift {S A : Type} (r : result A) : M S A := fun s => (s, r).
Definition bind {S A B : Type} (m : M S A) (k : A -> M S B) : M S B :=
  fun s => match m s with
           | (s', Ok a) => k a s'
           | (s', Raise e) => (s', Raise e)
           end.

Notation "x <-? r ; k" := (rbind r (fun x => k))
  (at level 100, r at next level, k at level 200, right associativity, only parsing).
Notation "x <- m ;; k" := (bind m (fun x => k))
  (at level 100, m at next level, k at level 200, right associativity, only parsing).
Notation "m ;; k" := (bind m (fun _ => k))
  (at level 100, k at level 200, right associativity, only parsing).

Definition len {A : Type} (l : list A) : Z := Z.of_nat (length l).

(** [l[i]] with Python's negative indices. *)
Definition py_getitem {A : Type} (l : list A) (i : Z) : result A :=
  let j := if (i <? 0)%Z then (len l + i)%Z else i in
  if ((0 <=? j) && (j <? len l))%Z
  then match l !! Z.to_nat j with
       | Some a => Ok a
       | None => Raise IndexError
       end
  else Raise IndexError.

(** [l.insert(i, a)]: the index is taken from the end when negative and
    clamped to [0 .. len l]. *)
Definition py_insert {A : Type} (l : list A) (i : Z) (a : A) : list A :=
  let j := if (i <? 0)%Z then Z.max 0 (len l + i) else Z.min i (len l) in
  take (Z.to_nat j) l ++ a :: drop (Z.to_nat j) l.

(** [l.pop(i)]: the removed element and the remaining list. *)
Definition py_pop {A : Type} (l : list A) (i : Z) : result (A * list A) :=
  let j := if (i <? 0)%Z then (len l + i)%Z else i in
  if ((0 <=? j) && (j <? len l))%Z
  then match l !! Z.to_nat j with
       | Some a => Ok (a, take (Z.to_nat j) l ++ drop (S (Z.to_nat j)) l)
       | None => Raise IndexError
       end
  else Raise IndexError.

(** [l[i] = a] *)
Definition py_setitem {A : Type} (l : list A) (i : Z) (a : A) : result (list A) :=
  let j := if (i <? 0)%Z then (len l + i)%Z else i in
  if ((0 <=? j) && (j <? len l))%Z then Ok (<[Z.to_nat j := a]> l) else Raise IndexError.

(** The number literal [n/d]. *)
Definition num (n : Z) (d : positive) : Qc := Q2Qc (n # d).

(** [a / b] on numbers. *)
Definition py_div (a b : Qc) : result Qc :=
  if decide (b = 0) then Raise ZeroDivisionError else Ok (a / b).

(** ** graph/integration_method.py *)

Inductive IntegrationMethod : Type :=
  | EULER
  | TRAPEZOIDAL
  | RK4.

(** ** graph/function.py *)

(** A stored point [(x, y)]; a reference into the store. *)
Abbreviation point := (Qc * Qc)%type.
Abbreviation loc := nat (only parsing).

Module Function.

(** The attributes of a [Function] object. *)
Record t : Type := mk {
  __points : list point;
  __integral : option loc;
  __integration_method : option IntegrationMethod
}.

(** [Function()] *)
Definition __init__ : t := mk [] None None.

(** [search_best_index(self, x, section)], [section = slice(start, stop)].
    The recursion halves [stop - start]; [depth] bounds its depth. *)
Fixpoint search_best_index_rec (depth : nat) (self : t) (x : Qc) (start stop : Z)
  : result Z :=
  if (start =? stop)%Z then Ok start else
  match depth with
  | O => Raise RecursionError
  | S depth' =>
      let offset := (start + (stop - start) `div` 2)%Z in
      middle <-? py_getitem (__points self) offset;
      match x ?= fst middle with
      | Gt => search_best_index_rec depth' self x (offset + 1) stop
      | Lt => search_best_index_rec depth' self x start offset
      | Eq => Ok offset
      end
  end.

Definition search_best_index (self : t) (x : Qc) (start stop : Z) : result Z :=
  search_best_index_rec (S (Z.to_nat (stop - start))) self x start stop.

(** [self(x)] *)
Definition __call__ (self : t) (x : Qc) : result Qc :=
  match __points self with
  | [] => Raise ValueError_no_stored_points
  | [p] => Ok (snd p)
  | _ =>
      last <-? py_getitem (__points self) (-1);
      first <-? py_getitem (__points self) 0;
      index <-? (if decide (fst last < x) then Ok (len (__points self) - 1)%Z
                 else if decide (x < fst first) then Ok 1%Z
                 else search_best_index self x 0 (len (__points self)));
      a <-? py_getitem (__points self) (index - 1);
      b <-? py_getitem (__points self) index;
      slope <-? py_div (snd b - snd a) (fst b - fst a);
      Ok (slope * (x - fst a) + snd a)
  end.

(** [iter(self)] *)
Definition __iter__ (self : t) : list point := __points self.

(** [self.seek(index)] *)
Definition seek (self : t) (index : Z) : result point :=
  py_getitem (__points self) index.

(** *** The object store *)

(** Attribute reads and writes through a reference. *)
Definition deref (self : loc) : M (list t) t :=
  fun h => match h !! self with
           | Some o => (h, Ok o)
           | None => (h, Raise InvalidReference)
           end.

Definition new (o : t) : M (list t) loc :=
  fun h => (h ++ [o], Ok (length h)).

Definition set_points (self : loc) (pts : list point) : M (list t) unit :=
  fun h => (alter (fun o => mk pts (__integral o) (__integration_method o)) self h, Ok tt).

Definition set_integral (self : loc) (g : option loc) : M (list t) unit :=
  fun h => (alter (fun o => mk (__points o) g (__integration_method o)) self h, Ok tt).

Definition set_integration_method (self : loc) (m : option IntegrationMethod)
  : M (list t) unit :=
  fun h => (alter (fun o => mk (__points o) (__integral o) m) self h, Ok tt).

(** [self.__integral] where a [Function] is expected: [None] has no
    attributes. *)
Definition the_integral (self : loc) : M (list t) loc :=
  o <- deref self;;
  match __integral o with
  | Some g => ret g
  | None => raise AttributeError
  end.

(** [self.pop(index)] *)
Definition pop (self : loc) (index : Z) : M (list t) point :=
  o <- deref self;;
  r <- lift (py_pop (__points o) index);;
  set_points self (snd r);;
  ret (fst r).

(** *** Methods that reach [insert]

    [insert] updates the cached integral through [append], the three
    integration steps and [integral], each of which calls [insert] on
    the integral object again.  The methods are first written against
    the [insert] they call ([insert_rec]); the knot is tied below. *)
Section methods.

Variable insert_rec : loc -> Qc -> Qc -> bool -> M (list t) unit.

(** [self.append(dx, dy)] *)
Definition append_with (self : loc) (dx dy : Qc) : M (list t) unit :=
  o <- deref self;;
  last <- lift (py_getitem (__points o) (-1));;
  insert_rec self (fst last + dx) (snd last + dy) false.

(** The loop of [_integrate_trapezoidal]: [splits] rounds, each adding
    one trapezoid to [area] and moving [x] one [width] to the left. *)
Fixpoint trapezoids (derivative : loc) (width : Qc) (splits : nat) (x area : Qc)
  : M (list t) Qc :=
  match splits with
  | O => ret area
  | S splits' =>
      d <- deref derivative;;
      l <- lift (__call__ d (x - width));;
      r <- lift (__call__ d x);;
      trapezoids derivative width splits' (x - width) (area + (width / 2) * (l + r))
  end.

(** [_integrate_trapezoidal(f, derivative, dx, splits)] *)
Definition _integrate_trapezoidal_with (f derivative : loc) (dx : Qc) (splits : nat)
  : M (list t) unit :=
  width <- lift (py_div dx (num (Z.of_nat splits) 1));;
  d <- deref derivative;;
  p <- lift (seek d (-1));;
  area <- trapezoids derivative width splits (fst p) 0;;
  append_with f dx area.

(** [_integrate_euler(f, derivative, dx)] *)
Definition _integrate_euler_with (f derivative : loc) (dx : Qc) : M (list t) unit :=
  fo <- deref f;;
  p <- lift (seek fo (-1));;
  d <- deref derivative;;
  v <- lift (__call__ d (fst p));;
  append_with f dx (dx * v).

(** [_integrate_rk4(f, derivative, dx)] *)
Definition _integrate_rk4_with (f derivative : loc) (dx : Qc) : M (list t) unit :=
  d <- deref derivative;;
  p <- lift (seek d (-1));;
  let x := fst p in
  k1 <- lift (__call__ d x);;
  m <- lift (__call__ d (x + dx / 2));;
  let k23 := 2 * m in
  k4 <- lift (__call__ d (x + dx));;
  append_with f dx (dx / num 6 1 * (k1 + 2 * k23 + k4)).

(** [for i, point in enumerate(self.__points[1:], 1): step(self.__integral,
    self, point[0] - self.__points[i - 1][0])], the loop of each case of
    [integral]; [rest] is what remains of the copy [self.__points[1:]]. *)
Fixpoint integral_loop (step : loc -> loc -> Qc -> M (list t) unit) (self : loc)
  (i : Z) (rest : list point) : M (list t) unit :=
  match rest with
  | [] => ret tt
  | point :: rest' =>
      f <- the_integral self;;
      o <- deref self;;
      prev <- lift (py_getitem (__points o) (i - 1));;
      step f self (fst point - fst prev);;
      integral_loop step self (i + 1) rest'
  end.

(** [self.integral(method, x_i, y_i)] *)
Definition integral_with (self : loc) (method : option IntegrationMethod)
  (x_i y_i : Qc) : M (list t) loc :=
  g <- new __init__;;
  set_integral self (Some g);;
  f <- the_integral self;;
  set_integration_method f method;;
  f <- the_integral self;;
  insert_rec f x_i y_i false;;
  o <- deref self;;
  match method with
  | Some TRAPEZOIDAL =>
      integral_loop (fun f d dx => _integrate_trapezoidal_with f d dx 1)
        self 1 (drop 1 (__points o))
  | Some EULER => integral_loop _integrate_euler_with self 1 (drop 1 (__points o))
  | Some RK4 => integral_loop _integrate_rk4_with self 1 (drop 1 (__points o))
  | None => ret tt
  end;;
  the_integral self.

(** [self.__points[-1][0] - self.__points[-2][0] if len(self.__points) > 1
    else 0] *)
Definition last_dx (self : loc) : M (list t) Qc :=
  o <- deref self;;
  if (1 <? len (__points o))%Z
  then last <- lift (py_getitem (__points o) (-1));;
       before <- lift (py_getitem (__points o) (-2));;
       ret (fst last - fst before)
  else ret 0.

(** [self.__update_integral()] *)
Definition __update_integral_with (self : loc) : M (list t) unit :=
  f <- the_integral self;;
  fo <- deref f;;
  match __integration_method fo with
  | Some TRAPEZOIDAL =>
      f <- the_integral self;; dx <- last_dx self;;
      _integrate_trapezoidal_with f self dx 1
  | Some EULER =>
      f <- the_integral self;; dx <- last_dx self;;
      _integrate_euler_with f self dx
  | Some RK4 =>
      f <- the_integral self;; dx <- last_dx self;;
      _integrate_rk4_with f self dx
  | None => ret tt
  end.

(** [self.insert(x, y, check)] *)
Definition insert_with (self : loc) (x y : Qc) (check : bool) : M (list t) unit :=
  o <- deref self;;
  if check && bool_decide (x ∈ fst <$> __points o)
  then raise ValueError_point_exists
  else
    index <- lift (search_best_index o x 0 (len (__points o)));;
    set_points self (py_insert (__points o) index (x, y));;
    o <- deref self;;
    match __integral o with
    | None => ret tt
    | Some g =>
        if (index =? len (__points o) - 1)%Z
        then __update_integral_with self
        else
          go <- deref g;;
          first <- lift (py_getitem (__points go) 0);;
          r <- integral_with self (__integration_method go) (fst first) (snd first);;
          set_integral self (Some r)
    end.

End methods.

(** [insert], with the depth of the recursion along the chain of cached
    integrals bounded by [depth]. *)
Fixpoint insert_rec (depth : nat) (self : loc) (x y : Qc) (check : bool)
  : M (list t) unit :=
  match depth with
  | O => raise RecursionError
  | S depth' => insert_with (insert_rec depth') self x y check
  end.

(** A chain of cached integrals visits each object of the store at most
    once unless it is cyclic, so one more than the size of the store is
    a depth that only a cyclic chain exhausts. *)
Definition insert (self : loc) (x y : Qc) (check : bool) : M (list t) unit :=
  fun h => insert_rec (S (length h)) self x y check h.

Definition append : loc -> Qc -> Qc -> M (list t) unit := append_with insert.
Definition _integrate_trapezoidal : loc -> loc -> Qc -> nat -> M (list t) unit :=
  _integrate_trapezoidal_with insert.
Definition _integrate_euler : loc -> loc -> Qc -> M (list t) unit :=
  _integrate_euler_with insert.
Definition _integrate_rk4 : loc -> loc -> Qc -> M (list t) unit :=
  _integrate_rk4_with insert.
Definition integral : loc -> option IntegrationMethod -> Qc -> Qc -> M (list t) loc :=
  integral_with insert.
Definition __update_integral : loc -> M (list t) unit := __update_integral_with insert.

(** [Function.from_iter(iterable)] *)
Fixpoint from_iter_loop (output : loc) (iterable : list point) : M (list t) unit :=
  match iterable with
  | [] => ret tt
  | p :: iterable' => insert output (fst p) (snd p) false;; from_iter_loop output iterable'
  end.

Definition from_iter (iterable : list point) : M (list t) loc :=
  output <- new __init__;;
  from_iter_loop output iterable;;
  ret output.

End Function.

Abbreviation Heap := (list Function.t).

(** ** graph/vector_function.py *)

Module VectorFunction.

Record t : Type := mk { x : loc; y : loc }.

(** [VectorFunction(x, y)] with [__post_init__]: a missing component is
    a new [Function]. *)
Definition __init__ (x y : option loc) : M Heap t :=
  x' <- match x with Some l => ret l | None => Function.new Function.__init__ end;;
  y' <- match y with Some l => ret l | None => Function.new Function.__init__ end;;
  ret (mk x' y').

(** [iter(self)] *)
Definition __iter__ (self : t) : M Heap (list (point * point)) :=
  fx <- Function.deref (x self);;
  fy <- Function.deref (y self);;
  ret (zip (Function.__iter__ fx) (Function.__iter__ fy)).

(** [self.insert(time, x, y)] *)
Definition insert (self : t) (time x_ y_ : Qc) : M Heap unit :=
  Function.insert (x self) time x_ false;;
  Function.insert (y self) time y_ false.

(** [self.append(dt, dx, dy)] *)
Definition append (self : t) (dt dx dy : Qc) : M Heap unit :=
  Function.append (x self) dt dx;;
  Function.append (y self) dt dy.

(** [self.pop(index)] *)
Definition pop (self : t) (index : Z) : M Heap (point * point) :=
  px <- Function.pop (x self) index;;
  py <- Function.pop (y self) index;;
  ret (px, py).

(** [self.seek(index)] *)
Definition seek (self : t) (index : Z) : M Heap (point * point) :=
  fx <- Function.deref (x self);;
  px <- lift (Function.seek fx index);;
  fy <- Function.deref (y self);;
  py <- lift (Function.seek fy index);;
  ret (px, py).

(** [self.integrate(t_i, x_i, y_i, method)] *)
Definition integrate (self : t) (t_i x_i y_i : Qc) (method : IntegrationMethod)
  : M Heap t :=
  x_integral <- Function.integral (x self) (Some method) t_i x_i;;
  y_integral <- Function.integral (y self) (Some method) t_i y_i;;
  __init__ (Some x_integral) (Some y_integral).

(** [VectorFunction.from_iter(x_iterable, y_iterable)] *)
Definition from_iter (x_iterable y_iterable : list point) : M Heap t :=
  output <- __init__ None None;;
  fx <- Function.from_iter x_iterable;;
  fy <- Function.from_iter y_iterable;;
  ret (mk fx fy).

End VectorFunction.

(** ** The [math] module

    [math.cos], [math.sin], [math.atan2], [math.sqrt] and [math.pi] are
    taken as given. *)
Module math.
Record t : Type := mk {
  cos : Qc -> Qc;
  sin : Qc -> Qc;
  atan2 : Qc -> Qc -> Qc;
  sqrt : Qc -> Qc;
  pi : Qc
}.
End math.

(** ** Attributes of the physics objects *)

Module Obj.

(** The [Force] classes, which are the keys of [Body.forces]. *)
Inductive ForceType : Type :=
  | Force_t
  | Gravity_t
  | PendulumTension_t.

Global Instance ForceType_eq_dec : EqDecision ForceType.
Proof. solve_decision. Defined.

(** A [Force] instance.  Its [body] attribute is the body whose
    [add_force] built it, so the methods below take that body from the
    state they run in. *)
Inductive Force : Type :=
  | Force_o
  | Gravity_o (source_mass source_radius : Qc)
  | PendulumTension_o.

Definition type_of (f : Force) : ForceType :=
  match f with
  | Force_o => Force_t
  | Gravity_o _ _ => Gravity_t
  | PendulumTension_o => PendulumTension_t
  end.

(** The attributes a [Pendulum] adds. *)
Record Pendulum : Type := mk_Pendulum {
  pivot : Qc * Qc;
  length : Qc
}.

(** The data attributes of a body: those of [Body], those of
    [AnimatedBody] ([dt], [time]) and, for a [Pendulum], [pivot] and
    [length].  [forces] is the dict in insertion order, each instance
    stored under its own class. *)
Record Body : Type := mk_Body {
  mass : Qc;
  forces : list Force;
  position : VectorFunction.t;
  velocity : VectorFunction.t;
  acceleration : VectorFunction.t;
  dt : Qc;
  time : Qc;
  pendulum : option Pendulum
}.

(** [BodyReplay] *)
Record BodyReplay : Type := mk_BodyReplay {
  replay_position : VectorFunction.t;
  replay_velocity : VectorFunction.t;
  replay_acceleration : VectorFunction.t;
  index : Z;
  replay_time : Qc
}.

End Obj.

(** A body together with the store its functions live in. *)
Abbreviation World := (Obj.Body * Heap)%type.

Definition on_heap {B A : Type} (m : M Heap A) : M (B * Heap) A :=
  fun w => let '(h', r) := m (snd w) in ((fst w, h'), r).

Definition self_ {B H : Type} : M (B * H) B := fun w => (w, Ok (fst w)).

Definition set_self {B H : Type} (f : B -> B) : M (B * H) unit :=
  fun w => ((f (fst w), snd w), Ok tt).

(** [AnimatedBody]: the data attributes and the two callback lists. *)
Module Cb.
Definition callback : Type := M World unit.
Record AnimatedBody : Type := mk {
  attrs : Obj.Body;
  pre_step : list callback;
  post_step : list callback
}.
End Cb.

(** ** physics/pendulum.py *)

Module Pendulum.
Section with_math.
Variable m : math.t.

(** [self.pivot] and [self.length] exist on a [Pendulum] only. *)
Definition the_pendulum : M World Obj.Pendulum :=
  self <- self_;;
  match Obj.pendulum self with
  | Some p => ret p
  | None => raise AttributeError
  end.

(** [self.angle_from_pivot()] *)
Definition angle_from_pivot : M World Qc :=
  self <- self_;;
  position_vs_time <- on_heap (VectorFunction.seek (Obj.position self) (-1));;
  let position := (snd (fst position_vs_time), snd (snd position_vs_time)) in
  p <- the_pendulum;;
  ret (math.atan2 m (snd position - snd (Obj.pivot p)) (fst position - fst (Obj.pivot p))).

(** [self.distance_from_pivot()] *)
Definition distance_from_pivot : M World Qc :=
  self <- self_;;
  position_vs_time <- on_heap (VectorFunction.seek (Obj.position self) (-1));;
  let position := (snd (fst position_vs_time), snd (snd position_vs_time)) in
  p <- the_pendulum;;
  ret (math.sqrt m ((fst position - fst (Obj.pivot p)) * (fst position - fst (Obj.pivot p))
                    + (snd position - snd (Obj.pivot p)) * (snd position - snd (Obj.pivot p)))).
End with_math.
End Pendulum.

(** ** physics/gravity.py *)

Module Gravity.

(** [6.674 * 10 ** -11] *)
Definition gravitational_constant : Qc := Q2Qc (6674 # 100000000000000).

Section with_math.
Variable m : math.t.

(** [self.get_magnitude()] *)
Definition get_magnitude (source_mass source_radius : Qc) : M World Qc :=
  self_body <- self_;;
  s <- on_heap (VectorFunction.seek (Obj.position self_body) (-1));;
  let height := snd (snd s) in
  freefall_acceleration <-
    lift (py_div (gravitational_constant * source_mass)
                 ((source_radius + height) * (source_radius + height)));;
  ret (Obj.mass self_body * freefall_acceleration).

(** [self.get_direction()] *)
Definition get_direction : M World Qc :=
  ret (- math.pi m / 2).
End with_math.
End Gravity.

(** ** physics/pendulum_tension.py *)

Module PendulumTension.
Section with_math.
Variable m : math.t.

(** [self.body.forces[gravity.Gravity]] *)
Definition the_gravity : M World (Qc * Qc) :=
  self_body <- self_;;
  match List.find (fun f => bool_decide (Obj.type_of f = Obj.Gravity_t))
                  (Obj.forces self_body) with
  | Some (Obj.Gravity_o source_mass source_radius) => ret (source_mass, source_radius)
  | _ => raise KeyError
  end.

(** [self.get_direction()] *)
Definition get_direction : M World Qc :=
  self_body <- self_;;
  position_vs_time <- on_heap (VectorFunction.seek (Obj.position self_body) (-1));;
  let position := (snd (fst position_vs_time), snd (snd position_vs_time)) in
  p <- Pendulum.the_pendulum;;
  ret (math.atan2 m (snd (Obj.pivot p) - snd position) (fst (Obj.pivot p) - fst position)).

(** [self.get_magnitude()] *)
Definition get_magnitude : M World Qc :=
  g <- the_gravity;;
  gravity_magnitude <- Gravity.get_magnitude (fst g) (snd g);;
  direction <- get_direction;;
  let gravitational_tension := gravity_magnitude * math.sin m direction in
  self_body <- self_;;
  velocity <- on_heap (VectorFunction.seek (Obj.velocity self_body) (-1));;
  distance <- Pendulum.distance_from_pivot m;;
  ratio <- lift (py_div (snd (fst velocity) * snd (fst velocity)
                        + snd (snd velocity) * snd (snd velocity)) distance);;
  let centripetal_tension := Obj.mass self_body * ratio in
  ret (gravitational_tension + centripetal_tension).
End with_math.
End PendulumTension.

(** ** physics/force.py *)

Module Force.
Section with_math.
Variable m : math.t.

(** [force(body, *args)]: the constructors take the body and, for
    [Gravity], [source_mass] and [source_radius]; none of them does
    anything but store its arguments. *)
Definition __init__ (force : Obj.ForceType) (args : list Qc) : result Obj.Force :=
  match force, args with
  | Obj.Force_t, [] => Ok Obj.Force_o
  | Obj.Gravity_t, [source_mass; source_radius] => Ok (Obj.Gravity_o source_mass source_radius)
  | Obj.PendulumTension_t, [] => Ok Obj.PendulumTension_o
  | _, _ => Raise TypeError
  end.

(** [force.get_magnitude()], dispatched on the class of [force]. *)
Definition get_magnitude (force : Obj.Force) : M World Qc :=
  match force with
  | Obj.Force_o => raise NotImplementedError
  | Obj.Gravity_o source_mass source_radius => Gravity.get_magnitude source_mass source_radius
  | Obj.PendulumTension_o => PendulumTension.get_magnitude m
  end.

(** [force.get_direction()], dispatched on the class of [force]. *)
Definition get_direction (force : Obj.Force) : M World Qc :=
  match force with
  | Obj.Force_o => raise NotImplementedError
  | Obj.Gravity_o _ _ => Gravity.get_direction m
  | Obj.PendulumTension_o => PendulumTension.get_direction m
  end.
End with_math.
End Force.

(** ** physics/body.py *)

Module Body.

(** [self.forces[force] = instance]: an existing key keeps its place. *)
Fixpoint forces_setitem (forces : list Obj.Force) (instance : Obj.Force)
  : list Obj.Force :=
  match forces with
  | [] => [instance]
  | f :: forces' =>
      if decide (Obj.type_of f = Obj.type_of instance)
      then instance :: forces'
      else f :: forces_setitem forces' instance
  end.

Definition set_forces (forces : list Obj.Force) (b : Obj.Body) : Obj.Body :=
  Obj.mk_Body (Obj.mass b) forces (Obj.position b) (Obj.velocity b)
    (Obj.acceleration b) (Obj.dt b) (Obj.time b) (Obj.pendulum b).

Definition set_position (v : VectorFunction.t) (b : Obj.Body) : Obj.Body :=
  Obj.mk_Body (Obj.mass b) (Obj.forces b) v (Obj.velocity b)
    (Obj.acceleration b) (Obj.dt b) (Obj.time b) (Obj.pendulum b).

Definition set_velocity (v : VectorFunction.t) (b : Obj.Body) : Obj.Body :=
  Obj.mk_Body (Obj.mass b) (Obj.forces b) (Obj.position b) v
    (Obj.acceleration b) (Obj.dt b) (Obj.time b) (Obj.pendulum b).

Definition set_time (t : Qc) (b : Obj.Body) : Obj.Body :=
  Obj.mk_Body (Obj.mass b) (Obj.forces b) (Obj.position b) (Obj.velocity b)
    (Obj.acceleration b) (Obj.dt b) t (Obj.pendulum b).

Section with_math.
Variable m : math.t.

(** The loop of [get_net_force] over [self.forces.values()]. *)
Fixpoint net_force_loop (forces : list Obj.Force) (net_force_x net_force_y : Qc)
  : M World (Qc * Qc) :=
  match forces with
  | [] => ret (net_force_x, net_force_y)
  | force :: forces' =>
      magnitude <- Force.get_magnitude m force;;
      direction <- Force.get_direction m force;;
      net_force_loop forces'
        (net_force_x + math.cos m direction * magnitude)
        (net_force_y + math.sin m direction * magnitude)
  end.

(** [self.get_net_force()] *)
Definition get_net_force : M World (Qc * Qc) :=
  self <- self_;;
  net_force_loop (Obj.forces self) 0 0.

(** [self.add_force(force, *args)] *)
Definition add_force (force : Obj.ForceType) (args : list Qc) : M World unit :=
  instance <- lift (Force.__init__ force args);;
  set_self (fun self => set_forces (forces_setitem (Obj.forces self) instance) self).
End with_math.
End Body.

(** ** physics/animated_body.py *)

Module AnimatedBody.

(** [AnimatedBody(mass, dt)], and [Pendulum(mass, dt, pivot, length)] when
    [pendulum] is given: [__post_init__] makes the empty [forces], the
    three empty [VectorFunction]s and the empty callback lists. *)
Definition __init__ (mass dt : Qc) (pendulum : option Obj.Pendulum)
  : M Heap Cb.AnimatedBody :=
  position <- VectorFunction.__init__ None None;;
  velocity <- VectorFunction.__init__ None None;;
  acceleration <- VectorFunction.__init__ None None;;
  ret (Cb.mk (Obj.mk_Body mass [] position velocity acceleration dt 0 pendulum) [] []).

Definition on_attrs {A : Type} (c : M World A) : M (Cb.AnimatedBody * Heap) A :=
  fun w =>
    let '((b', h'), r) := c (Cb.attrs (fst w), snd w) in
    ((Cb.mk b' (Cb.pre_step (fst w)) (Cb.post_step (fst w)), h'), r).

(** [for function in functions: function(self)] *)
Fixpoint run_all (functions : list Cb.callback) : M (Cb.AnimatedBody * Heap) unit :=
  match functions with
  | [] => ret tt
  | function :: functions' => on_attrs function;; run_all functions'
  end.

Section with_math.
Variable m : math.t.

(** [self.generate_acceleration()] *)
Definition generate_acceleration : M World (Qc * Qc) :=
  forces <- Body.get_net_force m;;
  self <- self_;;
  ax <- lift (py_div (fst forces) (Obj.mass self));;
  self <- self_;;
  ay <- lift (py_div (snd forces) (Obj.mass self));;
  ret (ax, ay).

(** [self.set_state(v_ix, v_iy, x_i, y_i, integration_method)] *)
Definition set_state (v_ix v_iy x_i y_i : Qc) (integration_method : IntegrationMethod)
  : M World unit :=
  a <- generate_acceleration;;
  self <- self_;;
  on_heap (VectorFunction.insert (Obj.acceleration self) 0 (fst a) (snd a));;
  self <- self_;;
  v <- on_heap (VectorFunction.integrate (Obj.acceleration self) 0 v_ix v_iy
                  integration_method);;
  set_self (Body.set_velocity v);;
  self <- self_;;
  p <- on_heap (VectorFunction.integrate (Obj.velocity self) 0 x_i y_i
                  integration_method);;
  set_self (Body.set_position p).

(** [self.__step_acceleration()] *)
Definition __step_acceleration : M World unit :=
  a <- generate_acceleration;;
  self <- self_;;
  on_heap (VectorFunction.insert (Obj.acceleration self) (Obj.time self) (fst a) (snd a)).

(** [self.step()] *)
Definition step : M (Cb.AnimatedBody * Heap) unit :=
  self <- self_;;
  run_all (Cb.pre_step self);;
  on_attrs (set_self (fun b => Body.set_time (Obj.time b + Obj.dt b) b));;
  on_attrs __step_acceleration;;
  self <- self_;;
  run_all (Cb.post_step self).
End with_math.
End AnimatedBody.

(** ** physics/body_replay.py *)

Module BodyReplay.

Definition set_index (i : Z) (b : Obj.BodyReplay) : Obj.BodyReplay :=
  Obj.mk_BodyReplay (Obj.replay_position b) (Obj.replay_velocity b)
    (Obj.replay_acceleration b) i (Obj.replay_time b).

Definition set_time (t : Qc) (b : Obj.BodyReplay) : Obj.BodyReplay :=
  Obj.mk_BodyReplay (Obj.replay_position b) (Obj.replay_velocity b)
    (Obj.replay_acceleration b) (Obj.index b) t.

(** [BodyReplay()] *)
Definition __init__ : M Heap Obj.BodyReplay :=
  position <- VectorFunction.__init__ None None;;
  velocity <- VectorFunction.__init__ None None;;
  acceleration <- VectorFunction.__init__ None None;;
  ret (Obj.mk_BodyReplay position velocity acceleration 0 0).

(** [try: body except Exception: return False] followed by [return True] *)
Definition try_or_false {S : Type} (body : M S unit) : M S bool :=
  fun s => match body s with
           | (s', Ok _) => (s', Ok true)
           | (s', Raise _) => (s', Ok false)
           end.

(** [self.step()] *)
Definition step : M (Obj.BodyReplay * Heap) bool :=
  set_self (fun self => set_index (Obj.index self + 1) self);;
  try_or_false (
    self <- self_;;
    fx <- on_heap (Function.deref (VectorFunction.x (Obj.replay_position self)));;
    self <- self_;;
    p <- lift (Function.seek fx (Obj.index self));;
    set_self (set_time (fst p))).

(** [self.get_state()] *)
Definition get_state
  : M (Obj.BodyReplay * Heap) ((point * point) * (point * point) * (point * point)) :=
  self <- self_;;
  p <- on_heap (VectorFunction.seek (Obj.replay_position self) (Obj.index self));;
  v <- on_heap (VectorFunction.seek (Obj.replay_velocity self) (Obj.index self));;
  a <- on_heap (VectorFunction.seek (Obj.replay_acceleration self) (Obj.index self));;
  ret (p, v, a).

End BodyReplay.

(** ** plot_simulation.py *)

Module plot_simulation.

(** The loop of [unpack_function]. *)
Fixpoint unpack_function_loop (data : list point) (times values : list Qc)
  : list Qc * list Qc :=
  match data with
  | [] => (times, values)
  | (x, y) :: data' => unpack_function_loop data' (times ++ [x]) (values ++ [y])
  end.

(** [unpack_function(data)] *)
Definition unpack_function (data : list point) : list Qc * list Qc :=
  unpack_function_loop data [] [].

(** The loop of [get_peaks]. *)
Fixpoint get_peaks_loop (data : list point) (times peaks : list Qc) (falling : bool)
  : result (list Qc * list Qc) :=
  match data with
  | [] => Ok (times, peaks)
  | (x, y) :: data' =>
      last <-? py_getitem peaks (-1);
      if decide (Qcabs.Qcabs last < Qcabs.Qcabs y) then
        times <-? py_setitem times (-1) x;
        peaks <-? py_setitem peaks (-1) y;
        get_peaks_loop data' times peaks false
      else if negb falling then
        get_peaks_loop data' (times ++ [x]) (peaks ++ [y]) true
      else
        times <-? py_setitem times (-1) x;
        peaks <-? py_setitem peaks (-1) y;
        get_peaks_loop data' times peaks falling
  end.

(** [get_peaks(data)] *)
Definition get_peaks (data : list point) : result (list Qc * list Qc) :=
  r <-? get_peaks_loop data [0] [0] false;
  p <-? py_pop (snd r) (-1);
  t <-? py_pop (fst r) (-1);
  Ok (snd t, snd p).

End plot_simulation.

(** ** data.py *)

Module data.

(** [average] of the values it is given: [sum(values) / len(values)]. *)
Definition average (values : list Qc) : result Qc :=
  py_div (foldl Qcplus 0 values) (num (len values) 1).

End data.

(** * Specification vocabulary *)

(** The stored x-values increase strictly, respectively never decrease. *)
Definition increasing (pts : list point) : Prop := StronglySorted Qclt (fst <$> pts).
Definition nondecreasing (pts : list point) : Prop := StronglySorted Qcle (fst <$> pts).

(** What the binary search returns on [start .. stop]: the index of a stored
    point with abscissa [x], or the gap where [x] belongs. *)
Definition found_or_gap (pts : list point) (x : Qc) (s e i : nat) : Prop :=
  (s <= i <= e)%nat /\
  (((i < e)%nat /\ exists p, pts !! i = Some p /\ fst p = x) \/
   ((forall j p, (s <= j < i)%nat -> pts !! j = Some p -> fst p < x) /\
    (forall j p, (i <= j < e)%nat -> pts !! j = Some p -> x < fst p))).

(** With two points or more, [__call__] picks an index and evaluates the
    line through the points at [index - 1] and [index]. *)
Definition segment_value (pts : list point) (x : Qc) (index : Z) : result Qc :=
  a <-? py_getitem pts (index - 1);
  b <-? py_getitem pts index;
  slope <-? py_div (snd b - snd a) (fst b - fst a);
  Ok (slope * (x - fst a) + snd a).

(** The sample of the position's x-component that index [i] addresses, if
    any (Python indexing: negative indices count from the end). *)
Definition replay_sample (w : Obj.BodyReplay * Heap) (i : Z) : option point :=
  match snd w !! VectorFunction.x (Obj.replay_position (fst w)) with
  | Some fx => match Function.seek fx i with
               | Ok p => Some p
               | Raise _ => None
               end
  | None => None
  end.

(** The state after [n] further calls of [step]. *)
Definition replay_steps (n : nat) (w : Obj.BodyReplay * Heap) : Obj.BodyReplay * Heap :=
  Nat.iter n (fun w => fst (BodyReplay.step w)) w.

(** Every cached integral is an object of the store created after its
    owner: [integral] is the only operation that sets [__integral], and it
    sets it to the object it has just created. *)
Definition wf (h : Heap) : Prop :=
  forall l o g, h !! l = Some o -> Function.__integral o = Some g ->
                (l < g < length h)%nat.

(** A checker for [wf]. *)
Fixpoint wf_from (n l : nat) (h : Heap) : bool :=
  match h with
  | [] => true
  | o :: h' =>
      match Function.__integral o with
      | Some g => (l <? g)%nat && (g <? n)%nat
      | None => true
      end && wf_from n (S l) h'
  end.

Definition wfb (h : Heap) : bool := wf_from (length h) 0 h.

(** [h'] is a well-formed store that extends [h] and agrees with it on every
    object below [b]. *)
Definition ext (b : nat) (h h' : Heap) : Prop :=
  wf h' /\ (length h <= length h')%nat /\ forall l, (l < b)%nat -> h' !! l = h !! l.

(** An [insert] that leaves the objects created before [self] alone. *)
Definition ins_ok (ins : loc -> Qc -> Qc -> bool -> M Heap unit) : Prop :=
  forall f x y c h, wf h -> ext f h (fst (ins f x y c h)).

(** A step that fails with the store untouched or appends one sample to
    [f], through the [insert] of [ins]. *)
Definition appends_or_fails (ins : loc -> Qc -> Qc -> bool -> M Heap unit)
  (step : loc -> loc -> Qc -> M Heap unit) : Prop :=
  forall f d dx h,
    (exists e, step f d dx h = (h, Raise e))
    \/ (exists v, step f d dx h = Function.append_with ins f dx v h).

(** What [insert] makes of the stored points: the new point goes where
    [search_best_index] says. *)
Definition inserted (pts : list point) (x y : Qc) : list point :=
  match Function.search_best_index (Function.mk pts None None) x 0 (len pts) with
  | Ok index => py_insert pts index (x, y)
  | Raise _ => pts
  end.

(** The points after inserting a whole sequence, one point at a time. *)
Definition insert_all (pts iterable : list point) : list point :=
  foldl (fun acc p => inserted acc (fst p) (snd p)) pts iterable.

(** The point that one step of a scheme hands to [f.insert], from the
    derivative object [d], the points of [f] and the step [dx]. *)
Definition sample (m : IntegrationMethod) (d : Function.t) (fpts : list point) (dx : Qc)
  : result point :=
  match m with
  | EULER =>
      p <-? py_getitem fpts (-1);
      v <-? Function.__call__ d (fst p);
      last <-? py_getitem fpts (-1);
      Ok (fst last + dx, snd last + dx * v)
  | TRAPEZOIDAL =>
      p <-? Function.seek d (-1);
      l <-? Function.__call__ d (fst p - dx);
      r <-? Function.__call__ d (fst p);
      last <-? py_getitem fpts (-1);
      Ok (fst last + dx, snd last + dx / 2 * (l + r))
  | RK4 =>
      p <-? Function.seek d (-1);
      k1 <-? Function.__call__ d (fst p);
      k2 <-? Function.__call__ d (fst p + dx / 2);
      k4 <-? Function.__call__ d (fst p + dx);
      last <-? py_getitem fpts (-1);
      Ok (fst last + dx, snd last + dx / num 6 1 * (k1 + 2 * (2 * k2) + k4))
  end.

(** The step of a scheme, against the [insert] it calls. *)
Definition step_with (ins : loc -> Qc -> Qc -> bool -> M Heap unit) (m : IntegrationMethod)
  : loc -> loc -> Qc -> M Heap unit :=
  match m with
  | EULER => Function._integrate_euler_with ins
  | TRAPEZOIDAL => fun f d dx => Function._integrate_trapezoidal_with ins f d dx 1
  | RK4 => Function._integrate_rk4_with ins
  end.

(** The points of the integral that [integral] builds, with the outcome of
    the loop: one [sample] per consecutive pair of points of the derivative
    [d], each inserted into the points built so far. *)
Fixpoint integral_points_loop (m : IntegrationMethod) (d : Function.t) (i : Z)
  (rest : list point) (ipts : list point) : list point * result unit :=
  match rest with
  | [] => (ipts, Ok tt)
  | point :: rest' =>
      match py_getitem (Function.__points d) (i - 1) with
      | Raise e => (ipts, Raise e)
      | Ok prev =>
          match sample m d ipts (fst point - fst prev) with
          | Raise e => (ipts, Raise e)
          | Ok p => integral_points_loop m d (i + 1) rest' (inserted ipts (fst p) (snd p))
          end
      end
  end.

Definition integral_points (method : option IntegrationMethod) (d : Function.t)
  (x_i y_i : Qc) : list point * result unit :=
  match method with
  | Some m => integral_points_loop m d 1 (drop 1 (Function.__points d)) [(x_i, y_i)]
  | None => ([(x_i, y_i)], Ok tt)
  end.

(** An [insert] that only stores the point when the function has no cached
    integral. *)
Definition ins_simple (ins : loc -> Qc -> Qc -> bool -> M Heap unit) : Prop :=
  forall l x y h o,
    h !! l = Some o -> Function.__integral o = None ->
    ins l x y false h
    = (alter (fun o => Function.mk (inserted (Function.__points o) x y) (Function.__integral o)
                         (Function.__integration_method o)) l h, Ok tt).

(** The object that [self.__integral] refers to. *)
Definition integral_of (h : Heap) (self : nat) : option Function.t :=
  match h !! self with
  | Some o => match Function.__integral o with
              | Some g => h !! g
              | None => None
              end
  | None => None
  end.

(** The step width [__update_integral] uses after a trailing insert of
    abscissa [x] into the points [pts]. *)
Definition trailing_dx (pts : list point) (x : Qc) : Qc :=
  match last pts with
  | Some l => x - fst l
  | None => 0
  end.

(** [n] points from [(x, y)] on, each [dx] to the right of and [dy] above
    the one before. *)
Fixpoint ramp (x y dx dy : Qc) (n : nat) : list point :=
  match n with
  | O => []
  | S n' => (x, y) :: ramp (x + dx) (y + dy) dx dy n'
  end.

(** [n] points of ordinate [c], spaced by [dx] from abscissa [x] on. *)
Fixpoint uniform (x dx c : Qc) (n : nat) : list point :=
  match n with
  | O => []
  | S n' => (x, c) :: uniform (x + dx) dx c n'
  end.

(** A computation that never writes the body's attributes. *)
Definition keeps_self {B H A : Type} (c : M (B * H) A) : Prop :=
  forall w, fst (fst (c w)) = fst w.

(** A computation that writes nothing. *)
Definition reads {S A : Type} (c : M S A) : Prop := forall s, fst (c s) = s.

(** A stand-in for the [math] module on runs that never call it. *)
Definition no_math : math.t :=
  math.mk (fun _ => 0) (fun _ => 0) (fun _ _ => 0) (fun _ => 0) 0.

(** A body whose [set_state] was never called and that has no callbacks:
    its six trajectory functions are the empty functions that
    [__post_init__] made, two different objects for the acceleration. *)
Definition never_seeded (w : Cb.AnimatedBody * Heap) : Prop :=
  Cb.pre_step (fst w) = [] /\ Cb.post_step (fst w) = []
  /\ snd w !! VectorFunction.x (Obj.position (Cb.attrs (fst w))) = Some Function.__init__
  /\ snd w !! VectorFunction.y (Obj.position (Cb.attrs (fst w))) = Some Function.__init__
  /\ snd w !! VectorFunction.x (Obj.velocity (Cb.attrs (fst w))) = Some Function.__init__
  /\ snd w !! VectorFunction.y (Obj.velocity (Cb.attrs (fst w))) = Some Function.__init__
  /\ snd w !! VectorFunction.x (Obj.acceleration (Cb.attrs (fst w))) = Some Function.__init__
  /\ snd w !! VectorFunction.y (Obj.acceleration (Cb.attrs (fst w))) = Some Function.__init__
  /\ VectorFunction.x (Obj.acceleration (Cb.attrs (fst w)))
     <> VectorFunction.y (Obj.acceleration (Cb.attrs (fst w))).

(** The outcome of the first [step] of such a body, read off its forces. *)
Definition first_step_outcome (b : Obj.Body) : result unit :=
  match Obj.forces b with
  | [] => if decide (Obj.mass b = 0) then Raise ZeroDivisionError else Ok tt
  | Obj.Force_o :: _ => Raise NotImplementedError
  | Obj.Gravity_o _ _ :: _ => Raise IndexError
  | Obj.PendulumTension_o :: _ =>
      match List.find (fun f => bool_decide (Obj.type_of f = Obj.Gravity_t)) (Obj.forces b) with
      | Some (Obj.Gravity_o _ _) => Raise IndexError
      | _ => Raise KeyError
      end
  end.

(** [self.time += self.dt] *)
Definition advance (self : Cb.AnimatedBody) : Cb.AnimatedBody :=
  Cb.mk (Body.set_time (Obj.time (Cb.attrs self) + Obj.dt (Cb.attrs self)) (Cb.attrs self))
    (Cb.pre_step self) (Cb.post_step self).

(** The store after the first [step] of a body that was never seeded and
    has no force: the one acceleration sample, in both components. *)
Definition first_sample (b : Obj.Body) (h : Heap) : Heap :=
  alter (fun o => Function.mk [(Obj.time b + Obj.dt b, 0)] (Function.__integral o)
                    (Function.__integration_method o))
    (VectorFunction.y (Obj.acceleration b))
    (alter (fun o => Function.mk [(Obj.time b + Obj.dt b, 0)] (Function.__integral o)
                       (Function.__integration_method o))
       (VectorFunction.x (Obj.acceleration b)) h).



(** [n] calls of [step()], one after the other. *)
Fixpoint run_steps (m : math.t) (n : nat) : M (Cb.AnimatedBody * Heap) unit :=
  match n with
  | O => ret tt
  | S n' => AnimatedBody.step m;; run_steps m n'
  end.

(** The points of the function stored at [l]. *)
Definition points_at (h : Heap) (l : nat) : option (list point) :=
  Function.__points <$> h !! l.

(** [x] after [n] additions of [dx]. *)
Definition after (x dx : Qc) (n : nat) : Qc := Nat.iter n (fun t => t + dx) x.

(** A body without forces or callbacks, [n] steps after [set_state]: time
    has advanced [n] times, the acceleration holds [n + 1] zeros, the
    velocity [n + 1] times its initial value and the position [n + 1] points
    of the straight line, each function caching the next as its integral. *)
Definition free_state (n : nat) (dt v_ix v_iy x_i y_i : Qc) (scheme : IntegrationMethod)
  (w : Cb.AnimatedBody * Heap) : Prop :=
  let b := Cb.attrs (fst w) in
  let h := snd w in
  let a := Obj.acceleration b in
  let v := Obj.velocity b in
  let p := Obj.position b in
  Cb.pre_step (fst w) = [] /\ Cb.post_step (fst w) = []
  /\ Obj.forces b = [] /\ Obj.mass b <> 0 /\ Obj.dt b = dt /\ Obj.time b = after 0 dt n
  /\ (VectorFunction.x a < VectorFunction.y a < VectorFunction.x v)%nat
  /\ (VectorFunction.x v < VectorFunction.y v < VectorFunction.x p)%nat
  /\ (VectorFunction.x p < VectorFunction.y p)%nat
  /\ h !! VectorFunction.x a
     = Some (Function.mk (uniform 0 dt 0 (S n)) (Some (VectorFunction.x v)) None)
  /\ h !! VectorFunction.y a
     = Some (Function.mk (uniform 0 dt 0 (S n)) (Some (VectorFunction.y v)) None)
  /\ h !! VectorFunction.x v
     = Some (Function.mk (uniform 0 dt v_ix (S n)) (Some (VectorFunction.x p)) (Some scheme))
  /\ h !! VectorFunction.y v
     = Some (Function.mk (uniform 0 dt v_iy (S n)) (Some (VectorFunction.y p)) (Some scheme))
  /\ h !! VectorFunction.x p
     = Some (Function.mk (ramp 0 x_i dt (v_ix * dt) (S n)) None (Some scheme))
  /\ h !! VectorFunction.y p
     = Some (Function.mk (ramp 0 y_i dt (v_iy * dt) (S n)) None (Some scheme)).

(** Sample [i] of [s] is a peak: its magnitude is above that of the sample
    before it (or it is the first), and the sample after it exists and
    does not exceed it in magnitude. *)
Definition peak_at (s : list point) (i : nat) : bool :=
  match s !! i, s !! S i with
  | Some p, Some next =>
      bool_decide (¬ Qcabs.Qcabs (snd p) < Qcabs.Qcabs (snd next))
      && match i with
         | O => true
         | S j => match s !! j with
                  | Some prev => bool_decide (Qcabs.Qcabs (snd prev) < Qcabs.Qcabs (snd p))
                  | None => false
                  end
         end
  | _, _ => false
  end.

(** The peaks of [s], in the order of [s]. *)
Definition peaks_of (s : list point) : list point :=
  omap (fun i => if peak_at s i then s !! i else None) (seq 0 (length s)).

(** The samples that a scan from [cur] on records: [cur] when the magnitude
    was [rising] up to it and does not rise after it, then those of the
    rest, and at the very end the last sample read. *)
Fixpoint track (rising : bool) (cur : point) (rest : list point) : list point :=
  match rest with
  | [] => [cur]
  | next :: rest' =>
      if decide (Qcabs.Qcabs (snd cur) < Qcabs.Qcabs (snd next)) then track true next rest'
      else if rising then cur :: track false next rest'
      else track false next rest'
  end.

(** * Properties *)

(** ** Python lists *)

Lemma len_nonneg {A : Type} (l : list A) : (0 <= len l)%Z.
Proof. unfold len. lia. Qed.

Lemma py_getitem_nat {A : Type} (l : list A) (i : nat) (a : A) :
  l !! i = Some a -> py_getitem l (Z.of_nat i) = Ok a.
Proof.
  intros Hi. pose proof (lookup_lt_Some _ _ _ Hi) as Hlt.
  unfold py_getitem, len.
  destruct (Z.ltb_spec (Z.of_nat i) 0) as [?|_]; [lia|].
  destruct (Z.leb_spec 0 (Z.of_nat i)) as [_|?]; [|lia].
  destruct (Z.ltb_spec (Z.of_nat i) (Z.of_nat (length l))) as [_|?]; [|lia].
  simpl. by rewrite Nat2Z.id, Hi.
Qed.

Lemma py_getitem_from_end {A : Type} (l : list A) (k : nat) (a : A) :
  (0 < k <= length l)%nat -> l !! (length l - k)%nat = Some a ->
  py_getitem l (- Z.of_nat k) = Ok a.
Proof.
  intros Hk Hi. unfold py_getitem, len.
  destruct (Z.ltb_spec (- Z.of_nat k) 0) as [_|?]; [|lia].
  destruct (Z.leb_spec 0 (Z.of_nat (length l) + - Z.of_nat k)) as [_|?]; [|lia].
  destruct (Z.ltb_spec (Z.of_nat (length l) + - Z.of_nat k) (Z.of_nat (length l)))
    as [_|?]; [|lia].
  simpl. replace (Z.to_nat (Z.of_nat (length l) + - Z.of_nat k)) with (length l - k)%nat by lia.
  by rewrite Hi.
Qed.

Lemma py_getitem_0 {A : Type} (l : list A) (a : A) :
  l !! 0%nat = Some a -> py_getitem l 0 = Ok a.
Proof. apply (py_getitem_nat l 0%nat a). Qed.

Lemma py_getitem_m1 {A : Type} (l : list A) (a : A) :
  l !! (length l - 1)%nat = Some a -> py_getitem l (-1) = Ok a.
Proof.
  intros Hl. pose proof (lookup_lt_Some _ _ _ Hl).
  apply (py_getitem_from_end l 1%nat a); [lia|done].
Qed.

Lemma py_getitem_m2 {A : Type} (l : list A) (a : A) :
  (2 <= length l)%nat -> l !! (length l - 2)%nat = Some a -> py_getitem l (-2) = Ok a.
Proof. intros Hlen Hl. apply (py_getitem_from_end l 2%nat a); [lia|done]. Qed.

Lemma lookup_last_app {A : Type} (l : list A) (a : A) :
  (l ++ [a]) !! (length (l ++ [a]) - 1)%nat = Some a.
Proof.
  rewrite length_app. simpl.
  replace (length l + 1 - 1)%nat with (length l + 0)%nat by lia.
  by rewrite lookup_app_r, Nat.add_0_r, Nat.sub_diag by lia.
Qed.

Lemma py_getitem_last {A : Type} (l : list A) (a : A) :
  py_getitem (l ++ [a]) (-1) = Ok a.
Proof. apply py_getitem_m1, lookup_last_app. Qed.

Lemma py_getitem_empty {A : Type} (i : Z) : py_getitem (@nil A) i = Raise IndexError.
Proof.
  unfold py_getitem. simpl. by destruct (_ && _).
Qed.

Lemma py_insert_nat {A : Type} (l : list A) (i : nat) (a : A) :
  (i <= length l)%nat -> py_insert l (Z.of_nat i) a = take i l ++ a :: drop i l.
Proof.
  intros Hi. unfold py_insert, len.
  destruct (Z.ltb_spec (Z.of_nat i) 0) as [?|_]; [lia|].
  by replace (Z.to_nat (Z.of_nat i `min` Z.of_nat (length l))) with i by lia.
Qed.

Lemma py_insert_end {A : Type} (l : list A) (a : A) :
  py_insert l (len l) a = l ++ [a].
Proof.
  unfold len. rewrite py_insert_nat by lia.
  by rewrite take_ge, drop_ge by lia.
Qed.

Lemma length_py_insert {A : Type} (l : list A) (i : Z) (a : A) :
  length (py_insert l i a) = S (length l).
Proof.
  unfold py_insert. rewrite length_app. simpl. rewrite length_take, length_drop. lia.
Qed.

(** ** Ordered point lists *)

Lemma StronglySorted_lookup {A : Type} (R : relation A) (l : list A) (i j : nat) (a b : A) :
  StronglySorted R l -> (i < j)%nat -> l !! i = Some a -> l !! j = Some b -> R a b.
Proof.
  intros Hs. revert i j a b.
  induction Hs as [|c l Hs IH Hc]; intros i j a b Hij Hi Hj; [done|].
  destruct j as [|j]; [lia|]. destruct i as [|i]; simpl in *.
  - inversion Hi; subst. rewrite Forall_forall in Hc. apply Hc.
    by eapply list_elem_of_lookup_2.
  - apply (IH i j); [lia|done..].
Qed.

Lemma increasing_nondecreasing (pts : list point) : increasing pts -> nondecreasing pts.
Proof.
  unfold increasing, nondecreasing. induction 1 as [|c l Hs IH Hc]; constructor; [done|].
  eapply Forall_impl; [exact Hc|]. intros ? ?. by apply Qclt_le_weak.
Qed.

Lemma nondecreasing_lookup (pts : list point) (i j : nat) (p r : point) :
  nondecreasing pts -> (i <= j)%nat -> pts !! i = Some p -> pts !! j = Some r ->
  fst p <= fst r.
Proof.
  intros Hs Hij Hi Hj. destruct (decide (i = j)) as [->|Hne].
  - rewrite Hi in Hj. inversion Hj. apply Qcle_refl.
  - apply (StronglySorted_lookup Qcle (fst <$> pts) i j); [done|lia|..].
    + by rewrite list_lookup_fmap, Hi.
    + by rewrite list_lookup_fmap, Hj.
Qed.

Lemma increasing_lookup (pts : list point) (i j : nat) (p r : point) :
  increasing pts -> (i < j)%nat -> pts !! i = Some p -> pts !! j = Some r ->
  fst p < fst r.
Proof.
  intros Hs Hij Hi Hj.
  apply (StronglySorted_lookup Qclt (fst <$> pts) i j); [done|lia|..].
  - by rewrite list_lookup_fmap, Hi.
  - by rewrite list_lookup_fmap, Hj.
Qed.

Lemma increasing_lookup_inj (pts : list point) (i j : nat) (p r : point) :
  increasing pts -> pts !! i = Some p -> pts !! j = Some r -> fst p = fst r -> i = j.
Proof.
  intros Hs Hi Hj Heq.
  destruct (Nat.lt_trichotomy i j) as [Hlt|[->|Hlt]]; [|done|].
  - pose proof (increasing_lookup _ _ _ _ _ Hs Hlt Hi Hj) as H. rewrite Heq in H.
    by apply Qclt_not_eq in H.
  - pose proof (increasing_lookup _ _ _ _ _ Hs Hlt Hj Hi) as H. rewrite Heq in H.
    by apply Qclt_not_eq in H.
Qed.

(** ** [search_best_index] *)

Lemma search_best_index_rec_spec (self : Function.t) (x : Qc) :
  nondecreasing (Function.__points self) ->
  forall (n s e : nat),
    (s <= e <= length (Function.__points self))%nat -> (e - s < n)%nat ->
    exists i, Function.search_best_index_rec n self x (Z.of_nat s) (Z.of_nat e)
              = Ok (Z.of_nat i)
              /\ found_or_gap (Function.__points self) x s e i.
Proof.
  intros Hs. induction n as [|n IH]; intros s e Hse Hn; [lia|].
  simpl. destruct (Z.eqb_spec (Z.of_nat s) (Z.of_nat e)) as [Heq|Hne].
  { exists s. split; [done|]. split; [lia|]. right. split; intros; lia. }
  set (o := (s + (e - s) / 2)%nat).
  assert (Ho : (Z.of_nat s + (Z.of_nat e - Z.of_nat s) `div` 2)%Z = Z.of_nat o).
  { unfold o. rewrite Nat2Z.inj_add, Nat2Z.inj_div, Nat2Z.inj_sub by lia. done. }
  assert (Hso : (s <= o < e)%nat).
  { unfold o. pose proof (Nat.div_mod_eq (e - s) 2).
    pose proof (Nat.mod_upper_bound (e - s) 2). lia. }
  rewrite Ho.
  destruct (lookup_lt_is_Some_2 (Function.__points self) o) as [p Hp]; [lia|].
  rewrite (py_getitem_nat _ _ _ Hp). simpl.
  destruct (x ?= fst p) eqn:Hc.
  - apply Qceq_alt in Hc. exists o. split; [done|]. split; [lia|].
    left. split; [lia|]. by exists p.
  - apply Qclt_alt in Hc.
    destruct (IH s o) as (i & Hi & Hr & Hcase); [lia..|].
    exists i. split; [done|]. split; [lia|].
    destruct Hcase as [(Hlt & r & Hr1 & Hr2)|[Hl Hg]].
    + left. split; [lia|]. by exists r.
    + right. split; [done|]. intros j r Hj Hjr.
      destruct (decide (j < o)%nat) as [?|?]; [apply (Hg j r); [lia|done]|].
      eapply Qclt_le_trans; [exact Hc|].
      apply (nondecreasing_lookup (Function.__points self) o j p r); [done|lia|done..].
  - apply Qcgt_alt in Hc.
    replace (Z.of_nat o + 1)%Z with (Z.of_nat (S o)) by lia.
    destruct (IH (S o) e) as (i & Hi & Hr & Hcase); [lia..|].
    exists i. split; [done|]. split; [lia|].
    destruct Hcase as [(Hlt & r & Hr1 & Hr2)|[Hl Hg]].
    + left. split; [lia|]. by exists r.
    + right. split; [|done]. intros j r Hj Hjr.
      destruct (decide (o < j)%nat) as [?|?]; [apply (Hl j r); [lia|done]|].
      eapply Qcle_lt_trans; [|exact Hc].
      apply (nondecreasing_lookup (Function.__points self) j o r p); [done|lia|done..].
Qed.

Lemma search_best_index_spec (self : Function.t) (x : Qc) :
  nondecreasing (Function.__points self) ->
  exists i, Function.search_best_index self x 0 (len (Function.__points self))
            = Ok (Z.of_nat i)
            /\ found_or_gap (Function.__points self) x 0 (length (Function.__points self)) i.
Proof.
  intros Hs. unfold Function.search_best_index, len.
  apply (search_best_index_rec_spec self x Hs _ 0%nat); lia.
Qed.

(** ** [__call__] *)

Lemma Qcminus_ne_0 (a b : Qc) : a <> b -> a - b <> 0.
Proof.
  intros Hne H. apply Hne. apply (Qcplus_inj_l (- b)).
  by rewrite Qcplus_opp_r.
Qed.

Lemma py_div_ne (a b c : Qc) : b <> c -> py_div a (b - c) = Ok (a / (b - c)).
Proof.
  intros Hne. unfold py_div. destruct (decide (b - c = 0)) as [H|_]; [|done].
  by apply Qcminus_ne_0 in H.
Qed.

Lemma call_two_or_more (self : Function.t) (x : Qc) (first last : point) :
  (2 <= length (Function.__points self))%nat ->
  Function.__points self !! 0%nat = Some first ->
  Function.__points self !! (length (Function.__points self) - 1)%nat = Some last ->
  Function.__call__ self x =
    (index <-? (if decide (fst last < x) then Ok (len (Function.__points self) - 1)%Z
                else if decide (x < fst first) then Ok 1%Z
                else Function.search_best_index self x 0 (len (Function.__points self)));
     segment_value (Function.__points self) x index).
Proof.
  intros Hlen Hfirst Hlast. unfold Function.__call__.
  destruct (Function.__points self) as [|p1 [|p2 rest]] eqn:Hpts; simpl in Hlen; [lia..|].
  rewrite (py_getitem_m1 _ _ Hlast).
  by rewrite (py_getitem_0 _ _ Hfirst).
Qed.

Lemma segment_value_at_right_end (pts : list point) (i : nat) (a b : point) :
  pts !! i = Some a -> pts !! S i = Some b -> fst a <> fst b ->
  segment_value pts (fst b) (Z.of_nat (S i)) = Ok (snd b).
Proof.
  intros Ha Hb Hne. unfold segment_value.
  replace (Z.of_nat (S i) - 1)%Z with (Z.of_nat i) by lia.
  rewrite (py_getitem_nat _ _ _ Ha), (py_getitem_nat _ _ _ Hb). simpl.
  rewrite py_div_ne by done. simpl. f_equal. field. by apply Qcminus_ne_0.
Qed.

(** Index 0: [index - 1] is [-1], so the line runs through the last and the
    first stored point; at the first abscissa it still passes through the
    first point. *)
Lemma segment_value_wrapped (pts : list point) (a b : point) :
  pts !! (length pts - 1)%nat = Some a -> pts !! 0%nat = Some b -> fst a <> fst b ->
  segment_value pts (fst b) 0 = Ok (snd b).
Proof.
  intros Ha Hb Hne. unfold segment_value.
  pose proof (lookup_lt_Some _ _ _ Hb) as Hlen.
  change (0 - 1)%Z with (-1)%Z. rewrite (py_getitem_m1 _ _ Ha).
  rewrite (py_getitem_0 _ _ Hb). simpl.
  rewrite py_div_ne by done. simpl. f_equal. field. by apply Qcminus_ne_0.
Qed.

(** C1. For every Function whose stored x-values increase strictly and that
    holds at least two points, calling it at a stored x-value returns exactly
    the y-value stored with it; this holds at every stored index, the
    leftmost and the rightmost included. *)
Theorem call_at_stored_point (self : Function.t) (k : nat) (x y : Qc) :
  increasing (Function.__points self) ->
  (2 <= length (Function.__points self))%nat ->
  Function.__points self !! k = Some (x, y) ->
  Function.__call__ self x = Ok y.
Proof.
  intros Hinc Hlen Hk.
  pose proof (increasing_nondecreasing _ Hinc) as Hnd.
  pose proof (lookup_lt_Some _ _ _ Hk) as Hklt.
  destruct (lookup_lt_is_Some_2 (Function.__points self) 0%nat) as [first Hfirst]; [lia|].
  destruct (lookup_lt_is_Some_2 (Function.__points self)
              (length (Function.__points self) - 1)%nat) as [last Hlast]; [lia|].
  rewrite (call_two_or_more self x first last Hlen Hfirst Hlast).
  assert (fst (x, y) <= fst last) as Hxl.
  { apply (nondecreasing_lookup (Function.__points self) k
             (length (Function.__points self) - 1)); [done|lia|done..]. }
  assert (fst first <= fst (x, y)) as Hfx.
  { apply (nondecreasing_lookup (Function.__points self) 0%nat k); [done|lia|done..]. }
  simpl in Hxl, Hfx.
  destruct (decide (fst last < x)) as [Hc|_]; [by apply Qclt_not_le in Hc|].
  destruct (decide (x < fst first)) as [Hc|_]; [by apply Qclt_not_le in Hc|].
  destruct (search_best_index_spec self x Hnd) as (i & -> & Hrange & Hcase). simpl.
  assert (i = k) as ->.
  { destruct Hcase as [(Hlt & p & Hp & Hpx)|[Hl Hg]].
    - by apply (increasing_lookup_inj (Function.__points self) i k p (x, y) Hinc).
    - destruct (decide (k < i)%nat) as [Hki|Hki].
      + specialize (Hl k (x, y) ltac:(lia) Hk). simpl in Hl. by apply Qclt_not_eq in Hl.
      + specialize (Hg k (x, y) ltac:(lia) Hk). simpl in Hg. by apply Qclt_not_eq in Hg. }
  destruct k as [|k].
  - assert (fst last <> fst first) as Hne.
    { intros Heq. assert (0 < length (Function.__points self) - 1)%nat as Hpos by lia.
      pose proof (increasing_lookup (Function.__points self) _ _ _ _ Hinc Hpos Hfirst Hlast) as H.
      rewrite Heq in H. by apply Qclt_not_eq in H. }
    rewrite Hk in Hfirst. inversion Hfirst; subst first.
    apply (segment_value_wrapped _ last (x, y)); done.
  - destruct (lookup_lt_is_Some_2 (Function.__points self) k) as [a Ha]; [lia|].
    apply (segment_value_at_right_end _ k a (x, y)); [done..|].
    intros Heq.
    pose proof (increasing_lookup (Function.__points self) k (S k) _ _ Hinc ltac:(lia) Ha Hk) as H.
    rewrite Heq in H. by apply Qclt_not_eq in H.
Qed.

Lemma call_at_stored_point_witness :
  Function.__call__ (Function.mk [(num 0 1, num 5 1); (num 1 1, num 2 1); (num 3 1, num 7 2)]
                       None None) (num 0 1) = Ok (num 5 1).
Proof.
  apply (call_at_stored_point _ 0%nat).
  - unfold increasing. apply (bool_decide_unpack _). vm_compute. exact I.
  - simpl. lia.
  - reflexivity.
Defined.

Lemma segment_value_line (pts : list point) (i : nat) (a b : point) (x : Qc) :
  pts !! i = Some a -> pts !! S i = Some b -> fst a <> fst b ->
  segment_value pts x (Z.of_nat (S i))
  = Ok (snd a + (snd b - snd a) / (fst b - fst a) * (x - fst a)).
Proof.
  intros Ha Hb Hne. unfold segment_value.
  replace (Z.of_nat (S i) - 1)%Z with (Z.of_nat i) by lia.
  rewrite (py_getitem_nat _ _ _ Ha), (py_getitem_nat _ _ _ Hb). simpl.
  rewrite py_div_ne by done. simpl. f_equal. apply Qcplus_comm.
Qed.

Lemma segment_value_ok (pts : list point) (x : Qc) (index : Z) (a b : point) :
  py_getitem pts (index - 1) = Ok a -> py_getitem pts index = Ok b -> fst a <> fst b ->
  segment_value pts x index = Ok ((snd b - snd a) / (fst b - fst a) * (x - fst a) + snd a).
Proof.
  intros Ha Hb Hne. unfold segment_value. rewrite Ha, Hb. simpl.
  by rewrite py_div_ne by done.
Qed.

(** On strictly increasing points [__call__] cannot fail: with two points or
    more it returns the value at [x] of the line through two stored points
    of different abscissas. *)
Lemma call_segment (self : Function.t) (x : Qc) :
  increasing (Function.__points self) -> (2 <= length (Function.__points self))%nat ->
  exists a b, a ∈ Function.__points self /\ b ∈ Function.__points self /\ fst a <> fst b
    /\ Function.__call__ self x
       = Ok ((snd b - snd a) / (fst b - fst a) * (x - fst a) + snd a).
Proof.
  intros Hinc Hlen.
  pose proof (increasing_nondecreasing _ Hinc) as Hnd.
  destruct (lookup_lt_is_Some_2 (Function.__points self) 0%nat) as [first Hfirst]; [lia|].
  destruct (lookup_lt_is_Some_2 (Function.__points self)
              (length (Function.__points self) - 1)%nat) as [last Hlast]; [lia|].
  assert (forall i j a b index,
            Function.__points self !! i = Some a -> Function.__points self !! j = Some b ->
            i <> j -> py_getitem (Function.__points self) (index - 1) = Ok a ->
            py_getitem (Function.__points self) index = Ok b ->
            exists a b, a ∈ Function.__points self /\ b ∈ Function.__points self
              /\ fst a <> fst b
              /\ segment_value (Function.__points self) x index
                 = Ok ((snd b - snd a) / (fst b - fst a) * (x - fst a) + snd a)) as Hseg.
  { intros i j a b index Ha Hb Hij Hga Hgb. exists a, b.
    split; [by eapply list_elem_of_lookup_2|]. split; [by eapply list_elem_of_lookup_2|].
    assert (fst a <> fst b) as Hne.
    { intros Heq. apply Hij.
      by apply (increasing_lookup_inj (Function.__points self) i j a b). }
    split; [done|]. by apply segment_value_ok. }
  rewrite (call_two_or_more self x first last Hlen Hfirst Hlast).
  destruct (decide (fst last < x)) as [_|Hxl]; simpl.
  { destruct (lookup_lt_is_Some_2 (Function.__points self)
                (length (Function.__points self) - 2)%nat) as [a Ha]; [lia|].
    apply (Hseg _ _ a last _ Ha Hlast); [lia|..].
    - replace (len (Function.__points self) - 1 - 1)%Z
        with (Z.of_nat (length (Function.__points self) - 2)) by (unfold len; lia).
      by apply py_getitem_nat.
    - replace (len (Function.__points self) - 1)%Z
        with (Z.of_nat (length (Function.__points self) - 1)) by (unfold len; lia).
      by apply py_getitem_nat. }
  destruct (decide (x < fst first)) as [_|Hxf]; simpl.
  { destruct (lookup_lt_is_Some_2 (Function.__points self) 1%nat) as [b Hb]; [lia|].
    apply (Hseg _ _ first b _ Hfirst Hb); [lia|by apply py_getitem_0|].
    by apply (py_getitem_nat _ 1%nat). }
  destruct (search_best_index_spec self x Hnd) as (i & -> & Hr & Hcase). simpl.
  assert (i < length (Function.__points self))%nat as Hi.
  { destruct Hcase as [(Hlt & _)|[Hl _]]; [done|].
    destruct (decide (i = length (Function.__points self))) as [->|]; [|lia].
    exfalso. apply Hxl. apply (Hl (length (Function.__points self) - 1)%nat); [lia|done]. }
  destruct (lookup_lt_is_Some_2 (Function.__points self) i) as [b Hb]; [done|].
  destruct i as [|i].
  - apply (Hseg _ _ last b _ Hlast Hb); [lia|by apply py_getitem_m1|by apply py_getitem_0].
  - destruct (lookup_lt_is_Some_2 (Function.__points self) i) as [a Ha]; [lia|].
    apply (Hseg _ _ a b _ Ha Hb); [lia| |by apply py_getitem_nat].
    replace (Z.of_nat (S i) - 1)%Z with (Z.of_nat i) by lia. by apply py_getitem_nat.
Qed.

Lemma call_succeeds (self : Function.t) (x : Qc) :
  increasing (Function.__points self) -> Function.__points self <> [] ->
  exists v, Function.__call__ self x = Ok v.
Proof.
  intros Hinc Hne.
  destruct (decide (length (Function.__points self) = 1%nat)) as [H1|H1].
  { unfold Function.__call__. destruct (Function.__points self) as [|p [|]]; try done.
    by eexists. }
  destruct (call_segment self x Hinc) as (a & b & _ & _ & _ & ->); [|by eexists].
  destruct (Function.__points self) as [|p [|]]; simpl in *; try done; lia.
Qed.

(** C9 as stated fails: [insert], which by default checks nothing, stores
    two points with the same x-value side by side; when they are the last
    two points a call above the rightmost stored x raises
    [ZeroDivisionError] instead of returning the extrapolated value, and
    when they are the first two points so does a call below the leftmost
    stored x. *)
Lemma call_beyond_repeated_abscissa_counterexample :
  (exists h f o,
     Function.from_iter [(num 0 1, num 5 1); (num 1 1, num 3 1); (num 1 1, num 2 1)] []
     = (h, Ok f)
     /\ h !! f = Some o
     /\ Function.__points o = [(num 0 1, num 5 1); (num 1 1, num 2 1); (num 1 1, num 3 1)]
     /\ Function.__call__ o (num 2 1) = Raise ZeroDivisionError)
  /\ (exists h f o,
        Function.from_iter [(num 1 1, num 3 1); (num 1 1, num 2 1); (num 2 1, num 0 1)] []
        = (h, Ok f)
        /\ h !! f = Some o
        /\ Function.__points o = [(num 1 1, num 2 1); (num 1 1, num 3 1); (num 2 1, num 0 1)]
        /\ Function.__call__ o (num 0 1) = Raise ZeroDivisionError).
Proof.
  split.
  - eexists _, _, _. split; [by vm_compute|]. split; [reflexivity|].
    split; [|by vm_compute]. apply (bool_decide_unpack _). by vm_compute.
  - eexists _, _, _. split; [by vm_compute|]. split; [reflexivity|].
    split; [|by vm_compute]. apply (bool_decide_unpack _). by vm_compute.
Qed.

(** C9, amended. Calling a Function with no stored point raises the "no
    stored points" [ValueError] (EmptyFunction); with exactly one stored
    point the call returns that point's y for every x; with two points or
    more, a call above the rightmost stored x returns the value of the line
    through the last two points when these two differ in x, and a call below
    the leftmost stored x returns the value of the line through the first
    two points when these two differ in x and the stored x-values never
    decrease (as [insert] keeps them). *)
Theorem call_empty_single_extrapolate (self : Function.t) (x : Qc) :
  (Function.__points self = [] ->
     Function.__call__ self x = Raise ValueError_no_stored_points) /\
  (forall p, Function.__points self = [p] -> Function.__call__ self x = Ok (snd p)) /\
  (forall front a b,
     Function.__points self = front ++ [a; b] -> fst a <> fst b -> fst b < x ->
     Function.__call__ self x
     = Ok (snd a + (snd b - snd a) / (fst b - fst a) * (x - fst a))) /\
  (forall a b rest,
     Function.__points self = a :: b :: rest -> nondecreasing (Function.__points self) ->
     fst a <> fst b -> x < fst a ->
     Function.__call__ self x
     = Ok (snd a + (snd b - snd a) / (fst b - fst a) * (x - fst a))).
Proof.
  repeat split.
  - intros Hpts. unfold Function.__call__. by rewrite Hpts.
  - intros p Hpts. unfold Function.__call__. by rewrite Hpts.
  - intros front a b Hpts Hne Hx.
    assert (length (Function.__points self) = S (S (length front))) as Hlen.
    { rewrite Hpts, length_app. simpl. lia. }
    assert (Function.__points self !! length front = Some a) as Ha.
    { rewrite Hpts. by rewrite lookup_app_r, Nat.sub_diag by lia. }
    assert (Function.__points self !! S (length front) = Some b) as Hb.
    { rewrite Hpts. rewrite lookup_app_r by lia.
      by replace (S (length front) - length front)%nat with 1%nat by lia. }
    destruct (lookup_lt_is_Some_2 (Function.__points self) 0%nat) as [first Hfirst]; [lia|].
    rewrite (call_two_or_more self x first b); [|lia|done|by rewrite Hlen].
    destruct (decide (fst b < x)) as [_|Hc]; [|done]. simpl.
    replace (len (Function.__points self) - 1)%Z with (Z.of_nat (S (length front)))
      by (unfold len; lia).
    by apply segment_value_line.
  - intros a b rest Hpts Hnd Hne Hx.
    assert (length (Function.__points self) = S (S (length rest))) as Hlen
      by by rewrite Hpts.
    assert (Function.__points self !! 0%nat = Some a) as Ha by by rewrite Hpts.
    assert (Function.__points self !! 1%nat = Some b) as Hb by by rewrite Hpts.
    destruct (lookup_lt_is_Some_2 (Function.__points self)
                (length (Function.__points self) - 1)%nat) as [last Hlast]; [lia|].
    rewrite (call_two_or_more self x a last); [|lia|done..].
    assert (fst a <= fst last) as Hal.
    { apply (nondecreasing_lookup (Function.__points self) 0%nat
               (length (Function.__points self) - 1)); [done|lia|done..]. }
    destruct (decide (fst last < x)) as [Hc|_].
    { exfalso. apply (Qclt_not_le _ _ Hx). apply Qclt_le_weak.
      by eapply Qcle_lt_trans. }
    destruct (decide (x < fst a)) as [_|Hc]; [|done]. simpl.
    by apply (segment_value_line _ 0%nat).
Qed.

Lemma call_empty_single_extrapolate_witness :
  Function.__call__ (Function.mk [(num 0 1, num 1 1); (num 1 1, num 3 1); (num 2 1, num 4 1)]
                       None None) (num 4 1)
  = Ok (num 3 1 + (num 4 1 - num 3 1) / (num 2 1 - num 1 1) * (num 4 1 - num 1 1))
  /\ Function.__call__ (Function.mk [(num 0 1, num 1 1); (num 1 1, num 3 1); (num 2 1, num 4 1)]
                          None None) (num (-2) 1)
     = Ok (num 1 1 + (num 3 1 - num 1 1) / (num 1 1 - num 0 1) * (num (-2) 1 - num 0 1))
  /\ Function.__call__ (Function.mk [(num 0 1, num 1 1)] None None) (num 9 1) = Ok (num 1 1).
Proof.
  split; [|split].
  - apply (proj1 (proj2 (proj2 (call_empty_single_extrapolate _ _)))
             [(num 0 1, num 1 1)] (num 1 1, num 3 1) (num 2 1, num 4 1)).
    + reflexivity.
    + apply (bool_decide_unpack _). vm_compute. exact I.
    + apply (bool_decide_unpack _). vm_compute. exact I.
  - apply (proj2 (proj2 (proj2 (call_empty_single_extrapolate _ _)))
             (num 0 1, num 1 1) (num 1 1, num 3 1) [(num 2 1, num 4 1)]).
    + reflexivity.
    + apply (bool_decide_unpack _). vm_compute. exact I.
    + apply (bool_decide_unpack _). vm_compute. exact I.
    + apply (bool_decide_unpack _). vm_compute. exact I.
  - apply (proj1 (proj2 (call_empty_single_extrapolate _ _)) (num 0 1, num 1 1)).
    reflexivity.
Defined.

(** ** [BodyReplay.step] *)

Lemma replay_step_eq (w : Obj.BodyReplay * Heap) :
  BodyReplay.step w =
    match replay_sample w (Obj.index (fst w) + 1) with
    | Some p =>
        ((BodyReplay.set_time (fst p) (BodyReplay.set_index (Obj.index (fst w) + 1) (fst w)),
          snd w), Ok true)
    | None => ((BodyReplay.set_index (Obj.index (fst w) + 1) (fst w), snd w), Ok false)
    end.
Proof.
  destruct w as [b h]. unfold BodyReplay.step, replay_sample, BodyReplay.try_or_false,
    bind, set_self, self_, on_heap, lift, Function.deref. simpl.
  destruct (h !! VectorFunction.x (Obj.replay_position b)) as [fx|]; simpl; [|done].
  by destruct (Function.seek fx (Obj.index b + 1)).
Qed.






(** ** The store: well-formedness and frames *)

Lemma wf_from_lookup (n : nat) (h : Heap) (k l : nat) (o : Function.t) (g : nat) :
  wf_from n k h = true -> h !! l = Some o -> Function.__integral o = Some g ->
  (k + l < g < n)%nat.
Proof.
  revert k l. induction h as [|o' h IH]; intros k l Hwf Hl Hg; [done|].
  simpl in Hwf. apply andb_prop in Hwf as [Ho Hwf]. destruct l as [|l]; simpl in Hl.
  - inversion Hl; subst o'. rewrite Hg in Ho. apply andb_prop in Ho as [H1 H2].
    apply Nat.ltb_lt in H1, H2. lia.
  - specialize (IH (S k) l Hwf Hl Hg). lia.
Qed.

Lemma wfb_wf (h : Heap) : wfb h = true -> wf h.
Proof. intros Hwf l o g Hl Hg. apply (wf_from_lookup _ _ 0%nat l o g Hwf Hl Hg). Qed.

Lemma wf_nil : wf [].
Proof. by apply wfb_wf. Qed.

Lemma ext_refl (b : nat) (h : Heap) : wf h -> ext b h h.
Proof. intros Hwf. split; [done|]. by split. Qed.

Lemma ext_trans (b : nat) (h1 h2 h3 : Heap) : ext b h1 h2 -> ext b h2 h3 -> ext b h1 h3.
Proof.
  intros (Hw2 & Hl2 & He2) (Hw3 & Hl3 & He3). split; [done|]. split; [lia|].
  intros l Hl. by rewrite He3, He2.
Qed.

Lemma ext_weaken (b b' : nat) (h h' : Heap) : (b' <= b)%nat -> ext b h h' -> ext b' h h'.
Proof. intros Hb (Hw & Hl & He). split; [done|]. split; [done|]. intros l Hl'. apply He. lia. Qed.

Lemma ext_wf (b : nat) (h h' : Heap) : ext b h h' -> wf h'.
Proof. by intros (Hw & _). Qed.

(** Writing the points or the scheme of an object changes no integral link. *)
Lemma alter_keeps_links (f : Function.t -> Function.t) (self : nat) (h : Heap) :
  (forall o, Function.__integral (f o) = Function.__integral o) ->
  wf h -> ext self h (alter f self h).
Proof.
  intros Hf Hwf. split; [|split].
  - intros l o g Hl Hg. rewrite length_alter.
    destruct (decide (self = l)) as [->|Hne].
    + rewrite list_lookup_alter_eq in Hl. destruct (h !! l) as [o0|] eqn:Ho; simpl in Hl; [|done].
      inversion Hl; subst o. rewrite Hf in Hg. by apply (Hwf l o0 g).
    + rewrite list_lookup_alter_ne in Hl by done. by apply (Hwf l o g).
  - by rewrite length_alter.
  - intros l Hl. apply list_lookup_alter_ne. lia.
Qed.

Lemma set_points_ext (self : nat) (pts : list point) (h : Heap) :
  wf h -> ext self h (fst (Function.set_points self pts h)).
Proof. intros Hwf. by apply alter_keeps_links. Qed.

Lemma set_integration_method_ext (self : nat) (m : option IntegrationMethod) (h : Heap) :
  wf h -> ext self h (fst (Function.set_integration_method self m h)).
Proof. intros Hwf. by apply alter_keeps_links. Qed.

Lemma set_integral_ext (self g : nat) (h : Heap) :
  wf h -> (self < g < length h)%nat ->
  ext self h (fst (Function.set_integral self (Some g) h)).
Proof.
  intros Hwf Hg. simpl. split; [|split].
  - intros l o g' Hl Hg'. rewrite length_alter.
    destruct (decide (self = l)) as [->|Hne].
    + rewrite list_lookup_alter_eq in Hl. destruct (h !! l) as [o0|] eqn:Ho; simpl in Hl; [|done].
      inversion Hl; subst o. simpl in Hg'. inversion Hg'; subst g'. done.
    + rewrite list_lookup_alter_ne in Hl by done. by apply (Hwf l o g').
  - by rewrite length_alter.
  - intros l Hl. apply list_lookup_alter_ne. lia.
Qed.

Lemma new_ext (h : Heap) : wf h -> ext (length h) h (h ++ [Function.__init__]).
Proof.
  intros Hwf. split; [|split].
  - intros l o g Hl Hg. rewrite length_app. simpl.
    destruct (decide (l < length h)%nat) as [Hlt|Hge].
    + rewrite lookup_app_l in Hl by done. pose proof (Hwf l o g Hl Hg). lia.
    + rewrite lookup_app_r in Hl by lia.
      destruct (l - length h)%nat; simpl in Hl; [|done].
      inversion Hl; subst o. done.
  - rewrite length_app. lia.
  - intros l Hl. by apply lookup_app_l.
Qed.

(** ** Stepping through store computations *)

Lemma bind_ret {S A B : Type} (a : A) (k : A -> M S B) (s : S) : bind (ret a) k s = k a s.
Proof. done. Qed.

Lemma bind_raise {S A B : Type} (e : Exception) (k : A -> M S B) (s : S) :
  bind (raise e) k s = (s, Raise e).
Proof. done. Qed.

Lemma bind_Ok {S A B : Type} (m : M S A) (k : A -> M S B) (s s' : S) (a : A) :
  m s = (s', Ok a) -> bind m k s = k a s'.
Proof. intros H. unfold bind. by rewrite H. Qed.

Lemma bind_Raise {S A B : Type} (m : M S A) (k : A -> M S B) (s s' : S) (e : Exception) :
  m s = (s', Raise e) -> bind m k s = (s', Raise e).
Proof. intros H. unfold bind. by rewrite H. Qed.

Lemma bind_lift {S A B : Type} (r : result A) (k : A -> M S B) (s : S) :
  bind (lift r) k s = match r with Ok a => k a s | Raise e => (s, Raise e) end.
Proof. unfold bind, lift. by destruct r. Qed.

Lemma bind_deref {B : Type} (l : nat) (k : Function.t -> M Heap B) (h : Heap) :
  bind (Function.deref l) k h
  = match h !! l with Some o => k o h | None => (h, Raise InvalidReference) end.
Proof. unfold bind, Function.deref. by destruct (h !! l). Qed.

Lemma bind_the_integral {B : Type} (l : nat) (k : nat -> M Heap B) (h : Heap) :
  bind (Function.the_integral l) k h
  = match h !! l with
    | Some o => match Function.__integral o with
                | Some g => k g h
                | None => (h, Raise AttributeError)
                end
    | None => (h, Raise InvalidReference)
    end.
Proof.
  unfold Function.the_integral. unfold bind at 1. rewrite bind_deref.
  destruct (h !! l) as [o|]; [|done]. by destruct (Function.__integral o).
Qed.

Lemma the_integral_eq (l : nat) (h : Heap) :
  Function.the_integral l h
  = match h !! l with
    | Some o => match Function.__integral o with
                | Some g => (h, Ok g)
                | None => (h, Raise AttributeError)
                end
    | None => (h, Raise InvalidReference)
    end.
Proof.
  unfold Function.the_integral. rewrite bind_deref.
  destruct (h !! l) as [o|]; [|done]. by destruct (Function.__integral o).
Qed.

(** ** [search_best_index] always returns an index of the searched slice *)

Lemma search_best_index_rec_total (self : Function.t) (x : Qc) (n s e : nat) :
  (s <= e <= length (Function.__points self))%nat -> (e - s < n)%nat ->
  exists i, Function.search_best_index_rec n self x (Z.of_nat s) (Z.of_nat e)
            = Ok (Z.of_nat i) /\ (s <= i <= e)%nat.
Proof.
  revert s e. induction n as [|n IH]; intros s e Hse Hn; [lia|].
  simpl. destruct (Z.eqb_spec (Z.of_nat s) (Z.of_nat e)) as [Heq|Hne].
  { exists s. split; [done|lia]. }
  set (o := (s + (e - s) / 2)%nat).
  assert (Ho : (Z.of_nat s + (Z.of_nat e - Z.of_nat s) `div` 2)%Z = Z.of_nat o).
  { unfold o. rewrite Nat2Z.inj_add, Nat2Z.inj_div, Nat2Z.inj_sub by lia. done. }
  assert (Hso : (s <= o < e)%nat).
  { unfold o. pose proof (Nat.div_mod_eq (e - s) 2).
    pose proof (Nat.mod_upper_bound (e - s) 2). lia. }
  rewrite Ho.
  destruct (lookup_lt_is_Some_2 (Function.__points self) o) as [p Hp]; [lia|].
  rewrite (py_getitem_nat _ _ _ Hp). simpl.
  destruct (x ?= fst p).
  - exists o. split; [done|lia].
  - destruct (IH s o) as (i & Hi & Hr); [lia..|]. exists i. split; [done|lia].
  - replace (Z.of_nat o + 1)%Z with (Z.of_nat (S o)) by lia.
    destruct (IH (S o) e) as (i & Hi & Hr); [lia..|]. exists i. split; [done|lia].
Qed.

Lemma search_best_index_total (self : Function.t) (x : Qc) :
  exists i, Function.search_best_index self x 0 (len (Function.__points self))
            = Ok (Z.of_nat i) /\ (i <= length (Function.__points self))%nat.
Proof.
  unfold Function.search_best_index, len.
  destruct (search_best_index_rec_total self x
              (S (Z.to_nat (Z.of_nat (length (Function.__points self)) - 0))) 0
              (length (Function.__points self))) as (i & Hi & Hr); [lia..|].
  exists i. split; [done|lia].
Qed.

(** The search reads the stored points only. *)
Lemma search_best_index_rec_points (self self' : Function.t) (x : Qc) (n : nat) (s e : Z) :
  Function.__points self = Function.__points self' ->
  Function.search_best_index_rec n self x s e = Function.search_best_index_rec n self' x s e.
Proof.
  intros Hp. revert s e. induction n as [|n IH]; intros s e; simpl; [done|].
  rewrite Hp. destruct (s =? e)%Z; [done|].
  destruct (py_getitem _ _) as [p|]; simpl; [|done].
  destruct (x ?= fst p); by rewrite ?IH.
Qed.

Lemma call_points (self self' : Function.t) (x : Qc) :
  Function.__points self = Function.__points self' ->
  Function.__call__ self x = Function.__call__ self' x.
Proof.
  intros Hp. unfold Function.__call__, Function.search_best_index. rewrite Hp.
  by rewrite (search_best_index_rec_points self self' x _ _ _ Hp).
Qed.

(** ** The integration steps: each fails with the store untouched or
       appends one sample to [f] *)

Section steps.

Variable ins : loc -> Qc -> Qc -> bool -> M Heap unit.

Lemma trapezoids_reads (d : nat) (width : Qc) (splits : nat) (x area : Qc) (h : Heap) :
  fst (Function.trapezoids d width splits x area h) = h.
Proof.
  revert x area. induction splits as [|splits IH]; intros x area; simpl; [done|].
  rewrite bind_deref. destruct (h !! d) as [o|]; [|done].
  rewrite bind_lift. destruct (Function.__call__ o (x - width)); [|done].
  rewrite bind_lift. destruct (Function.__call__ o x); [|done].
  apply IH.
Qed.

Lemma trapezoidal_appends_or_fails (splits : nat) :
  appends_or_fails ins
    (fun f d dx => Function._integrate_trapezoidal_with ins f d dx splits).
Proof.
  intros f d dx h. unfold Function._integrate_trapezoidal_with.
  rewrite bind_lift. destruct (py_div dx _) as [width|e]; [|left; by exists e].
  rewrite bind_deref. destruct (h !! d) as [o|]; [|left; by eexists].
  rewrite bind_lift. destruct (Function.seek o (-1)) as [p|e]; [|left; by exists e].
  pose proof (trapezoids_reads d width splits (fst p) 0 h) as Hh.
  destruct (Function.trapezoids d width splits (fst p) 0 h) as [h' [area|e]] eqn:Ht;
    simpl in Hh; subst h'.
  - right. exists area. by apply bind_Ok.
  - left. exists e. by apply bind_Raise.
Qed.

Lemma euler_appends_or_fails : appends_or_fails ins (Function._integrate_euler_with ins).
Proof.
  intros f d dx h. unfold Function._integrate_euler_with.
  rewrite bind_deref. destruct (h !! f) as [fo|]; [|left; by eexists].
  rewrite bind_lift. destruct (Function.seek fo (-1)) as [p|e]; [|left; by exists e].
  rewrite bind_deref. destruct (h !! d) as [o|]; [|left; by eexists].
  rewrite bind_lift. destruct (Function.__call__ o (fst p)) as [v|e]; [|left; by exists e].
  right. by eexists.
Qed.

Lemma rk4_appends_or_fails : appends_or_fails ins (Function._integrate_rk4_with ins).
Proof.
  intros f d dx h. unfold Function._integrate_rk4_with.
  rewrite bind_deref. destruct (h !! d) as [o|]; [|left; by eexists].
  rewrite bind_lift. destruct (Function.seek o (-1)) as [p|e]; [|left; by exists e].
  rewrite bind_lift. destruct (Function.__call__ o (fst p)) as [k1|e]; [|left; by exists e].
  rewrite bind_lift. destruct (Function.__call__ o (fst p + dx / 2)) as [m|e];
    [|left; by exists e].
  rewrite bind_lift. destruct (Function.__call__ o (fst p + dx)) as [k4|e];
    [|left; by exists e].
  right. by eexists.
Qed.

Hypothesis ins_frames : ins_ok ins.

Lemma append_ext (f : nat) (dx dy : Qc) (h : Heap) :
  wf h -> ext f h (fst (Function.append_with ins f dx dy h)).
Proof.
  intros Hwf. unfold Function.append_with.
  rewrite bind_deref. destruct (h !! f) as [o|]; [|by apply ext_refl].
  rewrite bind_lift. destruct (py_getitem _ _) as [p|e]; [|by apply ext_refl].
  by apply ins_frames.
Qed.

Lemma step_ext (step : loc -> loc -> Qc -> M Heap unit) (f d : nat) (dx : Qc) (h : Heap) :
  appends_or_fails ins step -> wf h -> ext f h (fst (step f d dx h)).
Proof.
  intros Hstep Hwf. destruct (Hstep f d dx h) as [[e ->]|[v ->]].
  - by apply ext_refl.
  - by apply append_ext.
Qed.

End steps.

(** ** [integral], [__update_integral] and [insert] leave older objects alone *)

Section frames.

Variable ins : loc -> Qc -> Qc -> bool -> M Heap unit.
Hypothesis ins_frames : ins_ok ins.

Lemma ext_lookup (b l : nat) (h h' : Heap) :
  ext b h h' -> (l < b)%nat -> h' !! l = h !! l.
Proof. intros (_ & _ & He) Hl. by apply He. Qed.

Lemma integral_loop_ext (step : loc -> loc -> Qc -> M Heap unit) (self : nat) :
  appends_or_fails ins step ->
  forall rest i h, wf h -> ext (S self) h (fst (Function.integral_loop step self i rest h)).
Proof.
  intros Hstep. induction rest as [|point rest IH]; intros i h Hwf; simpl.
  { by apply ext_refl. }
  rewrite bind_the_integral. destruct (h !! self) as [o|] eqn:Ho; [|by apply ext_refl].
  destruct (Function.__integral o) as [g|] eqn:Hg; [|by apply ext_refl].
  rewrite bind_deref, Ho. rewrite bind_lift.
  destruct (py_getitem _ _) as [prev|e]; [|by apply ext_refl].
  pose proof (Hwf self o g Ho Hg) as Hlt.
  pose proof (step_ext ins ins_frames step g self (fst point - fst prev) h Hstep Hwf) as He.
  destruct (step g self (fst point - fst prev) h) as [h2 [[]|e]] eqn:Hs; simpl in He.
  - rewrite (bind_Ok _ _ _ _ _ Hs).
    apply (ext_trans _ h h2); [apply (ext_weaken g); [lia|done]|].
    apply IH. by apply (ext_wf g h).
  - rewrite (bind_Raise _ _ _ _ _ Hs). simpl. apply (ext_weaken g); [lia|done].
Qed.

Lemma last_dx_reads (self : nat) (h : Heap) : fst (Function.last_dx self h) = h.
Proof.
  unfold Function.last_dx. rewrite bind_deref. destruct (h !! self) as [o|]; [|done].
  destruct (1 <? len (Function.__points o))%Z; [|done].
  rewrite bind_lift. destruct (py_getitem _ _); [|done].
  rewrite bind_lift. by destruct (py_getitem _ _).
Qed.

Lemma update_step_ext (step : loc -> loc -> Qc -> M Heap unit) (self g : nat)
  (o : Function.t) (h : Heap) :
  appends_or_fails ins step -> wf h ->
  h !! self = Some o -> Function.__integral o = Some g ->
  ext (S self) h
    (fst (bind (Function.the_integral self)
            (fun f => bind (Function.last_dx self) (fun dx => step f self dx)) h)).
Proof.
  intros Hstep Hwf Ho Hg. rewrite bind_the_integral, Ho, Hg.
  pose proof (last_dx_reads self h) as Hh.
  pose proof (Hwf self o g Ho Hg) as Hlt.
  destruct (Function.last_dx self h) as [h' [dx|e]] eqn:Hd; simpl in Hh; subst h'.
  - rewrite (bind_Ok _ _ _ _ _ Hd). apply (ext_weaken g); [lia|]. by apply (step_ext ins).
  - rewrite (bind_Raise _ _ _ _ _ Hd). by apply ext_refl.
Qed.

Lemma update_integral_ext (self : nat) (h : Heap) :
  wf h -> ext (S self) h (fst (Function.__update_integral_with ins self h)).
Proof.
  intros Hwf. unfold Function.__update_integral_with.
  rewrite bind_the_integral. destruct (h !! self) as [o|] eqn:Ho; [|by apply ext_refl].
  destruct (Function.__integral o) as [g|] eqn:Hg; [|by apply ext_refl].
  rewrite bind_deref. destruct (h !! g) as [fo|]; [|by apply ext_refl].
  destruct (Function.__integration_method fo) as [[| |]|].
  - apply (update_step_ext (Function._integrate_euler_with ins) self g o);
      [apply euler_appends_or_fails|done..].
  - apply (update_step_ext (fun f d dx => Function._integrate_trapezoidal_with ins f d dx 1)
             self g o); [apply trapezoidal_appends_or_fails|done..].
  - apply (update_step_ext (Function._integrate_rk4_with ins) self g o);
      [apply rk4_appends_or_fails|done..].
  - by apply ext_refl.
Qed.

(** [integral] replaces the cached integral of [self] by a new object,
    which it returns, and changes nothing else of [self]. *)
Lemma integral_ext (self : nat) (method : option IntegrationMethod) (x_i y_i : Qc)
  (h : Heap) (o : Function.t) :
  wf h -> h !! self = Some o ->
  ext self h (fst (Function.integral_with ins self method x_i y_i h))
  /\ fst (Function.integral_with ins self method x_i y_i h) !! self
     = Some (Function.mk (Function.__points o) (Some (length h))
               (Function.__integration_method o))
  /\ forall r, snd (Function.integral_with ins self method x_i y_i h) = Ok r ->
               r = length h.
Proof.
  intros Hwf Ho. pose proof (lookup_lt_Some _ _ _ Ho) as Hlt.
  set (cell := Function.mk (Function.__points o) (Some (length h))
                 (Function.__integration_method o)).
  set (h2 := fst (Function.set_integral self (Some (length h)) (h ++ [Function.__init__]))).
  set (h3 := fst (Function.set_integration_method (length h) method h2)).
  assert (h2 !! self = Some cell) as H2.
  { unfold h2. simpl. rewrite list_lookup_alter_eq, lookup_app_l, Ho by done. done. }
  assert (ext self h h2) as E2.
  { apply (ext_trans _ _ (h ++ [Function.__init__])).
    - apply (ext_weaken (length h)); [lia|]. by apply new_ext.
    - apply (set_integral_ext self (length h)); [by apply (ext_wf (length h) h), new_ext|].
      rewrite length_app. simpl. lia. }
  assert (ext (S self) h2 h3) as E3.
  { apply (ext_weaken (length h)); [lia|].
    apply set_integration_method_ext. by apply (ext_wf self h). }
  assert (h3 !! self = Some cell) as H3.
  { rewrite (ext_lookup _ self _ _ E3) by lia. done. }
  destruct (Function.integral_with ins self method x_i y_i h) as [hf res] eqn:HR. simpl.
  enough (ext (S self) h3 hf /\ forall r, res = Ok r -> r = length h) as [Ef Hres].
  { split; [|split; [|done]].
    - apply (ext_trans _ _ h2); [done|]. apply (ext_weaken (S self)); [lia|].
      by apply (ext_trans _ _ h3).
    - rewrite (ext_lookup _ self _ _ Ef) by lia. done. }
  unfold Function.integral_with in HR.
  unfold bind at 1 in HR. unfold Function.new at 1 in HR.
  unfold bind at 1 in HR.
  replace (Function.set_integral self (Some (length h)) (h ++ [Function.__init__]))
    with (h2, @Ok unit tt) in HR by done.
  rewrite bind_the_integral, H2 in HR. simpl in HR.
  unfold bind at 1 in HR.
  replace (Function.set_integration_method (length h) method h2)
    with (h3, @Ok unit tt) in HR by done.
  rewrite bind_the_integral, H3 in HR. simpl in HR.
  pose proof (ins_frames (length h) x_i y_i false h3 (ext_wf _ _ _ E3)) as E4.
  destruct (ins (length h) x_i y_i false h3) as [h4 [[]|e]] eqn:Hins; simpl in E4.
  2:{ rewrite (bind_Raise _ _ _ _ _ Hins) in HR. inversion HR; subst.
      split; [|done]. apply (ext_weaken (length h)); [lia|done]. }
  rewrite (bind_Ok _ _ _ _ _ Hins) in HR.
  assert (ext (S self) h3 h4) as E4' by (apply (ext_weaken (length h)); [lia|done]).
  assert (h4 !! self = Some cell) as H4.
  { rewrite (ext_lookup _ self _ _ E4') by lia. done. }
  rewrite bind_deref, H4 in HR.
  assert (forall (step : loc -> loc -> Qc -> M Heap unit) rest,
            appends_or_fails ins step ->
            bind (Function.integral_loop step self 1 rest)
              (fun _ => Function.the_integral self) h4 = (hf, res) ->
            ext (S self) h3 hf /\ forall r, res = Ok r -> r = length h) as Hloop.
  { intros step rest Hstep Hrun.
    pose proof (integral_loop_ext step self Hstep rest 1%Z h4 (ext_wf _ _ _ E4)) as E5.
    destruct (Function.integral_loop step self 1 rest h4) as [h5 [[]|e]] eqn:Hl;
      simpl in E5.
    - rewrite (bind_Ok _ _ _ _ _ Hl) in Hrun. rewrite the_integral_eq in Hrun.
      assert (ext (S self) h3 h5) as E5' by by apply (ext_trans _ _ h4).
      assert (h5 !! self = Some cell) as H5.
      { rewrite (ext_lookup _ self _ _ E5') by lia. done. }
      rewrite H5 in Hrun. simpl in Hrun. inversion Hrun; subst.
      split; [done|]. by intros r [= <-].
    - rewrite (bind_Raise _ _ _ _ _ Hl) in Hrun. inversion Hrun; subst.
      split; [|done]. by apply (ext_trans _ _ h4). }
  destruct method as [[| |]|]; simpl in HR.
  - exact (Hloop (Function._integrate_euler_with ins) _ (euler_appends_or_fails ins) HR).
  - exact (Hloop (fun f d dx => Function._integrate_trapezoidal_with ins f d dx 1) _
             (trapezoidal_appends_or_fails ins 1) HR).
  - exact (Hloop (Function._integrate_rk4_with ins) _ (rk4_appends_or_fails ins) HR).
  - rewrite bind_ret, the_integral_eq, H4 in HR. simpl in HR. inversion HR; subst.
    split; [done|]. by intros r [= <-].
Qed.

End frames.

(** ** [insert] *)

Lemma search_best_index_points (self : Function.t) (x : Qc) :
  Function.search_best_index self x 0 (len (Function.__points self))
  = Function.search_best_index (Function.mk (Function.__points self) None None) x 0
      (len (Function.__points self)).
Proof. unfold Function.search_best_index. by apply search_best_index_rec_points. Qed.

Lemma inserted_eq (self : Function.t) (x y : Qc) :
  exists i, Function.search_best_index self x 0 (len (Function.__points self)) = Ok (Z.of_nat i)
            /\ (i <= length (Function.__points self))%nat
            /\ inserted (Function.__points self) x y
               = take i (Function.__points self) ++ (x, y) :: drop i (Function.__points self).
Proof.
  destruct (search_best_index_total self x) as (i & Hi & Hr).
  exists i. split; [done|]. split; [done|].
  unfold inserted. rewrite <- search_best_index_points, Hi.
  by apply py_insert_nat.
Qed.

Section insert_frames.

Variable ins : loc -> Qc -> Qc -> bool -> M Heap unit.
Hypothesis ins_frames : ins_ok ins.

(** [insert] changes no object older than [self]; unless the duplicate
    check raises, [self] ends with the new point among its points,
    whatever happens to the cached integrals afterwards. *)
Lemma insert_with_effect (self : nat) (x y : Qc) (check : bool) (h : Heap) :
  wf h ->
  ext self h (fst (Function.insert_with ins self x y check h))
  /\ forall o, h !! self = Some o ->
       check && bool_decide (x ∈ fst <$> Function.__points o) = false ->
       exists o', fst (Function.insert_with ins self x y check h) !! self = Some o'
                  /\ Function.__points o' = inserted (Function.__points o) x y.
Proof.
  intros Hwf.
  destruct (h !! self) as [o|] eqn:Ho.
  2:{ unfold Function.insert_with. rewrite bind_deref, Ho. simpl.
      split; [by apply ext_refl|done]. }
  destruct (check && bool_decide (x ∈ fst <$> Function.__points o)) eqn:Hcheck.
  { unfold Function.insert_with. rewrite bind_deref, Ho, Hcheck. simpl.
    split; [by apply ext_refl|]. intros o0 [= <-] Hc. congruence. }
  destruct (inserted_eq o x y) as (i & Hi & Hr & Hins).
  set (pts' := inserted (Function.__points o) x y).
  set (h1 := fst (Function.set_points self pts' h)).
  set (cell := Function.mk pts' (Function.__integral o) (Function.__integration_method o)).
  assert (ext self h h1) as E1 by by apply set_points_ext.
  assert (h1 !! self = Some cell) as H1.
  { unfold h1. simpl. by rewrite list_lookup_alter_eq, Ho. }
  pose proof (ext_wf _ _ _ E1) as Hwf1.
  destruct (Function.insert_with ins self x y check h) as [hf res] eqn:HR. simpl.
  enough (ext self h1 hf /\ exists o', hf !! self = Some o' /\ Function.__points o' = pts')
    as [Ef Hp].
  { split; [by apply (ext_trans _ _ h1)|]. by intros o0 [= <-] _. }
  unfold Function.insert_with in HR. rewrite bind_deref, Ho, Hcheck in HR.
  rewrite bind_lift, Hi in HR. unfold bind at 1 in HR.
  replace (Function.set_points self (py_insert (Function.__points o) (Z.of_nat i) (x, y)) h)
    with (h1, @Ok unit tt) in HR.
  2:{ unfold h1, pts', inserted. by rewrite <- search_best_index_points, Hi. }
  rewrite bind_deref, H1 in HR. simpl in HR.
  destruct (Function.__integral o) as [g|] eqn:Hg.
  2:{ inversion HR; subst. split; [by apply ext_refl|]. by exists cell. }
  destruct (Z.of_nat i =? len pts' - 1)%Z.
  - pose proof (update_integral_ext ins ins_frames self h1 Hwf1) as E2.
    rewrite HR in E2. simpl in E2.
    split; [apply (ext_weaken (S self)); [lia|done]|].
    exists cell. split; [|done]. rewrite (ext_lookup _ self _ _ E2) by lia. done.
  - rewrite bind_deref in HR. destruct (h1 !! g) as [go|].
    2:{ inversion HR; subst. split; [by apply ext_refl|by exists cell]. }
    rewrite bind_lift in HR.
    destruct (py_getitem (Function.__points go) 0) as [p0|e].
    2:{ inversion HR; subst. split; [by apply ext_refl|by exists cell]. }
    destruct (integral_ext ins ins_frames self (Function.__integration_method go)
                (fst p0) (snd p0) h1 cell Hwf1 H1) as (E2 & H2 & Hret).
    destruct (Function.integral_with ins self (Function.__integration_method go)
                (fst p0) (snd p0) h1) as [h2 [r|e]] eqn:Hint; simpl in E2, H2, Hret.
    + rewrite (bind_Ok _ _ _ _ _ Hint) in HR. simpl in HR. inversion HR; subst.
      rewrite (Hret r eq_refl) in *.
      pose proof (ext_wf _ _ _ E2 self _ _ H2 eq_refl) as Hlt.
      split.
      * apply (ext_trans _ _ h2); [done|].
        apply (set_integral_ext self (length h1)); [by apply (ext_wf self h1)|done].
      * rewrite list_lookup_alter_eq, H2. simpl. by eexists.
    + rewrite (bind_Raise _ _ _ _ _ Hint) in HR. inversion HR; subst.
      split; [done|]. by eexists.
Qed.

Lemma insert_with_ok : ins_ok (Function.insert_with ins).
Proof. intros f x y c h Hwf. by apply insert_with_effect. Qed.

End insert_frames.

Lemma insert_rec_ok (n : nat) : ins_ok (Function.insert_rec n).
Proof.
  induction n as [|n IH]; simpl.
  - intros f x y c h Hwf. by apply ext_refl.
  - by apply insert_with_ok.
Qed.

Lemma insert_ok : ins_ok Function.insert.
Proof. intros f x y c h Hwf. unfold Function.insert. by apply insert_rec_ok. Qed.

(** The effect of [insert] on the points of [self]. *)
Lemma insert_effect (self : nat) (x y : Qc) (check : bool) (h : Heap) (o : Function.t) :
  wf h -> h !! self = Some o ->
  check && bool_decide (x ∈ fst <$> Function.__points o) = false ->
  ext self h (fst (Function.insert self x y check h))
  /\ exists o', fst (Function.insert self x y check h) !! self = Some o'
                /\ Function.__points o' = inserted (Function.__points o) x y.
Proof.
  intros Hwf Ho Hcheck. unfold Function.insert. simpl.
  destruct (insert_with_effect (Function.insert_rec (length h)) (insert_rec_ok _)
              self x y check h Hwf) as [E Hp].
  split; [done|]. by apply Hp.
Qed.

(** ** Insertion keeps the points in order *)

Lemma insert_sorted (R : relation Qc) (xs : list Qc) (i : nat) (x : Qc) :
  StronglySorted R xs ->
  (forall j a, (j < i)%nat -> xs !! j = Some a -> R a x) ->
  (forall j a, (i <= j)%nat -> xs !! j = Some a -> R x a) ->
  StronglySorted R (take i xs ++ x :: drop i xs).
Proof.
  intros Hs Hl Hg. rewrite <- (take_drop i xs) in Hs.
  apply StronglySorted_app in Hs as (Htd & Ht & Hd).
  apply StronglySorted_app_2; [|done|].
  - intros a b Ha Hb. apply elem_of_cons in Hb as [->|Hb]; [|by apply Htd].
    apply list_elem_of_lookup in Ha as [j Hj].
    apply lookup_take_Some in Hj as [Hj Hlt]. by apply (Hl j).
  - constructor; [done|]. apply Forall_forall. intros b Hb.
    apply list_elem_of_lookup in Hb as [j Hj]. rewrite lookup_drop in Hj.
    apply (Hg (i + j)%nat); [lia|done].
Qed.

Lemma found_or_gap_le (pts : list point) (x : Qc) (i : nat) :
  nondecreasing pts -> found_or_gap pts x 0 (length pts) i ->
  (forall j p, (j < i)%nat -> pts !! j = Some p -> fst p <= x)
  /\ (forall j p, (i <= j)%nat -> pts !! j = Some p -> x <= fst p).
Proof.
  intros Hs [Hr [(Hlt & p & Hp & Hpx)|[Hl Hg]]]; split; intros j r Hj Hjr.
  - rewrite <- Hpx. apply (nondecreasing_lookup pts j i); [done|lia|done..].
  - rewrite <- Hpx. apply (nondecreasing_lookup pts i j); [done|lia|done..].
  - apply Qclt_le_weak. apply (Hl j); [lia|done].
  - apply Qclt_le_weak. apply (Hg j); [|done].
    pose proof (lookup_lt_Some _ _ _ Hjr). lia.
Qed.

Lemma found_or_gap_lt (pts : list point) (x : Qc) (i : nat) :
  x ∉ fst <$> pts -> found_or_gap pts x 0 (length pts) i ->
  (forall j p, (j < i)%nat -> pts !! j = Some p -> fst p < x)
  /\ (forall j p, (i <= j)%nat -> pts !! j = Some p -> x < fst p).
Proof.
  intros Hx [Hr [(Hlt & p & Hp & Hpx)|[Hl Hg]]].
  - exfalso. apply Hx. rewrite <- Hpx. apply list_elem_of_fmap_2.
    by eapply list_elem_of_lookup_2.
  - split; intros j r Hj Hjr.
    + apply (Hl j); [lia|done].
    + apply (Hg j); [|done]. pose proof (lookup_lt_Some _ _ _ Hjr). lia.
Qed.

Lemma inserted_spec (pts : list point) (x y : Qc) :
  nondecreasing pts ->
  exists i, (i <= length pts)%nat
            /\ inserted pts x y = take i pts ++ (x, y) :: drop i pts
            /\ found_or_gap pts x 0 (length pts) i.
Proof.
  intros Hs.
  destruct (search_best_index_spec (Function.mk pts None None) x Hs) as (i & Hi & Hgap).
  simpl in Hi, Hgap. exists i. destruct Hgap as [Hr Hcase].
  split; [lia|]. split; [|by split].
  unfold inserted. rewrite Hi. apply py_insert_nat. lia.
Qed.

Lemma inserted_nondecreasing (pts : list point) (x y : Qc) :
  nondecreasing pts -> nondecreasing (inserted pts x y).
Proof.
  intros Hs. destruct (inserted_spec pts x y Hs) as (i & Hi & -> & Hgap).
  destruct (found_or_gap_le pts x i Hs Hgap) as [Hl Hg].
  unfold nondecreasing. rewrite fmap_app, fmap_cons, fmap_take, fmap_drop. simpl.
  apply insert_sorted; [done|..]; intros j a Hj Ha;
    rewrite list_lookup_fmap in Ha; destruct (pts !! j) as [p|] eqn:Hp; simpl in Ha; try done;
    inversion Ha; subst a.
  - by apply (Hl j).
  - by apply (Hg j).
Qed.

Lemma inserted_increasing (pts : list point) (x y : Qc) :
  increasing pts -> x ∉ fst <$> pts -> increasing (inserted pts x y).
Proof.
  intros Hs Hx.
  destruct (inserted_spec pts x y (increasing_nondecreasing _ Hs)) as (i & Hi & -> & Hgap).
  destruct (found_or_gap_lt pts x i Hx Hgap) as [Hl Hg].
  unfold increasing. rewrite fmap_app, fmap_cons, fmap_take, fmap_drop. simpl.
  apply insert_sorted; [done|..]; intros j a Hj Ha;
    rewrite list_lookup_fmap in Ha; destruct (pts !! j) as [p|] eqn:Hp; simpl in Ha; try done;
    inversion Ha; subst a.
  - by apply (Hl j).
  - by apply (Hg j).
Qed.

Lemma inserted_Permutation (pts : list point) (x y : Qc) :
  inserted pts x y ≡ₚ (x, y) :: pts.
Proof.
  destruct (inserted_eq (Function.mk pts None None) x y) as (i & _ & _ & Heq).
  simpl in Heq. rewrite Heq, <- Permutation_middle. by rewrite take_drop.
Qed.

(** [insert] on a function without a cached integral only stores the point. *)
Lemma insert_with_no_integral (ins : loc -> Qc -> Qc -> bool -> M Heap unit)
  (l : nat) (x y : Qc) (h : Heap) (o : Function.t) :
  h !! l = Some o -> Function.__integral o = None ->
  Function.insert_with ins l x y false h
  = (alter (fun o => Function.mk (inserted (Function.__points o) x y) (Function.__integral o)
                       (Function.__integration_method o)) l h, Ok tt).
Proof.
  intros Ho Hg. destruct (inserted_eq o x y) as (i & Hi & Hr & Hins).
  unfold Function.insert_with. rewrite bind_deref, Ho. simpl.
  rewrite bind_lift, Hi. unfold bind at 1. unfold Function.set_points at 1.
  rewrite bind_deref, list_lookup_alter_eq, Ho. simpl. rewrite Hg. unfold ret. f_equal.
  apply list_alter_ext; [|done..]. intros o0 Ho0. rewrite Ho in Ho0. inversion Ho0; subst o0.
  f_equal. unfold inserted. by rewrite <- search_best_index_points, Hi.
Qed.

Lemma insert_no_integral (l : nat) (x y : Qc) (h : Heap) (o : Function.t) :
  h !! l = Some o -> Function.__integral o = None ->
  Function.insert l x y false h
  = (alter (fun o => Function.mk (inserted (Function.__points o) x y) (Function.__integral o)
                       (Function.__integration_method o)) l h, Ok tt).
Proof.
  intros Ho Hg. unfold Function.insert. simpl. by apply (insert_with_no_integral _ l x y h o).
Qed.

Lemma lookup_app_last {A : Type} (l : list A) (a : A) (n : nat) :
  length l = n -> (l ++ [a]) !! n = Some a.
Proof. intros <-. by rewrite lookup_app_r, Nat.sub_diag by lia. Qed.

Lemma alter_last {A : Type} (f : A -> A) (l : list A) (a : A) :
  alter f (length l) (l ++ [a]) = l ++ [f a].
Proof.
  apply list_eq. intros i. destruct (decide (i = length l)) as [->|Hne].
  - rewrite list_lookup_alter_eq, !lookup_app_r, Nat.sub_diag by lia. done.
  - rewrite list_lookup_alter_ne by done.
    destruct (decide (i < length l)%nat).
    + by rewrite !lookup_app_l by done.
    + rewrite !lookup_app_r by lia. by destruct (i - length l)%nat as [|[|?]] eqn:?; [lia|..].
Qed.

Lemma from_iter_loop_eq (iterable : list point) (h : Heap) (pts : list point)
  (m : option IntegrationMethod) :
  Function.from_iter_loop (length h) iterable (h ++ [Function.mk pts None m])
  = (h ++ [Function.mk (insert_all pts iterable) None m], Ok tt).
Proof.
  revert pts. induction iterable as [|p iterable IH]; intros pts; simpl; [done|].
  rewrite (bind_Ok _ _ _ (h ++ [Function.mk (inserted pts (fst p) (snd p)) None m]) tt).
  - apply IH.
  - rewrite (insert_no_integral _ _ _ _ (Function.mk pts None m)).
    + by rewrite alter_last.
    + by rewrite lookup_app_r, Nat.sub_diag by lia.
    + done.
Qed.

Lemma from_iter_eq (iterable : list point) (h : Heap) :
  Function.from_iter iterable h
  = (h ++ [Function.mk (insert_all [] iterable) None None], Ok (length h)).
Proof.
  unfold Function.from_iter. unfold bind at 1. unfold Function.new at 1.
  by rewrite (bind_Ok _ _ _ _ _ (from_iter_loop_eq iterable h [] None)).
Qed.

Lemma insert_all_sorted (iterable pts : list point) :
  nondecreasing pts ->
  nondecreasing (insert_all pts iterable)
  /\ insert_all pts iterable ≡ₚ pts ++ iterable
  /\ (increasing pts -> NoDup (fst <$> (pts ++ iterable)) ->
      increasing (insert_all pts iterable)).
Proof.
  revert pts. induction iterable as [|p iterable IH]; intros pts Hs; simpl.
  { rewrite app_nil_r. done. }
  destruct (IH (inserted pts (fst p) (snd p)) (inserted_nondecreasing _ _ _ Hs))
    as (IH1 & IH2 & IH3).
  split; [done|]. split.
  - rewrite IH2, inserted_Permutation. destruct p as [x y]. simpl.
    by rewrite Permutation_middle.
  - intros Hinc Hnd. apply IH3.
    + apply inserted_increasing; [done|].
      rewrite fmap_app, fmap_cons in Hnd. apply NoDup_app in Hnd as (_ & Hnd & _).
      intros Hin. apply (Hnd _ Hin). by left.
    + rewrite inserted_Permutation. destruct p as [x y]. simpl.
      by rewrite <- Permutation_middle in Hnd.
Qed.

(** C2. Every [insert(x, y)] places the new point (and nothing else) among
    the stored points at a position that keeps them ordered by x: stored
    points that never decrease in x still never decrease, and stored points
    that increase strictly still increase strictly when x is not stored yet.
    Hence [from_iter] returns a new function that holds exactly the given
    points, ordered by x whatever the order of the input, and strictly so
    when the given x-values are distinct. *)
Theorem insert_keeps_points_ordered :
  (forall (h : Heap) (self : nat) (o : Function.t) (x y : Qc) (check : bool),
     wf h -> h !! self = Some o ->
     check && bool_decide (x ∈ fst <$> Function.__points o) = false ->
     nondecreasing (Function.__points o) ->
     exists o', fst (Function.insert self x y check h) !! self = Some o'
                /\ Function.__points o' ≡ₚ (x, y) :: Function.__points o
                /\ nondecreasing (Function.__points o')
                /\ (increasing (Function.__points o) -> x ∉ fst <$> Function.__points o ->
                    increasing (Function.__points o')))
  /\ (forall (iterable : list point) (h : Heap),
        exists o, snd (Function.from_iter iterable h) = Ok (length h)
                  /\ fst (Function.from_iter iterable h) !! length h = Some o
                  /\ Function.__points o ≡ₚ iterable
                  /\ nondecreasing (Function.__points o)
                  /\ (NoDup (fst <$> iterable) -> increasing (Function.__points o))).
Proof.
  split.
  - intros h self o x y check Hwf Ho Hcheck Hs.
    destruct (insert_effect self x y check h o Hwf Ho Hcheck) as (_ & o' & Ho' & Hp).
    exists o'. split; [done|]. rewrite Hp. split; [apply inserted_Permutation|].
    split; [by apply inserted_nondecreasing|]. intros. by apply inserted_increasing.
  - intros iterable h. rewrite from_iter_eq. simpl.
    exists (Function.mk (insert_all [] iterable) None None).
    split; [done|]. split; [by rewrite lookup_app_r, Nat.sub_diag by lia|]. simpl.
    destruct (insert_all_sorted iterable []) as (H1 & H2 & H3); [constructor|].
    split; [done|]. split; [done|]. intros Hnd. apply H3; [constructor|done].
Qed.

Lemma insert_keeps_points_ordered_witness :
  exists o', fst (Function.insert 0 (num 1 1) (num 2 1) false
                    [Function.mk [(num 0 1, num 0 1); (num 2 1, num 4 1)] None None]) !! 0%nat
             = Some o'
             /\ Function.__points o'
                ≡ₚ (num 1 1, num 2 1) :: [(num 0 1, num 0 1); (num 2 1, num 4 1)]
             /\ nondecreasing (Function.__points o')
             /\ (increasing [(num 0 1, num 0 1); (num 2 1, num 4 1)] ->
                 num 1 1 ∉ fst <$> [(num 0 1, num 0 1); (num 2 1, num 4 1)] ->
                 increasing (Function.__points o')).
Proof.
  apply (proj1 insert_keeps_points_ordered
           [Function.mk [(num 0 1, num 0 1); (num 2 1, num 4 1)] None None] 0%nat
           (Function.mk [(num 0 1, num 0 1); (num 2 1, num 4 1)] None None)).
  - apply wfb_wf. reflexivity.
  - reflexivity.
  - reflexivity.
  - apply (bool_decide_unpack _). vm_compute. exact I.
Defined.

(** ** The trapezoidal step *)

Lemma inserted_at_end (pts : list point) (x y : Qc) :
  nondecreasing pts -> (forall p, p ∈ pts -> fst p < x) ->
  inserted pts x y = pts ++ [(x, y)].
Proof.
  intros Hs Hlt. destruct (inserted_spec pts x y Hs) as (i & Hi & -> & Hr & Hcase).
  assert (i = length pts) as ->.
  { destruct (decide (i = length pts)) as [|Hne]; [done|]. exfalso.
    destruct (lookup_lt_is_Some_2 pts i) as [p Hp]; [lia|].
    pose proof (Hlt p (list_elem_of_lookup_2 _ _ _ Hp)) as Hpx.
    destruct Hcase as [(_ & r & Hr1 & Hr2)|[_ Hg]].
    - rewrite Hp in Hr1. inversion Hr1; subst r. rewrite Hr2 in Hpx.
      by apply Qclt_not_eq in Hpx.
    - specialize (Hg i p ltac:(lia) Hp). apply (Qclt_not_le _ _ Hg). by apply Qclt_le_weak. }
  by rewrite take_ge, drop_ge by lia.
Qed.

Lemma below_last_plus (pts : list point) (last : point) (dx : Qc) :
  nondecreasing pts -> pts !! (length pts - 1)%nat = Some last -> 0 < dx ->
  forall p, p ∈ pts -> fst p < fst last + dx.
Proof.
  intros Hs Hlast Hdx p Hp. apply list_elem_of_lookup in Hp as [j Hj].
  pose proof (lookup_lt_Some _ _ _ Hj).
  apply Qcle_lt_trans with (fst last + 0).
  - rewrite Qcplus_0_r. apply (nondecreasing_lookup pts j (length pts - 1)); [done|lia|done..].
  - by apply Qcplus_lt_mono_l.
Qed.

Lemma num_1 : num 1 1 = 1.
Proof. by apply Qc_is_canon. Qed.

Lemma append_with_eq (ins : loc -> Qc -> Qc -> bool -> M Heap unit) (f : nat) (dx dy : Qc)
  (h : Heap) (fo : Function.t) (last : point) :
  h !! f = Some fo -> Function.__points fo !! (length (Function.__points fo) - 1)%nat = Some last ->
  Function.append_with ins f dx dy h = ins f (fst last + dx) (snd last + dy) false h.
Proof.
  intros Hf Hlast. unfold Function.append_with.
  by rewrite bind_deref, Hf, bind_lift, (py_getitem_m1 _ _ Hlast).
Qed.

Lemma trapezoidal_eq (ins : loc -> Qc -> Qc -> bool -> M Heap unit) (f d : nat) (dx : Qc)
  (h : Heap) (od : Function.t) (last : point) (v1 v2 : Qc) :
  h !! d = Some od ->
  Function.__points od !! (length (Function.__points od) - 1)%nat = Some last ->
  Function.__call__ od (fst last - dx) = Ok v1 ->
  Function.__call__ od (fst last) = Ok v2 ->
  Function._integrate_trapezoidal_with ins f d dx 1 h
  = Function.append_with ins f dx (dx / 2 * (v1 + v2)) h.
Proof.
  intros Hd Hlast Hv1 Hv2. unfold Function._integrate_trapezoidal_with.
  change (num (Z.of_nat 1) 1) with (num 1 1). rewrite num_1.
  unfold py_div. destruct (decide (1 = 0)) as [H|_]; [done|].
  replace (dx / 1) with dx by (by field).
  rewrite bind_lift. cbv iota. rewrite bind_deref, Hd, bind_lift.
  unfold Function.seek. rewrite (py_getitem_m1 _ _ Hlast).
  cbn [Function.trapezoids fst].
  rewrite (bind_Ok _ _ _ h (0 + dx / 2 * (v1 + v2))); [by rewrite Qcplus_0_l|].
  rewrite bind_deref, Hd, bind_lift, Hv1, bind_lift, Hv2. done.
Qed.

(** C3. One trapezoidal step (a single sub-interval) with integral [f],
    derivative [d] and step [dx] adds exactly one point to [f]: its x is the
    last stored x of [f] plus [dx], and its y is the last stored y of [f]
    plus [dx/2 * (d(x_last - dx) + d(x_last))], where [x_last] is the
    rightmost stored x of the derivative [d]: the derivative is evaluated one
    step-width behind its own right edge.  The point is placed by [insert];
    it becomes the last point of [f] when [dx] is positive and the x-values
    of [f] increase.  Both functions hold a point; the two evaluations of [d]
    succeed whenever the x-values of [d] increase. *)
Theorem trapezoidal_step_appends (h : Heap) (f d : nat) (dx : Qc) (od fo : Function.t)
  (x_last y_last x_f y_f : Qc) :
  wf h -> h !! d = Some od -> h !! f = Some fo ->
  Function.__points od !! (length (Function.__points od) - 1)%nat = Some (x_last, y_last) ->
  Function.__points fo !! (length (Function.__points fo) - 1)%nat = Some (x_f, y_f) ->
  (increasing (Function.__points od) ->
   exists v1 v2, Function.__call__ od (x_last - dx) = Ok v1
                 /\ Function.__call__ od x_last = Ok v2)
  /\ forall v1 v2,
       Function.__call__ od (x_last - dx) = Ok v1 ->
       Function.__call__ od x_last = Ok v2 ->
       exists fo',
         fst (Function._integrate_trapezoidal f d dx 1 h) !! f = Some fo'
         /\ Function.__points fo'
            = inserted (Function.__points fo) (x_f + dx) (y_f + dx / 2 * (v1 + v2))
         /\ Function.__points fo'
            ≡ₚ (x_f + dx, y_f + dx / 2 * (v1 + v2)) :: Function.__points fo
         /\ (increasing (Function.__points fo) -> 0 < dx ->
             Function.__points fo'
             = Function.__points fo ++ [(x_f + dx, y_f + dx / 2 * (v1 + v2))]).
Proof.
  intros Hwf Hd Hf Hlast Hflast. split.
  { intros Hinc.
    assert (Function.__points od <> []) as Hne.
    { intros Hnil. by rewrite Hnil in Hlast. }
    destruct (call_succeeds od (x_last - dx) Hinc Hne) as [v1 Hv1].
    destruct (call_succeeds od x_last Hinc Hne) as [v2 Hv2].
    by exists v1, v2. }
  intros v1 v2 Hv1 Hv2. unfold Function._integrate_trapezoidal.
  rewrite (trapezoidal_eq _ f d dx h od (x_last, y_last) v1 v2 Hd Hlast Hv1 Hv2).
  rewrite (append_with_eq _ f dx _ h fo (x_f, y_f) Hf Hflast). simpl.
  destruct (insert_effect f (x_f + dx) (y_f + dx / 2 * (v1 + v2)) false h fo Hwf Hf eq_refl)
    as (_ & fo' & Hfo' & Hp).
  exists fo'. split; [done|]. split; [done|]. rewrite Hp.
  split; [apply inserted_Permutation|].
  intros Hinc Hdx. apply inserted_at_end; [by apply increasing_nondecreasing|].
  apply (below_last_plus _ (x_f, y_f)); [by apply increasing_nondecreasing|done..].
Qed.

Lemma trapezoidal_step_appends_witness :
  exists fo',
    fst (Function._integrate_trapezoidal 1 0 (num 1 1) 1
           [Function.mk [(num 0 1, num 1 1); (num 1 1, num 3 1)] (Some 1%nat) None;
            Function.mk [(num 0 1, num 0 1)] None (Some TRAPEZOIDAL)]) !! 1%nat = Some fo'
    /\ Function.__points fo'
       = inserted [(num 0 1, num 0 1)] (num 0 1 + num 1 1)
           (num 0 1 + num 1 1 / 2 * (num 1 1 + num 3 1))
    /\ Function.__points fo'
       ≡ₚ (num 0 1 + num 1 1, num 0 1 + num 1 1 / 2 * (num 1 1 + num 3 1))
          :: [(num 0 1, num 0 1)]
    /\ (increasing [(num 0 1, num 0 1)] -> 0 < num 1 1 ->
        Function.__points fo'
        = [(num 0 1, num 0 1)]
          ++ [(num 0 1 + num 1 1, num 0 1 + num 1 1 / 2 * (num 1 1 + num 3 1))]).
Proof.
  pose proof (proj2 (trapezoidal_step_appends
           [Function.mk [(num 0 1, num 1 1); (num 1 1, num 3 1)] (Some 1%nat) None;
            Function.mk [(num 0 1, num 0 1)] None (Some TRAPEZOIDAL)]
           1%nat 0%nat (num 1 1)
           (Function.mk [(num 0 1, num 1 1); (num 1 1, num 3 1)] (Some 1%nat) None)
           (Function.mk [(num 0 1, num 0 1)] None (Some TRAPEZOIDAL))
           (num 1 1) (num 3 1) (num 0 1) (num 0 1)
           ltac:(apply wfb_wf; reflexivity) eq_refl eq_refl eq_refl eq_refl)
           (num 1 1) (num 3 1)) as H.
  apply H.
  - apply (bool_decide_unpack _). vm_compute. exact I.
  - apply (bool_decide_unpack _). vm_compute. exact I.
Defined.

(** ** What the schemes compute *)

Lemma step_with_appends_or_fails (ins : loc -> Qc -> Qc -> bool -> M Heap unit)
  (m : IntegrationMethod) : appends_or_fails ins (step_with ins m).
Proof.
  destruct m; simpl.
  - apply euler_appends_or_fails.
  - apply trapezoidal_appends_or_fails.
  - apply rk4_appends_or_fails.
Qed.

Lemma append_with_run (ins : loc -> Qc -> Qc -> bool -> M Heap unit) (f : nat) (dx dy : Qc)
  (h : Heap) (fo : Function.t) :
  h !! f = Some fo ->
  Function.append_with ins f dx dy h
  = match py_getitem (Function.__points fo) (-1) with
    | Ok last => ins f (fst last + dx) (snd last + dy) false h
    | Raise e => (h, Raise e)
    end.
Proof.
  intros Hf. unfold Function.append_with. by rewrite bind_deref, Hf, bind_lift.
Qed.

Lemma step_with_run (ins : loc -> Qc -> Qc -> bool -> M Heap unit) (m : IntegrationMethod)
  (f d : nat) (dx : Qc) (h : Heap) (fo od : Function.t) :
  h !! f = Some fo -> h !! d = Some od ->
  step_with ins m f d dx h
  = match sample m od (Function.__points fo) dx with
    | Ok p => ins f (fst p) (snd p) false h
    | Raise e => (h, Raise e)
    end.
Proof.
  intros Hf Hd. destruct m; simpl.
  - unfold Function._integrate_euler_with.
    rewrite bind_deref, Hf, bind_lift. unfold Function.seek.
    destruct (py_getitem (Function.__points fo) (-1)) as [p|e] eqn:Hp; simpl; [|done].
    rewrite bind_deref, Hd, bind_lift.
    destruct (Function.__call__ od (fst p)) as [v|e]; simpl; [|done].
    by rewrite (append_with_run _ _ _ _ _ fo Hf), Hp.
  - unfold Function._integrate_trapezoidal_with.
    change (num (Z.of_nat 1) 1) with (num 1 1). rewrite num_1.
    unfold py_div. destruct (decide (1 = 0)) as [H|_]; [done|].
    replace (dx / 1) with dx by (by field).
    rewrite bind_lift. cbv iota. rewrite bind_deref, Hd, bind_lift.
    destruct (Function.seek od (-1)) as [p|e]; cbn [rbind]; [|done].
    assert (Function.trapezoids d dx 1 (fst p) 0 h
            = (h, l <-? Function.__call__ od (fst p - dx);
                  r <-? Function.__call__ od (fst p);
                  Ok (dx / 2 * (l + r)))) as Ht.
    { cbn [Function.trapezoids]. rewrite bind_deref, Hd, bind_lift.
      destruct (Function.__call__ od (fst p - dx)) as [l|e]; cbn [rbind]; [|done].
      rewrite bind_lift. destruct (Function.__call__ od (fst p)) as [r|e]; cbn [rbind]; [|done].
      unfold ret. by rewrite Qcplus_0_l. }
    destruct (Function.__call__ od (fst p - dx)) as [l|e]; cbn [rbind] in *;
      [|by rewrite (bind_Raise _ _ _ _ _ Ht)].
    destruct (Function.__call__ od (fst p)) as [r|e]; cbn [rbind] in *;
      [|by rewrite (bind_Raise _ _ _ _ _ Ht)].
    rewrite (bind_Ok _ _ _ _ _ Ht), (append_with_run _ _ _ _ _ fo Hf).
    by destruct (py_getitem (Function.__points fo) (-1)).
  - unfold Function._integrate_rk4_with.
    rewrite bind_deref, Hd, bind_lift.
    destruct (Function.seek od (-1)) as [p|e]; simpl; [|done].
    rewrite bind_lift. destruct (Function.__call__ od (fst p)) as [k1|e]; simpl; [|done].
    rewrite bind_lift.
    destruct (Function.__call__ od (fst p + dx / 2)) as [k2|e]; simpl; [|done].
    rewrite bind_lift. destruct (Function.__call__ od (fst p + dx)) as [k4|e]; simpl; [|done].
    rewrite (append_with_run _ _ _ _ _ fo Hf).
    by destruct (py_getitem (Function.__points fo) (-1)).
Qed.

(** Both read the points of the derivative only. *)
Lemma sample_points (m : IntegrationMethod) (d d' : Function.t) (fpts : list point) (dx : Qc) :
  Function.__points d = Function.__points d' -> sample m d fpts dx = sample m d' fpts dx.
Proof.
  intros Hp. unfold sample, Function.seek. rewrite Hp.
  destruct m.
  - destruct (py_getitem fpts (-1)) as [p|]; [|done]. simpl.
    by rewrite (call_points d d' _ Hp).
  - destruct (py_getitem (Function.__points d') (-1)) as [p|]; [|done]. simpl.
    by rewrite !(call_points d d' _ Hp).
  - destruct (py_getitem (Function.__points d') (-1)) as [p|]; [|done]. simpl.
    by rewrite !(call_points d d' _ Hp).
Qed.

Lemma integral_points_loop_points (m : IntegrationMethod) (d d' : Function.t) (i : Z)
  (rest ipts : list point) :
  Function.__points d = Function.__points d' ->
  integral_points_loop m d i rest ipts = integral_points_loop m d' i rest ipts.
Proof.
  intros Hp. revert i ipts. induction rest as [|p rest IH]; intros i ipts; simpl; [done|].
  rewrite Hp. destruct (py_getitem _ _) as [prev|e]; [|done].
  rewrite (sample_points m d d' _ _ Hp). destruct (sample _ _ _ _); [|done]. apply IH.
Qed.

Lemma insert_rec_simple (n : nat) : ins_simple (Function.insert_rec (S n)).
Proof. intros l x y h o Ho Hg. simpl. by apply (insert_with_no_integral _ l x y h o). Qed.

Lemma insert_simple : ins_simple Function.insert.
Proof. intros l x y h o Ho Hg. by apply (insert_no_integral l x y h o). Qed.

Section integral_runs.

Variable ins : loc -> Qc -> Qc -> bool -> M Heap unit.
Hypothesis ins_stores : ins_simple ins.

(** The loop of [integral], run on a store whose last object is the
    integral under construction. *)
Lemma integral_loop_run (m : IntegrationMethod) (self : nat) (o : Function.t)
  (mm : option IntegrationMethod) (h : Heap) :
  h !! self = Some o -> Function.__integral o = Some (length h) ->
  forall rest i ipts,
    Function.integral_loop (step_with ins m) self i rest (h ++ [Function.mk ipts None mm])
    = (h ++ [Function.mk (fst (integral_points_loop m o i rest ipts)) None mm],
       snd (integral_points_loop m o i rest ipts)).
Proof.
  intros Ho Hg. pose proof (lookup_lt_Some _ _ _ Ho) as Hlt.
  induction rest as [|point rest IH]; intros i ipts; simpl; [done|].
  assert (forall c, (h ++ [c]) !! self = Some o) as Hself
    by (intros c; by rewrite lookup_app_l).
  assert (forall c, (h ++ [c]) !! length h = Some c) as Hlast
    by (intros c; by rewrite lookup_app_r, Nat.sub_diag by lia).
  rewrite bind_the_integral, Hself, Hg, bind_deref, Hself, bind_lift.
  destruct (py_getitem (Function.__points o) (i - 1)) as [prev|e]; [|done].
  pose proof (step_with_run ins m (length h) self (fst point - fst prev)
                (h ++ [Function.mk ipts None mm]) (Function.mk ipts None mm) o
                (Hlast _) (Hself _)) as Hstep.
  simpl in Hstep.
  destruct (sample m o ipts (fst point - fst prev)) as [p|e].
  - rewrite (ins_stores (length h) (fst p) (snd p) _ (Function.mk ipts None mm)
               (Hlast _) eq_refl), alter_last in Hstep. simpl in Hstep.
    rewrite (bind_Ok _ _ _ _ _ Hstep). apply IH.
  - by rewrite (bind_Raise _ _ _ _ _ Hstep).
Qed.

(** [integral] puts the new integral at the end of the store, links it to
    [self] and fills it with [integral_points]. *)
Lemma integral_with_run (self : nat) (method : option IntegrationMethod) (x_i y_i : Qc)
  (h : Heap) (o : Function.t) :
  h !! self = Some o ->
  Function.integral_with ins self method x_i y_i h
  = (alter (fun o => Function.mk (Function.__points o) (Some (length h))
                       (Function.__integration_method o)) self h
     ++ [Function.mk (fst (integral_points method o x_i y_i)) None method],
     match snd (integral_points method o x_i y_i) with
     | Ok _ => Ok (length h)
     | Raise e => Raise e
     end).
Proof.
  intros Ho. pose proof (lookup_lt_Some _ _ _ Ho) as Hlt.
  set (cell := Function.mk (Function.__points o) (Some (length h))
                 (Function.__integration_method o)).
  set (h' := alter (fun o => Function.mk (Function.__points o) (Some (length h))
                               (Function.__integration_method o)) self h).
  assert (length h' = length h) as Hlen by apply length_alter.
  assert (h' !! self = Some cell) as Hcell.
  { unfold h'. by rewrite list_lookup_alter_eq, Ho. }
  assert (forall c, (h' ++ [c]) !! self = Some cell) as Hself
    by (intros c; rewrite lookup_app_l; [done|lia]).
  assert (forall c, (h' ++ [c]) !! length h = Some c) as Hlast
    by (intros c; by rewrite <- Hlen, lookup_app_r, Nat.sub_diag by lia).
  unfold Function.integral_with.
  unfold bind at 1. unfold Function.new at 1.
  unfold bind at 1. unfold Function.set_integral at 1.
  replace (alter (fun o => Function.mk (Function.__points o) (Some (length h))
                             (Function.__integration_method o)) self
             (h ++ [Function.__init__]))
    with (h' ++ [Function.__init__]).
  2:{ unfold h'. apply list_eq. intros j. destruct (decide (j = self)) as [->|Hne].
      - by rewrite list_lookup_alter_eq, !lookup_app_l, list_lookup_alter_eq
          by (rewrite ?length_alter; lia).
      - rewrite list_lookup_alter_ne by done.
        destruct (decide (j < length h)%nat).
        + by rewrite !lookup_app_l, list_lookup_alter_ne by (rewrite ?length_alter; done).
        + by rewrite !lookup_app_r, length_alter by (rewrite ?length_alter; lia). }
  rewrite bind_the_integral, Hself. simpl.
  unfold bind at 1. unfold Function.set_integration_method at 1.
  rewrite <- Hlen at 1. rewrite alter_last. simpl.
  rewrite bind_the_integral, Hself. simpl.
  rewrite (bind_Ok _ _ _ (h' ++ [Function.mk [(x_i, y_i)] None method]) tt).
  2:{ rewrite (ins_stores (length h) x_i y_i _ (Function.mk [] None method)
                 (Hlast _) eq_refl). simpl.
      rewrite <- Hlen at 1. by rewrite alter_last. }
  rewrite bind_deref, Hself.
  assert (forall m,
            bind (Function.integral_loop (step_with ins m) self 1
                    (drop 1 (Function.__points o)))
              (fun _ => Function.the_integral self)
              (h' ++ [Function.mk [(x_i, y_i)] None method])
            = (h' ++ [Function.mk (fst (integral_points (Some m) o x_i y_i)) None method],
               match snd (integral_points (Some m) o x_i y_i) with
               | Ok _ => Ok (length h)
               | Raise e => Raise e
               end)) as Hloop.
  { intros m.
    pose proof (integral_loop_run m self cell method h' Hcell
                  ltac:(by rewrite Hlen) (drop 1 (Function.__points o)) 1%Z [(x_i, y_i)])
      as Hrun.
    assert (forall i rest ipts,
              integral_points_loop m cell i rest ipts = integral_points_loop m o i rest ipts)
      as Hsame.
    { intros i rest ipts. by apply integral_points_loop_points. }
    rewrite Hsame in Hrun. simpl.
    destruct (integral_points_loop m o 1 (drop 1 (Function.__points o)) [(x_i, y_i)])
      as [ipts [[]|e]]; simpl in Hrun |- *.
    - rewrite (bind_Ok _ _ _ _ _ Hrun), the_integral_eq, Hself. done.
    - by rewrite (bind_Raise _ _ _ _ _ Hrun). }
  destruct method as [[| |]|]; cbn [Function.__points cell].
  - apply (Hloop EULER).
  - apply (Hloop TRAPEZOIDAL).
  - apply (Hloop RK4).
  - rewrite bind_ret, the_integral_eq, Hself. done.
Qed.

End integral_runs.

(** ** Inserting into a function with a cached integral *)

Lemma integral_points_points (method : option IntegrationMethod) (d d' : Function.t)
  (x_i y_i : Qc) :
  Function.__points d = Function.__points d' ->
  integral_points method d x_i y_i = integral_points method d' x_i y_i.
Proof.
  intros Hp. unfold integral_points. rewrite Hp. destruct method; [|done].
  by apply integral_points_loop_points.
Qed.

(** [integral], run on any store. *)
Lemma integral_run (self : nat) (method : option IntegrationMethod) (x_i y_i : Qc)
  (h : Heap) (o : Function.t) :
  h !! self = Some o ->
  integral_of (fst (Function.integral self method x_i y_i h)) self
  = Some (Function.mk (fst (integral_points method o x_i y_i)) None method)
  /\ snd (Function.integral self method x_i y_i h)
     = match snd (integral_points method o x_i y_i) with
       | Ok _ => Ok (length h)
       | Raise e => Raise e
       end.
Proof.
  intros Ho. pose proof (lookup_lt_Some _ _ _ Ho) as Hlt. unfold Function.integral.
  rewrite (integral_with_run _ insert_simple self method x_i y_i h o Ho). simpl.
  split; [|done]. unfold integral_of.
  rewrite lookup_app_l by (by rewrite length_alter).
  rewrite list_lookup_alter_eq, Ho. simpl.
  apply lookup_app_last, length_alter.
Qed.

(** A non-trailing [insert] into a function with a cached integral. *)
Lemma insert_rebuild_run (h : Heap) (self g : nat) (o go : Function.t) (p0 : point)
  (x y : Qc) (check : bool) (i : nat) :
  wf h -> h !! self = Some o -> Function.__integral o = Some g -> h !! g = Some go ->
  Function.__points go !! 0%nat = Some p0 ->
  check && bool_decide (x ∈ fst <$> Function.__points o) = false ->
  Function.search_best_index o x 0 (len (Function.__points o)) = Ok (Z.of_nat i) ->
  i <> length (Function.__points o) ->
  fst (Function.insert self x y check h) !! self
  = Some (Function.mk (inserted (Function.__points o) x y) (Some (length h))
            (Function.__integration_method o))
  /\ integral_of (fst (Function.insert self x y check h)) self
     = Some (Function.mk
               (fst (integral_points (Function.__integration_method go)
                       (Function.mk (inserted (Function.__points o) x y) None None)
                       (fst p0) (snd p0)))
               None (Function.__integration_method go))
  /\ snd (Function.insert self x y check h)
     = match snd (integral_points (Function.__integration_method go)
                    (Function.mk (inserted (Function.__points o) x y) None None)
                    (fst p0) (snd p0)) with
       | Ok _ => Ok tt
       | Raise e => Raise e
       end.
Proof.
  intros Hwf Ho Hg Hgo Hp0 Hcheck Hi Hne.
  pose proof (lookup_lt_Some _ _ _ Ho) as Hlt.
  pose proof (Hwf self o g Ho Hg) as Hsg.
  set (pts' := inserted (Function.__points o) x y).
  assert (pts' = py_insert (Function.__points o) (Z.of_nat i) (x, y)) as Hpts'.
  { unfold pts', inserted. by rewrite <- search_best_index_points, Hi. }
  set (cell1 := Function.mk pts' (Some g) (Function.__integration_method o)).
  set (h1 := alter (fun o => Function.mk pts' (Function.__integral o)
                               (Function.__integration_method o)) self h).
  assert (h1 !! self = Some cell1) as H1.
  { unfold h1. rewrite list_lookup_alter_eq, Ho. simpl. by rewrite Hg. }
  assert (h1 !! g = Some go) as H1g.
  { unfold h1. rewrite list_lookup_alter_ne by lia. done. }
  assert (length h1 = length h) as Hlen1 by apply length_alter.
  set (ins := Function.insert_rec (length h)).
  assert (ins_simple ins) as Hsimple.
  { unfold ins. destruct (length h) as [|n]; [lia|]. apply insert_rec_simple. }
  pose proof (integral_with_run ins Hsimple self (Function.__integration_method go)
                (fst p0) (snd p0) h1 cell1 H1) as Hrun.
  rewrite (integral_points_points _ cell1 (Function.mk pts' None None)) in Hrun by done.
  rewrite Hlen1 in Hrun.
  set (ip := integral_points (Function.__integration_method go)
               (Function.mk pts' None None) (fst p0) (snd p0)) in *.
  set (F := fun o : Function.t => Function.mk (Function.__points o) (Some (length h))
                                    (Function.__integration_method o)) in *.
  assert (Function.insert self x y check h
          = (match snd ip with
             | Ok _ => alter F self
                         (alter F self h1
                          ++ [Function.mk (fst ip) None (Function.__integration_method go)])
             | Raise _ => alter F self h1
                          ++ [Function.mk (fst ip) None (Function.__integration_method go)]
             end,
             match snd ip with Ok _ => Ok tt | Raise e => Raise e end)) as Heq.
  { unfold Function.insert. cbn [Function.insert_rec]. fold ins.
    unfold Function.insert_with. rewrite bind_deref, Ho, Hcheck, bind_lift, Hi.
    unfold bind at 1. unfold Function.set_points at 1. rewrite <- Hpts'. fold h1.
    rewrite bind_deref, H1. cbn [Function.__integral Function.__points cell1].
    destruct (Z.eqb_spec (Z.of_nat i) (len pts' - 1)) as [Heq|_].
    { exfalso. rewrite Hpts' in Heq. unfold len in Heq. rewrite length_py_insert in Heq.
      pose proof (search_best_index_total o x) as (i' & Hi' & Hr'). rewrite Hi in Hi'.
      inversion Hi'. lia. }
    rewrite bind_deref, H1g, bind_lift, (py_getitem_0 _ _ Hp0).
    destruct (snd ip) eqn:Hip.
    - rewrite (bind_Ok _ _ _ _ _ Hrun). done.
    - by rewrite (bind_Raise _ _ _ _ _ Hrun). }
  rewrite Heq. simpl.
  assert ((alter F self h1 ++ [Function.mk (fst ip) None (Function.__integration_method go)])
            !! self = Some (Function.mk pts' (Some (length h))
                              (Function.__integration_method o))) as Hs1.
  { rewrite lookup_app_l by (rewrite length_alter; lia).
    by rewrite list_lookup_alter_eq, H1. }
  assert ((alter F self h1 ++ [Function.mk (fst ip) None (Function.__integration_method go)])
            !! length h = Some (Function.mk (fst ip) None (Function.__integration_method go)))
    as Hs2.
  { apply lookup_app_last. by rewrite length_alter. }
  unfold integral_of.
  destruct (snd ip).
  - rewrite list_lookup_alter_eq, Hs1. simpl.
    rewrite list_lookup_alter_ne by lia. by rewrite Hs2.
  - rewrite Hs1. simpl. by rewrite Hs2.
Qed.

Lemma last_dx_run (self : nat) (h : Heap) (o : Function.t) (pts : list point) (x y : Qc) :
  h !! self = Some o -> Function.__points o = pts ++ [(x, y)] ->
  Function.last_dx self h = (h, Ok (trailing_dx pts x)).
Proof.
  intros Ho Hp. unfold Function.last_dx, trailing_dx. rewrite bind_deref, Ho, Hp.
  destruct (last pts) as [l|] eqn:Hl.
  - apply last_Some in Hl as [front ->].
    assert ((1 <? len ((front ++ [l]) ++ [(x, y)]))%Z = true) as ->.
    { apply Z.ltb_lt. unfold len. rewrite !length_app. simpl. lia. }
    rewrite bind_lift, py_getitem_last. cbv iota.
    rewrite bind_lift, (py_getitem_m2 _ l); [done| |].
    + rewrite !length_app. simpl. lia.
    + rewrite !length_app. simpl.
      replace (length front + 1 + 1 - 2)%nat with (length front) by lia.
      rewrite <- app_assoc. by rewrite lookup_app_r, Nat.sub_diag by lia.
  - apply last_None in Hl. subst pts. done.
Qed.

(** A trailing [insert] into a function with a cached integral. *)
Lemma insert_trailing_run (h : Heap) (self g : nat) (o go : Function.t) (m : IntegrationMethod)
  (x y : Qc) (check : bool) :
  wf h -> h !! self = Some o -> Function.__integral o = Some g -> h !! g = Some go ->
  Function.__integration_method go = Some m ->
  check && bool_decide (x ∈ fst <$> Function.__points o) = false ->
  Function.search_best_index o x 0 (len (Function.__points o))
  = Ok (len (Function.__points o)) ->
  fst (Function.insert self x y check h) !! self
  = Some (Function.mk (Function.__points o ++ [(x, y)]) (Some g)
            (Function.__integration_method o))
  /\ match sample m (Function.mk (Function.__points o ++ [(x, y)]) None None)
             (Function.__points go) (trailing_dx (Function.__points o) x) with
     | Ok p =>
         exists go', fst (Function.insert self x y check h) !! g = Some go'
                     /\ Function.__points go' = inserted (Function.__points go) (fst p) (snd p)
     | Raise e =>
         fst (Function.insert self x y check h) !! g = Some go
         /\ snd (Function.insert self x y check h) = Raise e
     end.
Proof.
  intros Hwf Ho Hg Hgo Hm Hcheck Hi.
  pose proof (lookup_lt_Some _ _ _ Ho) as Hlt.
  pose proof (Hwf self o g Ho Hg) as Hsg.
  set (pts' := Function.__points o ++ [(x, y)]).
  set (cell1 := Function.mk pts' (Some g) (Function.__integration_method o)).
  set (h1 := alter (fun o => Function.mk pts' (Function.__integral o)
                               (Function.__integration_method o)) self h).
  assert (h1 !! self = Some cell1) as H1.
  { unfold h1. rewrite list_lookup_alter_eq, Ho. simpl. by rewrite Hg. }
  assert (h1 !! g = Some go) as H1g.
  { unfold h1. rewrite list_lookup_alter_ne by lia. done. }
  assert (ext self h h1) as E1 by (by apply alter_keeps_links).
  pose proof (ext_wf _ _ _ E1) as Hwf1.
  set (dx := trailing_dx (Function.__points o) x).
  destruct (length h) as [|n] eqn:Hn; [lia|].
  set (ins := Function.insert_rec n).
  assert (Function.insert self x y check h
          = match sample m cell1 (Function.__points go) dx with
            | Ok p => Function.insert_with ins g (fst p) (snd p) false h1
            | Raise e => (h1, Raise e)
            end) as Heq.
  { unfold Function.insert. rewrite Hn. cbn [Function.insert_rec].
    unfold Function.insert_with at 1. rewrite bind_deref, Ho, Hcheck, bind_lift, Hi.
    unfold bind at 1. unfold Function.set_points at 1. rewrite py_insert_end. fold pts' h1.
    rewrite bind_deref, H1. cbn [Function.__integral Function.__points cell1].
    assert (len pts' - 1 = len (Function.__points o))%Z as ->.
    { unfold pts', len. rewrite length_app. simpl. lia. }
    rewrite Z.eqb_refl. unfold Function.__update_integral_with.
    rewrite bind_the_integral, H1. cbn [Function.__integral cell1].
    rewrite bind_deref, H1g, Hm.
    assert (bind (Function.the_integral self)
              (fun f => bind (Function.last_dx self)
                          (fun dx => step_with (Function.insert_with ins) m f self dx)) h1
            = match sample m cell1 (Function.__points go) dx with
              | Ok p => Function.insert_with ins g (fst p) (snd p) false h1
              | Raise e => (h1, Raise e)
              end) as Hstep.
    { rewrite bind_the_integral, H1. cbn [Function.__integral cell1].
      rewrite (bind_Ok _ _ _ _ _ (last_dx_run self h1 cell1 (Function.__points o) x y
                                    H1 eq_refl)).
      by apply step_with_run. }
    by destruct m. }
  rewrite Heq.
  rewrite (sample_points m (Function.mk pts' None None) cell1) by done.
  destruct (sample m cell1 (Function.__points go) dx) as [p|e].
  - destruct (insert_with_effect ins (insert_rec_ok n) g (fst p) (snd p) false h1 Hwf1)
      as [E2 Hp].
    split.
    + rewrite (ext_lookup _ self _ _ E2) by lia. done.
    + by apply Hp.
  - done.
Qed.

(** Inserting a copy of the last point of a strictly ordered list leaves it
    where appending would. *)
Lemma inserted_last_again (pts : list point) (p : point) :
  increasing pts -> pts !! (length pts - 1)%nat = Some p ->
  inserted pts (fst p) (snd p) = pts ++ [p].
Proof.
  intros Hinc Hlast. pose proof (lookup_lt_Some _ _ _ Hlast) as Hlen.
  destruct (inserted_spec pts (fst p) (snd p) (increasing_nondecreasing _ Hinc))
    as (i & Hi & -> & Hr & Hcase).
  assert (i = length pts - 1)%nat as ->.
  { destruct Hcase as [(_ & r & Hr1 & Hr2)|[Hl Hg]].
    - by apply (increasing_lookup_inj pts i (length pts - 1) r p).
    - exfalso. destruct (decide (i = length pts)) as [->|Hne].
      + specialize (Hl (length pts - 1)%nat p ltac:(lia) Hlast).
        by apply Qclt_not_eq in Hl.
      + specialize (Hg (length pts - 1)%nat p ltac:(lia) Hlast).
        by apply Qclt_not_eq in Hg. }
  assert (drop (length pts - 1) pts = [p]) as Hd.
  { apply list_eq. intros j. rewrite lookup_drop. destruct j as [|j]; simpl.
    - by rewrite Nat.add_0_r.
    - apply lookup_ge_None_2. lia. }
  replace (pts ++ [p]) with ((take (length pts - 1) pts ++ drop (length pts - 1) pts) ++ [p])
    by (by rewrite take_drop).
  rewrite Hd, <- app_assoc. by destruct p.
Qed.

Lemma sample_last (m : IntegrationMethod) (d : Function.t) (fpts : list point) (dx : Qc)
  (p : point) :
  sample m d fpts dx = Ok p ->
  exists last, fpts !! (length fpts - 1)%nat = Some last
               /\ fst p = fst last + dx /\ (dx = 0 -> snd p = snd last).
Proof.
  assert (forall last, py_getitem fpts (-1) = Ok last ->
                       fpts !! (length fpts - 1)%nat = Some last) as Hget.
  { intros last Hl. destruct fpts as [|p1 fpts] using rev_ind.
    - by rewrite py_getitem_empty in Hl.
    - rewrite py_getitem_last in Hl. inversion Hl; subst. apply lookup_last_app. }
  intros Hs. unfold sample in Hs. destruct m.
  - destruct (py_getitem fpts (-1)) as [last|] eqn:Hl; [|done]. simpl in Hs.
    destruct (Function.__call__ d (fst last)) as [v|]; [|done]. simpl in Hs.
    inversion Hs; subst p. exists last. split; [by apply Hget|]. split; [done|].
    intros ->. simpl. ring.
  - destruct (Function.seek d (-1)) as [q|]; [|done]. simpl in Hs.
    destruct (Function.__call__ d (fst q - dx)) as [l|]; [|done]. simpl in Hs.
    destruct (Function.__call__ d (fst q)) as [r|]; [|done]. simpl in Hs.
    destruct (py_getitem fpts (-1)) as [last|] eqn:Hl; [|done]. simpl in Hs.
    inversion Hs; subst p. exists last. split; [by apply Hget|]. split; [done|].
    intros ->. simpl. field. done.
  - destruct (Function.seek d (-1)) as [q|]; [|done]. simpl in Hs.
    destruct (Function.__call__ d (fst q)) as [k1|]; [|done]. simpl in Hs.
    destruct (Function.__call__ d (fst q + dx / 2)) as [k2|]; [|done]. simpl in Hs.
    destruct (Function.__call__ d (fst q + dx)) as [k4|]; [|done]. simpl in Hs.
    destruct (py_getitem fpts (-1)) as [last|] eqn:Hl; [|done]. simpl in Hs.
    inversion Hs; subst p. exists last. split; [by apply Hget|]. split; [done|].
    intros ->. simpl. field. done.
Qed.

(** A point found to belong after all stored points lies to the right of
    the last one. *)
Lemma search_at_end_above (o : Function.t) (x : Qc) (l : point) :
  nondecreasing (Function.__points o) ->
  Function.search_best_index o x 0 (len (Function.__points o))
  = Ok (len (Function.__points o)) ->
  last (Function.__points o) = Some l -> fst l < x.
Proof.
  intros Hs Hi Hl. destruct (search_best_index_spec o x Hs) as (i & Hi' & Hr & Hcase).
  rewrite Hi in Hi'. inversion Hi' as [Hlen]. unfold len in Hlen.
  apply Nat2Z.inj in Hlen. subst i.
  rewrite last_lookup in Hl.
  assert (0 < length (Function.__points o))%nat as Hpos.
  { destruct (Function.__points o); [done|simpl; lia]. }
  destruct Hcase as [(Hlt & _)|[Hlow _]]; [lia|].
  apply (Hlow (pred (length (Function.__points o)))); [lia|done].
Qed.

Lemma search_at_end_all_below (o : Function.t) (x : Qc) :
  nondecreasing (Function.__points o) ->
  Function.search_best_index o x 0 (len (Function.__points o))
  = Ok (len (Function.__points o)) ->
  forall p, p ∈ Function.__points o -> fst p < x.
Proof.
  intros Hs Hi p Hp. destruct (search_best_index_spec o x Hs) as (i & Hi' & Hr & Hcase).
  rewrite Hi in Hi'. inversion Hi' as [Hlen]. unfold len in Hlen.
  apply Nat2Z.inj in Hlen. subst i.
  apply list_elem_of_lookup_1 in Hp as [j Hj]. pose proof (lookup_lt_Some _ _ _ Hj).
  destruct Hcase as [(Hlt & _)|[Hlow _]]; [lia|].
  apply (Hlow j); [lia|done].
Qed.

Lemma increasing_snoc (pts : list point) (x y : Qc) :
  increasing pts -> (forall p, p ∈ pts -> fst p < x) -> increasing (pts ++ [(x, y)]).
Proof.
  intros Hinc Hlt.
  rewrite <- (inserted_at_end pts x y) by (try apply increasing_nondecreasing; done).
  apply inserted_increasing; [done|]. intros Hx.
  apply list_elem_of_fmap in Hx as (p & Hpx & Hp).
  apply (Qclt_not_eq _ _ (Hlt p Hp)). by rewrite Hpx.
Qed.

Lemma py_getitem_m1_nonempty {A : Type} (l : list A) :
  l <> [] -> exists a, py_getitem l (-1) = Ok a.
Proof.
  intros Hne. destruct (lookup_lt_is_Some_2 l (length l - 1)%nat) as [a Ha].
  { destruct l; [done|simpl; lia]. }
  exists a. by apply py_getitem_m1.
Qed.

(** A step of any scheme finds its sample when the derivative holds points of
    increasing abscissas and the integral holds a point. *)
Lemma sample_succeeds (m : IntegrationMethod) (d : Function.t) (fpts : list point) (dx : Qc) :
  increasing (Function.__points d) -> Function.__points d <> [] -> fpts <> [] ->
  exists p, sample m d fpts dx = Ok p.
Proof.
  intros Hinc Hd Hf.
  destruct (py_getitem_m1_nonempty fpts Hf) as [lf Hlf].
  destruct (py_getitem_m1_nonempty (Function.__points d) Hd) as [ld Hld].
  unfold sample, Function.seek. rewrite Hlf, Hld.
  destruct m; simpl.
  - destruct (call_succeeds d (fst lf) Hinc Hd) as [v ->]. simpl. by eexists.
  - destruct (call_succeeds d (fst ld - dx) Hinc Hd) as [v ->].
    destruct (call_succeeds d (fst ld) Hinc Hd) as [v' ->]. simpl. by eexists.
  - destruct (call_succeeds d (fst ld) Hinc Hd) as [k1 ->].
    destruct (call_succeeds d (fst ld + dx / 2) Hinc Hd) as [k2 ->].
    destruct (call_succeeds d (fst ld + dx) Hinc Hd) as [k4 ->]. simpl. by eexists.
Qed.

Lemma Qcminus_pos (a b : Qc) : a < b -> 0 < b - a.
Proof.
  intros H. pose proof (proj1 (Qcplus_lt_mono_r a b (- a)) H) as H'.
  by replace (a + - a) with 0 in H' by ring.
Qed.

(** The loop of [integral] over increasing abscissas never fails and puts
    one sample at each abscissa of the grid, shifted to the initial point. *)
Lemma integral_points_loop_grid (m : IntegrationMethod) (d : Function.t) :
  increasing (Function.__points d) ->
  forall k i ipts last prev,
    (i + k = length (Function.__points d))%nat -> (1 <= i)%nat ->
    Function.__points d !! (i - 1)%nat = Some prev ->
    nondecreasing ipts -> ipts !! (length ipts - 1)%nat = Some last ->
    exists out,
      integral_points_loop m d (Z.of_nat i) (drop i (Function.__points d)) ipts
      = (ipts ++ out, Ok tt)
      /\ fst <$> out = (fun p => fst last + (fst p - fst prev)) <$> drop i (Function.__points d).
Proof.
  intros Hinc. induction k as [|k IH]; intros i ipts last prev Hik Hi Hprev Hnd Hlast.
  { rewrite drop_ge by lia. exists []. simpl. by rewrite app_nil_r. }
  destruct (lookup_lt_is_Some_2 (Function.__points d) i) as [point Hpoint]; [lia|].
  rewrite (drop_S _ _ _ Hpoint). simpl.
  replace (Z.of_nat i - 1)%Z with (Z.of_nat (i - 1)) by lia.
  rewrite (py_getitem_nat _ _ _ Hprev).
  assert (0 < fst point - fst prev) as Hdx.
  { apply Qcminus_pos. apply (increasing_lookup (Function.__points d) (i - 1) i); [done|lia|done..]. }
  destruct (sample_succeeds m d ipts (fst point - fst prev) Hinc) as [p Hp].
  { intros Hnil. by rewrite Hnil in Hpoint. }
  { intros Hnil. by rewrite Hnil in Hlast. }
  rewrite Hp. destruct (sample_last _ _ _ _ _ Hp) as (last' & Hlast' & Hpx & _).
  rewrite Hlast in Hlast'. inversion Hlast'; subst last'.
  assert (inserted ipts (fst p) (snd p) = ipts ++ [p]) as ->.
  { rewrite Hpx. rewrite inserted_at_end; [|done|by apply (below_last_plus ipts last)].
    rewrite <- Hpx. by destruct p. }
  replace (Z.of_nat i + 1)%Z with (Z.of_nat (S i)) by lia.
  destruct (IH (S i) (ipts ++ [p]) p point) as (out & Hout & Hfst);
    [lia|lia|by replace (S i - 1)%nat with i by lia| |apply lookup_last_app|].
  { replace (ipts ++ [p]) with (inserted ipts (fst last + (fst point - fst prev)) (snd p)).
    - by apply inserted_nondecreasing.
    - rewrite inserted_at_end; [|done|by apply (below_last_plus ipts last)].
      rewrite <- Hpx. by destruct p. }
  exists (p :: out). split.
  - rewrite Hout. by rewrite <- app_assoc.
  - rewrite !fmap_cons, Hfst, Hpx. f_equal. apply list_fmap_ext. intros j q _. ring.
Qed.

(** C4. When a Function has a cached integral, what [insert(x, y)] does to
    it depends on where the new point goes.  Anywhere but at the end: the
    integral is rebuilt as a new object, which has the scheme of the
    previous integral, caches no integral of its own and holds the points
    that this scheme builds over the new point set from the first point of
    the previous integral.  When the x-values of the new point set increase,
    the rebuild succeeds, the rebuilt integral starts at that first point
    and holds one sample per stored point, at the x-values of the function
    moved to that start.  The rebuilt integral is also the very integral
    that [integral()] builds, with that scheme and that first point, on any
    function that holds the new point set; the two runs succeed or fail
    together.  At the end: the integral object is kept, and the step of its
    scheme adds exactly one sample to it, which becomes its last point when
    the points of the function and of the integral are in order; the step
    finds that sample whenever the x-values of the function increase and the
    integral holds a point. *)
Theorem insert_updates_cached_integral (h : Heap) (self g : nat) (o go : Function.t)
  (x y : Qc) (check : bool) (i : nat) :
  wf h -> h !! self = Some o -> Function.__integral o = Some g -> h !! g = Some go ->
  check && bool_decide (x ∈ fst <$> Function.__points o) = false ->
  Function.search_best_index o x 0 (len (Function.__points o)) = Ok (Z.of_nat i) ->
  (i <> length (Function.__points o) ->
   forall p0, Function.__points go !! 0%nat = Some p0 ->
     exists rebuilt,
       integral_of (fst (Function.insert self x y check h)) self = Some rebuilt
       /\ Function.__integration_method rebuilt = Function.__integration_method go
       /\ Function.__integral rebuilt = None
       /\ Function.__points rebuilt
          = fst (integral_points (Function.__integration_method go)
                   (Function.mk (inserted (Function.__points o) x y) None None)
                   (fst p0) (snd p0))
       /\ (forall m first,
             Function.__integration_method go = Some m ->
             increasing (Function.__points o) -> x ∉ fst <$> Function.__points o ->
             inserted (Function.__points o) x y !! 0%nat = Some first ->
             snd (Function.insert self x y check h) = Ok tt
             /\ Function.__points rebuilt !! 0%nat = Some p0
             /\ length (Function.__points rebuilt) = S (length (Function.__points o))
             /\ fst <$> Function.__points rebuilt
                = (fun p => fst p0 + (fst p - fst first))
                    <$> inserted (Function.__points o) x y)
       /\ (exists o', fst (Function.insert self x y check h) !! self = Some o'
                      /\ Function.__points o' = inserted (Function.__points o) x y
                      /\ Function.__integral o' = Some (length h))
       /\ forall (h2 : Heap) (s2 : nat) (o2 : Function.t),
            h2 !! s2 = Some o2 ->
            Function.__points o2 = inserted (Function.__points o) x y ->
            integral_of (fst (Function.integral s2 (Function.__integration_method go)
                                (fst p0) (snd p0) h2)) s2 = Some rebuilt
            /\ (snd (Function.insert self x y check h) = Ok tt
                <-> snd (Function.integral s2 (Function.__integration_method go)
                           (fst p0) (snd p0) h2) = Ok (length h2)))
  /\ (i = length (Function.__points o) ->
      forall m, Function.__integration_method go = Some m ->
        fst (Function.insert self x y check h) !! self
        = Some (Function.mk (Function.__points o ++ [(x, y)]) (Some g)
                  (Function.__integration_method o))
        /\ forall p,
             sample m (Function.mk (Function.__points o ++ [(x, y)]) None None)
               (Function.__points go) (trailing_dx (Function.__points o) x) = Ok p ->
             exists go', fst (Function.insert self x y check h) !! g = Some go'
                         /\ Function.__points go' ≡ₚ p :: Function.__points go
                         /\ (nondecreasing (Function.__points o) ->
                             increasing (Function.__points go) ->
                             Function.__points go' = Function.__points go ++ [p]))
  /\ (i = length (Function.__points o) ->
      forall m, Function.__integration_method go = Some m ->
        increasing (Function.__points o) -> Function.__points go <> [] ->
        exists p, sample m (Function.mk (Function.__points o ++ [(x, y)]) None None)
                    (Function.__points go) (trailing_dx (Function.__points o) x) = Ok p).
Proof.
  intros Hwf Ho Hg Hgo Hcheck Hi. split; [|split].
  - intros Hne p0 Hp0.
    destruct (insert_rebuild_run h self g o go p0 x y check i Hwf Ho Hg Hgo Hp0 Hcheck Hi Hne)
      as (Hself & Hint & Hres).
    eexists. split; [exact Hint|]. split; [done|]. split; [done|]. split; [done|].
    split; [|split].
    { intros m first Hm Hinc Hx Hfirst. cbn [Function.__points].
      pose proof (inserted_increasing _ x y Hinc Hx) as Hinc'.
      assert (length (inserted (Function.__points o) x y) = S (length (Function.__points o)))
        as Hlen by (by rewrite inserted_Permutation).
      rewrite Hm in Hres |- *. unfold integral_points in Hres |- *.
      cbn [Function.__points] in Hres |- *.
      destruct (integral_points_loop_grid m
                  (Function.mk (inserted (Function.__points o) x y) None None) Hinc'
                  (length (inserted (Function.__points o) x y) - 1) 1
                  [(fst p0, snd p0)] (fst p0, snd p0) first) as (out & Hout & Hfst);
        [cbn [Function.__points]; lia|lia|done|repeat constructor|done|].
      cbn [Function.__points] in Hout, Hfst.
      change (Z.of_nat 1) with 1%Z in Hout. rewrite Hout in Hres |- *. cbn [fst snd] in *.
      split; [done|]. split; [by destruct p0|].
      assert (fst <$> [(fst p0, snd p0)] ++ out
              = (fun p => fst p0 + (fst p - fst first))
                  <$> inserted (Function.__points o) x y) as Hgrid.
      { rewrite fmap_app, Hfst. cbn [fst].
        rewrite <- (take_drop 1 (inserted (Function.__points o) x y)) at 2.
        rewrite fmap_app. f_equal.
        destruct (inserted (Function.__points o) x y) as [|q pts]; [done|].
        inversion Hfirst; subst q. simpl. f_equal. ring. }
      split; [|done].
      rewrite <- Hlen, <- (length_fmap fst), Hgrid. by rewrite length_fmap. }
    { eexists. split; [exact Hself|]. done. }
    intros h2 s2 o2 Ho2 Hpts2.
    destruct (integral_run s2 (Function.__integration_method go) (fst p0) (snd p0) h2 o2 Ho2)
      as [Hint2 Hres2].
    rewrite (integral_points_points _ o2
               (Function.mk (inserted (Function.__points o) x y) None None)) in Hint2, Hres2
      by done.
    split; [done|]. rewrite Hres, Hres2.
    by destruct (snd (integral_points _ _ _ _)).
  - intros -> m Hm.
    destruct (insert_trailing_run h self g o go m x y check Hwf Ho Hg Hgo Hm Hcheck Hi)
      as [Hself Hsample].
    split; [done|]. intros p Hp. rewrite Hp in Hsample.
    destruct Hsample as (go' & Hgo' & Hpts). exists go'. split; [done|]. rewrite Hpts.
    split; [destruct p; apply inserted_Permutation|].
    intros Hnd Hinc.
    destruct (sample_last _ _ _ _ _ Hp) as (lastg & Hlastg & Hx & Hy).
    unfold trailing_dx in Hx, Hy.
    destruct (last (Function.__points o)) as [l|] eqn:Hl.
    + replace (inserted (Function.__points go) (fst p) (snd p))
        with (inserted (Function.__points go) (fst lastg + (x - fst l)) (snd p))
        by (by rewrite Hx).
      rewrite inserted_at_end.
      * rewrite <- Hx. by destruct p.
      * by apply increasing_nondecreasing.
      * apply (below_last_plus _ lastg); [by apply increasing_nondecreasing|done|].
        pose proof (search_at_end_above o x l Hnd Hi Hl) as Hlt.
        apply (Qcplus_lt_mono_r _ _ (- fst l)) in Hlt. by rewrite Qcplus_opp_r in Hlt.
    + assert (p = lastg) as ->.
      { destruct p, lastg. simpl in *. rewrite Qcplus_0_r in Hx. by rewrite Hx, Hy. }
      by apply inserted_last_again.
  - intros -> m Hm Hinc Hne.
    apply sample_succeeds; simpl; [|by destruct (Function.__points o)|done].
    apply increasing_snoc; [done|].
    by apply (search_at_end_all_below o x (increasing_nondecreasing _ Hinc)).
Qed.

Lemma insert_updates_cached_integral_witness :
  exists rebuilt,
    integral_of (fst (Function.insert 0 (num 1 1) (num 5 1) false
                        [Function.mk [(num 0 1, num 1 1); (num 2 1, num 1 1)] (Some 1%nat) None;
                         Function.mk [(num 0 1, num 0 1); (num 2 1, num 2 1)] None
                           (Some EULER)])) 0
    = Some rebuilt
    /\ Function.__integration_method rebuilt = Some EULER
    /\ Function.__integral rebuilt = None
    /\ Function.__points rebuilt
       = fst (integral_points (Some EULER)
                (Function.mk
                   (inserted [(num 0 1, num 1 1); (num 2 1, num 1 1)] (num 1 1) (num 5 1))
                   None None)
                (num 0 1) (num 0 1))
    /\ (forall m first,
          Some EULER = Some m ->
          increasing [(num 0 1, num 1 1); (num 2 1, num 1 1)] ->
          num 1 1 ∉ fst <$> [(num 0 1, num 1 1); (num 2 1, num 1 1)] ->
          inserted [(num 0 1, num 1 1); (num 2 1, num 1 1)] (num 1 1) (num 5 1) !! 0%nat
          = Some first ->
          snd (Function.insert 0 (num 1 1) (num 5 1) false
                 [Function.mk [(num 0 1, num 1 1); (num 2 1, num 1 1)] (Some 1%nat) None;
                  Function.mk [(num 0 1, num 0 1); (num 2 1, num 2 1)] None (Some EULER)])
          = Ok tt
          /\ Function.__points rebuilt !! 0%nat = Some (num 0 1, num 0 1)
          /\ length (Function.__points rebuilt) = 3%nat
          /\ fst <$> Function.__points rebuilt
             = (fun p => num 0 1 + (fst p - fst first))
                 <$> inserted [(num 0 1, num 1 1); (num 2 1, num 1 1)] (num 1 1) (num 5 1))
    /\ (exists o',
          fst (Function.insert 0 (num 1 1) (num 5 1) false
                 [Function.mk [(num 0 1, num 1 1); (num 2 1, num 1 1)] (Some 1%nat) None;
                  Function.mk [(num 0 1, num 0 1); (num 2 1, num 2 1)] None (Some EULER)])
          !! 0%nat = Some o'
          /\ Function.__points o'
             = inserted [(num 0 1, num 1 1); (num 2 1, num 1 1)] (num 1 1) (num 5 1)
          /\ Function.__integral o' = Some 2%nat)
    /\ forall (h2 : Heap) (s2 : nat) (o2 : Function.t),
         h2 !! s2 = Some o2 ->
         Function.__points o2
         = inserted [(num 0 1, num 1 1); (num 2 1, num 1 1)] (num 1 1) (num 5 1) ->
         integral_of (fst (Function.integral s2 (Some EULER) (num 0 1) (num 0 1) h2)) s2
         = Some rebuilt
         /\ (snd (Function.insert 0 (num 1 1) (num 5 1) false
                    [Function.mk [(num 0 1, num 1 1); (num 2 1, num 1 1)] (Some 1%nat) None;
                     Function.mk [(num 0 1, num 0 1); (num 2 1, num 2 1)] None (Some EULER)])
             = Ok tt
             <-> snd (Function.integral s2 (Some EULER) (num 0 1) (num 0 1) h2)
                 = Ok (length h2)).
Proof.
  pose proof (proj1 (insert_updates_cached_integral
                  [Function.mk [(num 0 1, num 1 1); (num 2 1, num 1 1)] (Some 1%nat) None;
                   Function.mk [(num 0 1, num 0 1); (num 2 1, num 2 1)] None (Some EULER)]
                  0%nat 1%nat
                  (Function.mk [(num 0 1, num 1 1); (num 2 1, num 1 1)] (Some 1%nat) None)
                  (Function.mk [(num 0 1, num 0 1); (num 2 1, num 2 1)] None (Some EULER))
                  (num 1 1) (num 5 1) false 1%nat
                  ltac:(apply wfb_wf; reflexivity) eq_refl eq_refl eq_refl eq_refl
                  ltac:(vm_compute; reflexivity))) as H.
  specialize (H ltac:(simpl; lia) (num 0 1, num 0 1) eq_refl).
  exact H.
Defined.

(** ** Integrating a constant derivative sampled at a uniform step *)

Lemma length_uniform (x dx c : Qc) (n : nat) : length (uniform x dx c n) = n.
Proof. revert x. induction n as [|n IH]; intros x; simpl; [done|]. by rewrite IH. Qed.

Lemma length_ramp (x y dx dy : Qc) (n : nat) : length (ramp x y dx dy n) = n.
Proof. revert x y. induction n as [|n IH]; intros x y; simpl; [done|]. by rewrite IH. Qed.

Lemma uniform_ordinate (x dx c : Qc) (n : nat) (p : point) :
  p ∈ uniform x dx c n -> snd p = c.
Proof.
  revert x. induction n as [|n IH]; intros x Hp; simpl in Hp; [by apply elem_of_nil in Hp|].
  apply elem_of_cons in Hp as [->|Hp]; [done|]. by apply (IH (x + dx)).
Qed.

Lemma uniform_lower (x dx c : Qc) (n : nat) (p : point) :
  0 < dx -> p ∈ uniform x dx c n -> x <= fst p.
Proof.
  intros Hdx. revert x. induction n as [|n IH]; intros x Hp; simpl in Hp;
    [by apply elem_of_nil in Hp|].
  apply elem_of_cons in Hp as [->|Hp]; [apply Qcle_refl|].
  apply Qcle_trans with (x + dx); [|by apply IH].
  apply Qclt_le_weak. rewrite <- (Qcplus_0_r x) at 1. by apply Qcplus_lt_mono_l.
Qed.

Lemma uniform_increasing (x dx c : Qc) (n : nat) : 0 < dx -> increasing (uniform x dx c n).
Proof.
  intros Hdx. unfold increasing. revert x. induction n as [|n IH]; intros x; simpl.
  { constructor. }
  constructor; [apply IH|]. apply Forall_forall. intros a Ha.
  apply list_elem_of_fmap in Ha as (p & -> & Hp).
  apply Qclt_le_trans with (x + dx); [|by apply (uniform_lower _ dx c n)].
  rewrite <- (Qcplus_0_r x) at 1. by apply Qcplus_lt_mono_l.
Qed.

Lemma uniform_step (x dx c : Qc) (n k : nat) (p r : point) :
  uniform x dx c n !! k = Some p -> uniform x dx c n !! S k = Some r ->
  fst r - fst p = dx.
Proof.
  revert x k. induction n as [|n IH]; intros x k Hp Hr; [done|].
  destruct k as [|k]; simpl in Hp, Hr.
  - inversion Hp; subst p. destruct n as [|n]; [done|]. simpl in Hr.
    inversion Hr; subst r. simpl. ring.
  - by apply (IH (x + dx) k).
Qed.

(** A function whose stored points share one ordinate is constant. *)
Lemma call_constant (self : Function.t) (c x : Qc) :
  increasing (Function.__points self) -> Function.__points self <> [] ->
  (forall p, p ∈ Function.__points self -> snd p = c) ->
  Function.__call__ self x = Ok c.
Proof.
  intros Hinc Hne Hc.
  destruct (decide (length (Function.__points self) = 1%nat)) as [H1|H1].
  { unfold Function.__call__. destruct (Function.__points self) as [|p [|]] eqn:Hpts; try done.
    f_equal. apply Hc. by left. }
  destruct (call_segment self x Hinc) as (a & b & Ha & Hb & Hab & ->).
  { destruct (Function.__points self) as [|p [|]]; simpl in *; try done; lia. }
  rewrite (Hc a Ha), (Hc b Hb). f_equal. field. apply Qcminus_ne_0. intros Heq. by apply Hab.
Qed.

Lemma num_6 : num 6 1 = 2 * (2 + 1).
Proof. by apply Qc_is_canon. Qed.

(** Every scheme adds [c * dx] when the derivative is the constant [c]. *)
Lemma sample_constant (m : IntegrationMethod) (d : Function.t) (fpts : list point)
  (c dx : Qc) (last : point) :
  increasing (Function.__points d) -> Function.__points d <> [] ->
  (forall p, p ∈ Function.__points d -> snd p = c) ->
  fpts !! (length fpts - 1)%nat = Some last ->
  sample m d fpts dx = Ok (fst last + dx, snd last + c * dx).
Proof.
  intros Hinc Hne Hc Hlast.
  assert (exists q, Function.seek d (-1) = Ok q) as [q Hq].
  { unfold Function.seek. destruct (Function.__points d) as [|p pts] using rev_ind; [done|].
    exists p. apply py_getitem_last. }
  unfold sample. rewrite Hq, (py_getitem_m1 _ _ Hlast). simpl.
  rewrite !(call_constant d c _ Hinc Hne Hc). simpl.
  destruct m; simpl; f_equal; f_equal; f_equal.
  - ring.
  - field. done.
  - rewrite num_6. field. done.
Qed.

Lemma ramp_step (x y dx dy : Qc) (n k : nat) (p r : point) :
  ramp x y dx dy n !! k = Some p -> ramp x y dx dy n !! S k = Some r ->
  snd r - snd p = dy /\ fst r - fst p = dx.
Proof.
  revert x y k. induction n as [|n IH]; intros x y k Hp Hr; [done|].
  destruct k as [|k]; simpl in Hp, Hr.
  - inversion Hp; subst p. destruct n as [|n]; [done|]. simpl in Hr.
    inversion Hr; subst r. simpl. split; ring.
  - by apply (IH (x + dx) (y + dy) k).
Qed.

Lemma integral_points_loop_constant (m : IntegrationMethod) (d : Function.t)
  (x0 dx c : Qc) (n : nat) :
  Function.__points d = uniform x0 dx c n -> 0 < dx ->
  forall k i ipts last,
    (i + k = n)%nat -> (1 <= i)%nat -> nondecreasing ipts ->
    ipts !! (length ipts - 1)%nat = Some last ->
    integral_points_loop m d (Z.of_nat i) (drop i (Function.__points d)) ipts
    = (ipts ++ ramp (fst last + dx) (snd last + c * dx) dx (c * dx) k, Ok tt).
Proof.
  intros Hpts Hdx. induction k as [|k IH]; intros i ipts last Hik Hi Hnd Hlast.
  { rewrite drop_ge by (rewrite Hpts, length_uniform; lia). simpl. by rewrite app_nil_r. }
  assert (length (Function.__points d) = n) as Hlen by (by rewrite Hpts, length_uniform).
  destruct (lookup_lt_is_Some_2 (Function.__points d) i) as [point Hpoint]; [lia|].
  destruct (lookup_lt_is_Some_2 (Function.__points d) (i - 1)%nat) as [prev Hprev]; [lia|].
  rewrite (drop_S _ _ _ Hpoint). simpl.
  replace (Z.of_nat i - 1)%Z with (Z.of_nat (i - 1)) by lia.
  rewrite (py_getitem_nat _ _ _ Hprev).
  assert (fst point - fst prev = dx) as ->.
  { apply (uniform_step x0 dx c n (i - 1)); rewrite <- Hpts; [done|].
    by replace (S (i - 1)) with i by lia. }
  rewrite (sample_constant m d ipts c dx last); [| | |by intros p; rewrite Hpts;
                                                     apply uniform_ordinate|done].
  2:{ rewrite Hpts. by apply uniform_increasing. }
  2:{ intros Hnil. rewrite Hnil in Hlen. simpl in Hlen. lia. }
  simpl. rewrite inserted_at_end; [|done|by apply (below_last_plus ipts last)].
  replace (Z.of_nat i + 1)%Z with (Z.of_nat (S i)) by lia.
  rewrite (IH (S i) _ (fst last + dx, snd last + c * dx)); [|lia|lia| |apply lookup_last_app].
  - by rewrite <- app_assoc.
  - rewrite <- (inserted_at_end ipts (fst last + dx) (snd last + c * dx));
      [by apply inserted_nondecreasing|done|by apply (below_last_plus ipts last)].
Qed.

Lemma integral_points_constant (m : IntegrationMethod) (d : Function.t)
  (x0 dx c : Qc) (n : nat) (x_i y_i : Qc) :
  Function.__points d = uniform x0 dx c n -> 0 < dx ->
  integral_points (Some m) d x_i y_i = (ramp x_i y_i dx (c * dx) (Nat.max n 1), Ok tt).
Proof.
  intros Hpts Hdx. unfold integral_points. destruct n as [|n].
  { by rewrite Hpts. }
  change (integral_points_loop m d 1) with (integral_points_loop m d (Z.of_nat 1)).
  rewrite (integral_points_loop_constant m d x0 dx c (S n) Hpts Hdx n 1%nat
             [(x_i, y_i)] (x_i, y_i)); [|lia|lia| |done].
  - by replace (S n `max` 1)%nat with (S n) by lia.
  - repeat constructor.
Qed.

(** C8. Take a Function whose stored points all have the y-value [c] and are
    spaced at a uniform step [dx > 0].  Integrating it with any of the three
    schemes, from any initial point, succeeds and yields an integral with one
    sample per stored point (one sample at least), whose consecutive samples
    are [dx] apart and increase by exactly [c * dx]. *)
Theorem constant_derivative_integral (h : Heap) (self : nat) (o : Function.t)
  (m : IntegrationMethod) (x0 dx c : Qc) (n : nat) (x_i y_i : Qc) :
  h !! self = Some o -> Function.__points o = uniform x0 dx c n -> 0 < dx ->
  snd (Function.integral self (Some m) x_i y_i h) = Ok (length h)
  /\ exists fo,
       integral_of (fst (Function.integral self (Some m) x_i y_i h)) self = Some fo
       /\ Function.__points fo = ramp x_i y_i dx (c * dx) (Nat.max n 1)
       /\ forall k p r,
            Function.__points fo !! k = Some p -> Function.__points fo !! S k = Some r ->
            snd r - snd p = c * dx /\ fst r - fst p = dx.
Proof.
  intros Ho Hpts Hdx.
  destruct (integral_run self (Some m) x_i y_i h o Ho) as [Hint Hres].
  rewrite (integral_points_constant m o x0 dx c n x_i y_i Hpts Hdx) in Hint, Hres.
  split; [done|]. eexists. split; [exact Hint|]. split; [done|].
  intros k p r. apply ramp_step.
Qed.

Lemma constant_derivative_integral_witness :
  snd (Function.integral 0 (Some RK4) (num 0 1) (num 0 1)
         [Function.mk (uniform (num 0 1) (num 1 2) (num 3 1) 3) None None]) = Ok 1%nat
  /\ exists fo,
       integral_of (fst (Function.integral 0 (Some RK4) (num 0 1) (num 0 1)
                           [Function.mk (uniform (num 0 1) (num 1 2) (num 3 1) 3) None None]))
         0 = Some fo
       /\ Function.__points fo
          = ramp (num 0 1) (num 0 1) (num 1 2) (num 3 1 * num 1 2) (Nat.max 3 1)
       /\ forall k p r,
            Function.__points fo !! k = Some p -> Function.__points fo !! S k = Some r ->
            snd r - snd p = num 3 1 * num 1 2 /\ fst r - fst p = num 1 2.
Proof.
  pose proof (constant_derivative_integral
                [Function.mk (uniform (num 0 1) (num 1 2) (num 3 1) 3) None None] 0%nat
                (Function.mk (uniform (num 0 1) (num 1 2) (num 3 1) 3) None None)
                RK4 (num 0 1) (num 1 2) (num 3 1) 3 (num 0 1) (num 0 1)
                eq_refl eq_refl ltac:(apply (bool_decide_unpack _); vm_compute; exact I)) as H.
  exact H.
Defined.

(** ** Bodies and forces *)

Lemma reads_ret {S A : Type} (a : A) : reads (@ret S A a).
Proof. done. Qed.

Lemma reads_raise {S A : Type} (e : Exception) : reads (@raise S A e).
Proof. done. Qed.

Lemma reads_lift {S A : Type} (r : result A) : reads (@lift S A r).
Proof. done. Qed.

Lemma reads_self {B H : Type} : reads (@self_ B H).
Proof. done. Qed.

Lemma reads_bind {S A B : Type} (c : M S A) (k : A -> M S B) :
  reads c -> (forall a, reads (k a)) -> reads (bind c k).
Proof.
  intros Hc Hk s. unfold bind. specialize (Hc s).
  destruct (c s) as [s' [a|e]]; simpl in Hc; subst s'; [apply Hk|done].
Qed.

Lemma reads_on_heap {B A : Type} (c : M Heap A) : reads c -> reads (@on_heap B A c).
Proof.
  intros Hc [b h]. unfold on_heap. simpl. specialize (Hc h).
  destruct (c h) as [h' r]. simpl in *. by subst h'.
Qed.

Lemma reads_deref (l : nat) : reads (Function.deref l).
Proof. intros h. unfold Function.deref. by destruct (h !! l). Qed.

Lemma reads_vector_seek (v : VectorFunction.t) (i : Z) : reads (VectorFunction.seek v i).
Proof.
  unfold VectorFunction.seek.
  repeat (apply reads_bind; [first [apply reads_deref|apply reads_lift]|intros ?]).
  apply reads_ret.
Qed.

Lemma reads_the_pendulum : reads Pendulum.the_pendulum.
Proof.
  unfold Pendulum.the_pendulum. apply reads_bind; [apply reads_self|intros b].
  destruct (Obj.pendulum b); [apply reads_ret|apply reads_raise].
Qed.

Ltac reads_steps :=
  repeat (apply reads_bind;
          [first [apply reads_self | apply reads_lift | apply reads_the_pendulum
                 | apply reads_on_heap, reads_vector_seek]
          |intros ?]).

Lemma reads_distance_from_pivot (m : math.t) : reads (Pendulum.distance_from_pivot m).
Proof. unfold Pendulum.distance_from_pivot. reads_steps. apply reads_ret. Qed.

Lemma reads_gravity_magnitude (sm sr : Qc) : reads (Gravity.get_magnitude sm sr).
Proof. unfold Gravity.get_magnitude. reads_steps. apply reads_ret. Qed.

Lemma reads_tension_direction (m : math.t) : reads (PendulumTension.get_direction m).
Proof. unfold PendulumTension.get_direction. reads_steps. apply reads_ret. Qed.

Lemma reads_the_gravity : reads PendulumTension.the_gravity.
Proof.
  unfold PendulumTension.the_gravity. apply reads_bind; [apply reads_self|intros b].
  destruct (List.find _ _) as [[| |]|]; first [apply reads_ret|apply reads_raise].
Qed.

Lemma reads_tension_magnitude (m : math.t) : reads (PendulumTension.get_magnitude m).
Proof.
  unfold PendulumTension.get_magnitude.
  apply reads_bind; [apply reads_the_gravity|intros g].
  apply reads_bind; [apply reads_gravity_magnitude|intros gm].
  apply reads_bind; [apply reads_tension_direction|intros d].
  apply reads_bind; [apply reads_self|intros b].
  apply reads_bind; [apply reads_on_heap, reads_vector_seek|intros v].
  apply reads_bind; [apply reads_distance_from_pivot|intros dist].
  apply reads_bind; [apply reads_lift|intros r]. apply reads_ret.
Qed.

Lemma reads_force_magnitude (m : math.t) (f : Obj.Force) : reads (Force.get_magnitude m f).
Proof.
  destruct f; simpl;
    [apply reads_raise|apply reads_gravity_magnitude|apply reads_tension_magnitude].
Qed.

Lemma reads_force_direction (m : math.t) (f : Obj.Force) : reads (Force.get_direction m f).
Proof.
  destruct f; simpl; [apply reads_raise|apply reads_ret|apply reads_tension_direction].
Qed.

Lemma reads_net_force_loop (m : math.t) (forces : list Obj.Force) (fx fy : Qc) :
  reads (Body.net_force_loop m forces fx fy).
Proof.
  revert fx fy. induction forces as [|f forces IH]; intros fx fy; simpl; [apply reads_ret|].
  apply reads_bind; [apply reads_force_magnitude|intros mag].
  apply reads_bind; [apply reads_force_direction|intros dir]. apply IH.
Qed.

Lemma reads_generate_acceleration (m : math.t) : reads (AnimatedBody.generate_acceleration m).
Proof.
  unfold AnimatedBody.generate_acceleration, Body.get_net_force.
  apply reads_bind.
  { apply reads_bind; [apply reads_self|intros b]. apply reads_net_force_loop. }
  intros f. reads_steps. apply reads_ret.
Qed.

(** [__step_acceleration] writes functions of the store only. *)
Lemma step_acceleration_keeps_self (m : math.t) :
  keeps_self (AnimatedBody.__step_acceleration m).
Proof.
  intros w. unfold AnimatedBody.__step_acceleration.
  pose proof (reads_generate_acceleration m w) as Hg. unfold bind.
  destruct (AnimatedBody.generate_acceleration m w) as [w' [a|e]]; simpl in Hg; subst w';
    [|done].
  unfold self_, on_heap. simpl. by destruct (VectorFunction.insert _ _ _ _ _).
Qed.

Lemma init_never_seeded (mass dt : Qc) (pendulum : option Obj.Pendulum) (h0 : Heap) :
  exists ab h, AnimatedBody.__init__ mass dt pendulum h0 = (h, Ok ab)
               /\ never_seeded (ab, h)
               /\ Obj.forces (Cb.attrs ab) = [] /\ Obj.time (Cb.attrs ab) = 0
               /\ Obj.mass (Cb.attrs ab) = mass /\ Obj.dt (Cb.attrs ab) = dt.
Proof.
  eexists _, _. split; [reflexivity|]. simpl.
  assert (forall k, (k < 6)%nat ->
            ((((((h0 ++ [Function.__init__]) ++ [Function.__init__]) ++ [Function.__init__])
                ++ [Function.__init__]) ++ [Function.__init__]) ++ [Function.__init__])
            !! (length h0 + k)%nat = Some Function.__init__) as Hk.
  { intros k Hk. rewrite <- !app_assoc. rewrite lookup_app_r by lia.
    replace (length h0 + k - length h0)%nat with k by lia.
    by do 6 (destruct k as [|k]; [done|]); lia. }
  unfold never_seeded. simpl. rewrite !length_app. simpl.
  repeat split; try done.
  - replace (length h0) with (length h0 + 0)%nat at 1 by lia. apply Hk. lia.
  - apply Hk. lia.
  - replace (length h0 + 1 + 1)%nat with (length h0 + 2)%nat by lia. apply Hk. lia.
  - replace (length h0 + 1 + 1 + 1)%nat with (length h0 + 3)%nat by lia. apply Hk. lia.
  - replace (length h0 + 1 + 1 + 1 + 1)%nat with (length h0 + 4)%nat by lia. apply Hk. lia.
  - replace (length h0 + 1 + 1 + 1 + 1 + 1)%nat with (length h0 + 5)%nat by lia.
    apply Hk. lia.
  - lia.
Qed.

Lemma add_force_never_seeded (force : Obj.ForceType) (args : list Qc)
  (w : Cb.AnimatedBody * Heap) :
  never_seeded w ->
  never_seeded (fst (AnimatedBody.on_attrs (Body.add_force force args) w)).
Proof.
  intros Hw. destruct w as [[b pre post] h]. unfold AnimatedBody.on_attrs, Body.add_force.
  simpl. rewrite bind_lift. by destruct (Force.__init__ force args).
Qed.

Lemma seek_empty (v : VectorFunction.t) (i : Z) (h : Heap) :
  h !! VectorFunction.x v = Some Function.__init__ ->
  VectorFunction.seek v i h = (h, Raise IndexError).
Proof.
  intros Hx. unfold VectorFunction.seek. rewrite bind_deref, Hx, bind_lift.
  unfold Function.seek. simpl. by rewrite py_getitem_empty.
Qed.

Lemma gravity_magnitude_unseeded (sm sr : Qc) (b : Obj.Body) (h : Heap) :
  h !! VectorFunction.x (Obj.position b) = Some Function.__init__ ->
  Gravity.get_magnitude sm sr (b, h) = ((b, h), Raise IndexError).
Proof.
  intros Hx. unfold Gravity.get_magnitude.
  rewrite (bind_Ok _ _ _ (b, h) b) by done.
  apply bind_Raise. unfold on_heap. simpl. by rewrite (seek_empty _ _ _ Hx).
Qed.

Lemma tension_magnitude_no_gravity (m : math.t) (w : World) :
  List.find (fun f => bool_decide (Obj.type_of f = Obj.Gravity_t)) (Obj.forces (fst w)) = None ->
  PendulumTension.get_magnitude m w = (w, Raise KeyError).
Proof.
  intros Hfind. unfold PendulumTension.get_magnitude. apply bind_Raise.
  unfold PendulumTension.the_gravity. rewrite (bind_Ok _ _ _ w (fst w)) by done.
  by rewrite Hfind.
Qed.

Lemma tension_magnitude_unseeded (m : math.t) (b : Obj.Body) (h : Heap) :
  h !! VectorFunction.x (Obj.position b) = Some Function.__init__ ->
  PendulumTension.get_magnitude m (b, h)
  = ((b, h),
     match List.find (fun f => bool_decide (Obj.type_of f = Obj.Gravity_t)) (Obj.forces b) with
     | Some (Obj.Gravity_o _ _) => Raise IndexError
     | _ => Raise KeyError
     end).
Proof.
  intros Hx. unfold PendulumTension.get_magnitude, PendulumTension.the_gravity.
  destruct (List.find _ (Obj.forces b)) as [[|sm sr|]|] eqn:Hfind.
  - apply bind_Raise. rewrite (bind_Ok _ _ _ (b, h) b) by done. simpl. by rewrite Hfind.
  - rewrite (bind_Ok _ _ _ (b, h) (sm, sr)).
    + apply bind_Raise. by apply gravity_magnitude_unseeded.
    + rewrite (bind_Ok _ _ _ (b, h) b) by done. simpl. by rewrite Hfind.
  - apply bind_Raise. rewrite (bind_Ok _ _ _ (b, h) b) by done. simpl. by rewrite Hfind.
  - apply bind_Raise. rewrite (bind_Ok _ _ _ (b, h) b) by done. simpl. by rewrite Hfind.
Qed.

Lemma Qcdiv_0_l (a : Qc) : 0 / a = 0.
Proof. unfold Qcdiv. apply Qcmult_0_l. Qed.

(** The first [step] of a body that was never seeded. *)
Lemma first_step_run (m : math.t) (w : Cb.AnimatedBody * Heap) :
  never_seeded w ->
  AnimatedBody.step m w
  = ((advance (fst w),
      match first_step_outcome (Cb.attrs (fst w)) with
      | Ok _ => first_sample (Cb.attrs (fst w)) (snd w)
      | Raise _ => snd w
      end),
     first_step_outcome (Cb.attrs (fst w))).
Proof.
  destruct w as [[b pre post] h]. unfold never_seeded. simpl.
  intros (-> & -> & Hpx & Hpy & Hvx & Hvy & Hax & Hay & Hne).
  unfold AnimatedBody.step. rewrite (bind_Ok _ _ _ (Cb.mk b [] [], h) (Cb.mk b [] [])) by done.
  cbn [Cb.pre_step AnimatedBody.run_all]. rewrite bind_ret.
  set (b1 := Body.set_time (Obj.time b + Obj.dt b) b).
  rewrite (bind_Ok _ _ _ (Cb.mk b1 [] [], h) tt) by done.
  unfold advance. cbn [Cb.attrs Cb.pre_step Cb.post_step]. fold b1.
  assert (forall r, AnimatedBody.generate_acceleration m (b1, h) = ((b1, h), Raise r) ->
            bind (AnimatedBody.on_attrs (AnimatedBody.__step_acceleration m))
              (fun _ => bind self_ (fun self => AnimatedBody.run_all (Cb.post_step self)))
              (Cb.mk b1 [] [], h)
            = ((Cb.mk b1 [] [], h), Raise r)) as Hfail.
  { intros r Hr. apply bind_Raise. unfold AnimatedBody.on_attrs. simpl.
    unfold AnimatedBody.__step_acceleration. by rewrite (bind_Raise _ _ _ _ _ Hr). }
  assert (forall f forces r, Obj.forces b = f :: forces ->
            Force.get_magnitude m f (b1, h) = ((b1, h), Raise r) ->
            AnimatedBody.generate_acceleration m (b1, h) = ((b1, h), Raise r)) as Hforce.
  { intros f forces r Hf Hr. unfold AnimatedBody.generate_acceleration. apply bind_Raise.
    unfold Body.get_net_force. rewrite (bind_Ok _ _ _ (b1, h) b1) by done.
    cbn [b1 Body.set_time Obj.forces]. rewrite Hf. simpl. by apply bind_Raise. }
  unfold first_step_outcome. destruct (Obj.forces b) as [|f forces] eqn:Hforces.
  - assert (Body.get_net_force m (b1, h) = ((b1, h), Ok (0, 0))) as Hnet.
    { unfold Body.get_net_force. rewrite (bind_Ok _ _ _ (b1, h) b1) by done.
      cbn [b1 Body.set_time Obj.forces]. by rewrite Hforces. }
    destruct (decide (Obj.mass b = 0)) as [Hm|Hm].
    + apply Hfail.
      unfold AnimatedBody.generate_acceleration. rewrite (bind_Ok _ _ _ _ _ Hnet).
      rewrite (bind_Ok _ _ _ (b1, h) b1) by done. apply bind_Raise.
      unfold lift, py_div. cbn [b1 Body.set_time Obj.mass fst].
      by destruct (decide (Obj.mass b = 0)).
    + assert (AnimatedBody.generate_acceleration m (b1, h) = ((b1, h), Ok (0, 0))) as Hgen.
      { unfold AnimatedBody.generate_acceleration. rewrite (bind_Ok _ _ _ _ _ Hnet).
        rewrite (bind_Ok _ _ _ (b1, h) b1) by done.
        unfold py_div. cbn [b1 Body.set_time Obj.mass fst snd].
        destruct (decide (Obj.mass b = 0)) as [|_]; [done|].
        rewrite bind_lift. rewrite (bind_Ok _ _ _ (b1, h) b1) by done.
        rewrite bind_lift. change (Obj.mass b1) with (Obj.mass b).
        destruct (decide (Obj.mass b = 0)) as [|_]; [done|]. by rewrite !Qcdiv_0_l. }
      set (t1 := Obj.time b + Obj.dt b).
      set (F := fun o => Function.mk [(t1, 0)] (Function.__integral o)
                           (Function.__integration_method o)).
      assert (forall l (hh : Heap), hh !! l = Some Function.__init__ ->
                Function.insert l t1 0 false hh = (alter F l hh, Ok tt)) as Hins.
      { intros l hh Hl. rewrite (insert_no_integral l t1 0 hh Function.__init__ Hl eq_refl).
        f_equal. apply list_alter_ext; [|done..]. intros o Ho. rewrite Hl in Ho.
        by inversion Ho. }
      assert (AnimatedBody.on_attrs (AnimatedBody.__step_acceleration m) (Cb.mk b1 [] [], h)
              = ((Cb.mk b1 [] [],
                  alter F (VectorFunction.y (Obj.acceleration b))
                    (alter F (VectorFunction.x (Obj.acceleration b)) h)), Ok tt)) as Hstep.
      { unfold AnimatedBody.on_attrs. cbn [fst snd Cb.attrs Cb.pre_step Cb.post_step].
        unfold AnimatedBody.__step_acceleration. rewrite (bind_Ok _ _ _ _ _ Hgen).
        rewrite (bind_Ok _ _ _ (b1, h) b1) by done.
        unfold on_heap. cbn [fst snd b1 Body.set_time Obj.acceleration Obj.time].
        unfold VectorFunction.insert.
        rewrite (bind_Ok _ _ _ _ _ (Hins _ h Hax)).
        rewrite Hins; [done|]. by rewrite list_lookup_alter_ne. }
      by rewrite (bind_Ok _ _ _ _ _ Hstep).
  - destruct f as [|sm sr|].
    + apply Hfail. by apply (Hforce Obj.Force_o forces).
    + apply Hfail. apply (Hforce (Obj.Gravity_o sm sr) forces); [done|].
      by apply gravity_magnitude_unseeded.
    + assert (Force.get_magnitude m Obj.PendulumTension_o (b1, h)
              = ((b1, h),
                 match List.find (fun f => bool_decide (Obj.type_of f = Obj.Gravity_t))
                         (Obj.PendulumTension_o :: forces) with
                 | Some (Obj.Gravity_o _ _) => Raise IndexError
                 | _ => Raise KeyError
                 end)) as Hmag.
      { cbn [Force.get_magnitude]. rewrite (tension_magnitude_unseeded m b1 h) by done.
        cbn [b1 Body.set_time Obj.forces]. by rewrite Hforces. }
      destruct (List.find _ (Obj.PendulumTension_o :: forces)) as [[| |]|];
        apply Hfail; by apply (Hforce Obj.PendulumTension_o forces).
Qed.

(** C7 as stated fails: a body built by the constructor, with no force and
    without any call of [set_state], takes its first [step] successfully;
    with [Gravity] attached, the first [step] fails with [IndexError], not
    with the "no stored points" [ValueError]. *)
Lemma first_step_without_set_state_counterexample :
  exists ab h w1,
    AnimatedBody.__init__ (num 1 1) (num 1 2) None [] = (h, Ok ab)
    /\ snd (AnimatedBody.step no_math (ab, h)) = Ok tt
    /\ AnimatedBody.on_attrs (Body.add_force Obj.Gravity_t [num 5 1; num 6 1]) (ab, h)
       = (w1, Ok tt)
    /\ snd (AnimatedBody.step no_math w1) = Raise IndexError.
Proof.
  eexists _, _, _. split; [reflexivity|]. split; [by vm_compute|].
  split; [reflexivity|]. by vm_compute.
Qed.

(** C7, amended. When [set_state] was never called (and no callback is
    registered) the six trajectory functions are empty at the first [step()].
    That step advances [time] by [dt] and then: with no force attached and a
    non-zero mass it succeeds and stores the acceleration sample
    [(time, 0)] in both components, velocity and position staying empty;
    with [Gravity] as first force it fails with [IndexError], raised by
    [seek(-1)] on the empty position, the store untouched.  Whatever the
    forces, it never fails with the "no stored points" [ValueError]: no
    integral is cached, so no integration step runs. *)
Theorem first_step_of_never_seeded_body (m : math.t) (w : Cb.AnimatedBody * Heap) :
  never_seeded w ->
  snd (AnimatedBody.step m w) = first_step_outcome (Cb.attrs (fst w))
  /\ snd (AnimatedBody.step m w) <> Raise ValueError_no_stored_points
  /\ fst (fst (AnimatedBody.step m w)) = advance (fst w)
  /\ (Obj.forces (Cb.attrs (fst w)) = [] -> Obj.mass (Cb.attrs (fst w)) <> 0 ->
      AnimatedBody.step m w
      = ((advance (fst w), first_sample (Cb.attrs (fst w)) (snd w)), Ok tt))
  /\ (forall sm sr rest, Obj.forces (Cb.attrs (fst w)) = Obj.Gravity_o sm sr :: rest ->
      AnimatedBody.step m w = ((advance (fst w), snd w), Raise IndexError)).
Proof.
  intros Hw. rewrite (first_step_run m w Hw). simpl.
  split; [done|]. split; [|split; [done|split]].
  - unfold first_step_outcome. destruct (Obj.forces _) as [|[| |] ?]; try done.
    + by destruct (decide _).
    + by destruct (List.find _ _) as [[| |]|].
  - intros Hf Hm. unfold first_step_outcome. rewrite Hf.
    by destruct (decide (Obj.mass (Cb.attrs (fst w)) = 0)).
  - intros sm sr rest Hf. unfold first_step_outcome. by rewrite Hf.
Qed.

Lemma first_step_of_never_seeded_body_witness :
  let w := (Cb.mk (Obj.mk_Body (num 1 1) [] (VectorFunction.mk 0 1) (VectorFunction.mk 2 3)
                     (VectorFunction.mk 4 5) (num 1 2) 0 None) [] [],
            replicate 6 Function.__init__) in
  snd (AnimatedBody.step no_math w) = first_step_outcome (Cb.attrs (fst w))
  /\ snd (AnimatedBody.step no_math w) <> Raise ValueError_no_stored_points
  /\ fst (fst (AnimatedBody.step no_math w)) = advance (fst w)
  /\ (Obj.forces (Cb.attrs (fst w)) = [] -> Obj.mass (Cb.attrs (fst w)) <> 0 ->
      AnimatedBody.step no_math w
      = ((advance (fst w), first_sample (Cb.attrs (fst w)) (snd w)), Ok tt))
  /\ (forall sm sr rest, Obj.forces (Cb.attrs (fst w)) = Obj.Gravity_o sm sr :: rest ->
      AnimatedBody.step no_math w = ((advance (fst w), snd w), Raise IndexError)).
Proof.
  intros w. apply (first_step_of_never_seeded_body no_math w).
  unfold never_seeded, w. simpl. repeat split; (reflexivity || lia).
Defined.

(** C5 as stated fails: the first [step] of a body with [Gravity] attached
    and no initial state fails, and yet leaves [time] advanced. *)
Lemma failed_step_counterexample :
  exists ab h w1,
    AnimatedBody.__init__ (num 1 1) (num 1 2) None [] = (h, Ok ab)
    /\ AnimatedBody.on_attrs (Body.add_force Obj.Gravity_t [num 5 1; num 6 1]) (ab, h)
       = (w1, Ok tt)
    /\ snd (AnimatedBody.step no_math w1) = Raise IndexError
    /\ Obj.time (Cb.attrs (fst (fst (AnimatedBody.step no_math w1))))
       <> Obj.time (Cb.attrs (fst w1)).
Proof.
  eexists _, _, _. split; [reflexivity|]. split; [reflexivity|]. split; [by vm_compute|].
  apply (bool_decide_unpack _). by vm_compute.
Qed.

(** C5, amended. [step()] rolls nothing back: when a sub-step fails, the
    body is left as it is at the point of failure.  A failing pre-step
    callback leaves what the callbacks did up to the failure (and [time] not
    yet advanced); a failing acceleration update leaves [time] already
    advanced by [dt], the other attributes as the pre-step callbacks left
    them, and the store as the update left it; a failing post-step callback
    leaves the advanced time, the inserted acceleration sample and what the
    callbacks did up to the failure. *)
Theorem failed_step_keeps_partial_effects (m : math.t) (w : Cb.AnimatedBody * Heap)
  (e : Exception) :
  snd (AnimatedBody.step m w) = Raise e ->
  (snd (AnimatedBody.run_all (Cb.pre_step (fst w)) w) = Raise e
   /\ fst (AnimatedBody.step m w) = fst (AnimatedBody.run_all (Cb.pre_step (fst w)) w))
  \/ (exists w1 w2,
        AnimatedBody.run_all (Cb.pre_step (fst w)) w = (w1, Ok tt)
        /\ AnimatedBody.on_attrs (AnimatedBody.__step_acceleration m) (advance (fst w1), snd w1)
           = (w2, Raise e)
        /\ fst (AnimatedBody.step m w) = w2
        /\ fst w2 = advance (fst w1))
  \/ (exists w1 w2,
        AnimatedBody.run_all (Cb.pre_step (fst w)) w = (w1, Ok tt)
        /\ AnimatedBody.on_attrs (AnimatedBody.__step_acceleration m) (advance (fst w1), snd w1)
           = (w2, Ok tt)
        /\ fst w2 = advance (fst w1)
        /\ snd (AnimatedBody.run_all (Cb.post_step (fst w2)) w2) = Raise e
        /\ fst (AnimatedBody.step m w) = fst (AnimatedBody.run_all (Cb.post_step (fst w2)) w2)).
Proof.
  intros Hfail. unfold AnimatedBody.step in *.
  rewrite (bind_Ok _ _ _ w (fst w)) in * by done.
  destruct (AnimatedBody.run_all (Cb.pre_step (fst w)) w) as [w1 [[]|e1]] eqn:Hpre.
  2:{ rewrite (bind_Raise _ _ _ _ _ Hpre) in *. simpl in *. left. by split. }
  right. rewrite (bind_Ok _ _ _ _ _ Hpre) in *.
  assert (AnimatedBody.on_attrs
            (set_self (fun b => Body.set_time (Obj.time b + Obj.dt b) b)) w1
          = ((advance (fst w1), snd w1), Ok tt)) as Hadv by done.
  rewrite (bind_Ok _ _ _ _ _ Hadv) in *.
  assert (fst (fst (AnimatedBody.on_attrs (AnimatedBody.__step_acceleration m)
                      (advance (fst w1), snd w1))) = advance (fst w1)) as Hkeep.
  { unfold AnimatedBody.on_attrs. cbn [fst snd].
    pose proof (step_acceleration_keeps_self m (Cb.attrs (advance (fst w1)), snd w1)) as Hk.
    destruct (AnimatedBody.__step_acceleration m _) as [[b' h'] r]. simpl in *. by subst b'. }
  destruct (AnimatedBody.on_attrs (AnimatedBody.__step_acceleration m)
              (advance (fst w1), snd w1)) as [w2 [[]|e2]] eqn:Hacc; simpl in Hkeep.
  - right. rewrite (bind_Ok _ _ _ _ _ Hacc) in *.
    rewrite (bind_Ok _ _ _ w2 (fst w2)) in * by done.
    exists w1, w2. by repeat split.
  - left. rewrite (bind_Raise _ _ _ _ _ Hacc) in *. simpl in Hfail.
    inversion Hfail; subst e2. exists w1, w2. by repeat split.
Qed.

Lemma failed_step_keeps_partial_effects_witness :
  let w := (Cb.mk (Obj.mk_Body (num 1 1) [Obj.Gravity_o (num 5 1) (num 6 1)]
                     (VectorFunction.mk 0 1) (VectorFunction.mk 2 3)
                     (VectorFunction.mk 4 5) (num 1 2) 0 None) [] [],
            replicate 6 Function.__init__) in
  snd (AnimatedBody.step no_math w) = Raise IndexError
  /\ ((snd (AnimatedBody.run_all (Cb.pre_step (fst w)) w) = Raise IndexError
       /\ fst (AnimatedBody.step no_math w)
          = fst (AnimatedBody.run_all (Cb.pre_step (fst w)) w))
      \/ (exists w1 w2,
            AnimatedBody.run_all (Cb.pre_step (fst w)) w = (w1, Ok tt)
            /\ AnimatedBody.on_attrs (AnimatedBody.__step_acceleration no_math)
                 (advance (fst w1), snd w1) = (w2, Raise IndexError)
            /\ fst (AnimatedBody.step no_math w) = w2
            /\ fst w2 = advance (fst w1))
      \/ (exists w1 w2,
            AnimatedBody.run_all (Cb.pre_step (fst w)) w = (w1, Ok tt)
            /\ AnimatedBody.on_attrs (AnimatedBody.__step_acceleration no_math)
                 (advance (fst w1), snd w1) = (w2, Ok tt)
            /\ fst w2 = advance (fst w1)
            /\ snd (AnimatedBody.run_all (Cb.post_step (fst w2)) w2) = Raise IndexError
            /\ fst (AnimatedBody.step no_math w)
               = fst (AnimatedBody.run_all (Cb.post_step (fst w2)) w2))).
Proof.
  intros w.
  assert (snd (AnimatedBody.step no_math w) = Raise IndexError) as H by (by vm_compute).
  split; [exact H|]. exact (failed_step_keeps_partial_effects no_math w IndexError H).
Defined.

(** ** [PendulumTension] without [Gravity] *)

Lemma find_gravity_setitem (forces : list Obj.Force) :
  List.find (fun f => bool_decide (Obj.type_of f = Obj.Gravity_t)) forces = None ->
  List.find (fun f => bool_decide (Obj.type_of f = Obj.Gravity_t))
    (Body.forces_setitem forces Obj.PendulumTension_o) = None.
Proof.
  induction forces as [|f forces IH]; intros Hfind; simpl in *; [done|].
  destruct (bool_decide (Obj.type_of f = Obj.Gravity_t)) eqn:Hf; [done|].
  destruct (decide (Obj.type_of f = Obj.PendulumTension_t)); simpl; [done|].
  rewrite Hf. by apply IH.
Qed.

Lemma elem_of_setitem (forces : list Obj.Force) (instance : Obj.Force) :
  instance ∈ Body.forces_setitem forces instance.
Proof.
  induction forces as [|f forces IH]; simpl; [by left|].
  destruct (decide _); [by left|by right].
Qed.

(** C6 as stated fails: [PendulumTension] attaches without error to a
    pendulum that has no force at all. *)
Lemma tension_attaches_without_gravity_counterexample :
  exists ab h,
    AnimatedBody.__init__ (num 1 1) (num 1 2) (Some (Obj.mk_Pendulum (0, 0) (num 1 1))) []
    = (h, Ok ab)
    /\ Obj.forces (Cb.attrs ab) = []
    /\ snd (AnimatedBody.on_attrs (Body.add_force Obj.PendulumTension_t []) (ab, h)) = Ok tt.
Proof. eexists _, _. by repeat split. Qed.

(** C6, amended. Attaching [PendulumTension] to a body without a [Gravity]
    force succeeds: [add_force] only builds the instance and stores it.  The
    missing dependency surfaces later, as a [KeyError] (MissingDependency),
    whenever the magnitude of [PendulumTension] is computed on that body; it
    is raised before anything else is read, and changes nothing. *)
Theorem tension_without_gravity_fails_late (m : math.t) (b : Obj.Body) (h : Heap) :
  List.find (fun f => bool_decide (Obj.type_of f = Obj.Gravity_t)) (Obj.forces b) = None ->
  let w1 := fst (Body.add_force Obj.PendulumTension_t [] (b, h)) in
  snd (Body.add_force Obj.PendulumTension_t [] (b, h)) = Ok tt
  /\ snd w1 = h
  /\ Obj.PendulumTension_o ∈ Obj.forces (fst w1)
  /\ PendulumTension.get_magnitude m w1 = (w1, Raise KeyError)
  /\ Force.get_magnitude m Obj.PendulumTension_o w1 = (w1, Raise KeyError).
Proof.
  intros Hfind. simpl. split; [done|]. split; [done|]. split; [apply elem_of_setitem|].
  assert (PendulumTension.get_magnitude m
            (Body.set_forces (Body.forces_setitem (Obj.forces b) Obj.PendulumTension_o) b, h)
          = ((Body.set_forces (Body.forces_setitem (Obj.forces b) Obj.PendulumTension_o) b, h),
             Raise KeyError)) as Hmag.
  { apply tension_magnitude_no_gravity. simpl. by apply find_gravity_setitem. }
  by split.
Qed.

Lemma tension_without_gravity_fails_late_witness :
  let b := Obj.mk_Body (num 1 1) [] (VectorFunction.mk 0 1) (VectorFunction.mk 2 3)
             (VectorFunction.mk 4 5) (num 1 2) 0 (Some (Obj.mk_Pendulum (0, 0) (num 1 1))) in
  let h := replicate 6 Function.__init__ in
  let w1 := fst (Body.add_force Obj.PendulumTension_t [] (b, h)) in
  snd (Body.add_force Obj.PendulumTension_t [] (b, h)) = Ok tt
  /\ snd w1 = h
  /\ Obj.PendulumTension_o ∈ Obj.forces (fst w1)
  /\ PendulumTension.get_magnitude no_math w1 = (w1, Raise KeyError)
  /\ Force.get_magnitude no_math Obj.PendulumTension_o w1 = (w1, Raise KeyError).
Proof.
  intros b h. apply (tension_without_gravity_fails_late no_math b h). reflexivity.
Defined.

(** * Further properties *)

(** ** The binary search *)

Lemma found_when_present (pts : list point) (x : Qc) (i : nat) :
  found_or_gap pts x 0 (length pts) i -> x ∈ fst <$> pts ->
  exists p, pts !! i = Some p /\ fst p = x.
Proof.
  intros [Hr [(Hlt & p & Hp & Hpx)|[Hl Hg]]] Hx; [by exists p|].
  apply list_elem_of_fmap in Hx as (q & -> & Hq).
  apply list_elem_of_lookup_1 in Hq as [j Hj]. pose proof (lookup_lt_Some _ _ _ Hj).
  destruct (decide (j < i)%nat) as [Hji|Hji].
  - exfalso. apply (Qclt_not_eq _ _ (Hl j q ltac:(lia) Hj)). done.
  - exfalso. apply (Qclt_not_eq _ _ (Hg j q ltac:(lia) Hj)). done.
Qed.

(** X1. The binary search over all stored points always returns an index
    between 0 and the number of points.  When the stored x-values never
    decrease, every point before that index has an x-value of at most [x]
    and every point from it on an x-value of at least [x]; and when [x] is
    a stored x-value, the point at the index has x-value [x]. *)
Theorem search_best_index_finds (self : Function.t) (x : Qc) :
  exists i, Function.search_best_index self x 0 (len (Function.__points self)) = Ok (Z.of_nat i)
    /\ (i <= length (Function.__points self))%nat
    /\ (nondecreasing (Function.__points self) ->
        (forall j p, (j < i)%nat -> Function.__points self !! j = Some p -> fst p <= x)
        /\ (forall j p, (i <= j)%nat -> Function.__points self !! j = Some p -> x <= fst p)
        /\ (x ∈ fst <$> Function.__points self ->
            exists p, Function.__points self !! i = Some p /\ fst p = x)).
Proof.
  destruct (search_best_index_total self x) as (i & Hi & Hle).
  exists i. split; [done|]. split; [done|]. intros Hs.
  destruct (search_best_index_spec self x Hs) as (i' & Hi' & Hgap).
  rewrite Hi in Hi'. inversion Hi' as [Heq]. apply Nat2Z.inj in Heq. subst i'.
  destruct (found_or_gap_le _ x i Hs Hgap) as [Hl Hg].
  split; [done|]. split; [done|]. by apply found_when_present.
Qed.

Lemma search_best_index_finds_witness :
  exists i, Function.search_best_index
              (Function.mk [(num 0 1, num 5 1); (num 1 1, num 2 1); (num 3 1, num 7 2)] None None)
              (num 1 1) 0
              (len [(num 0 1, num 5 1); (num 1 1, num 2 1); (num 3 1, num 7 2)]) = Ok (Z.of_nat i)
    /\ (i <= length [(num 0 1, num 5 1); (num 1 1, num 2 1); (num 3 1, num 7 2)])%nat
    /\ (nondecreasing [(num 0 1, num 5 1); (num 1 1, num 2 1); (num 3 1, num 7 2)] ->
        (forall j p, (j < i)%nat ->
           [(num 0 1, num 5 1); (num 1 1, num 2 1); (num 3 1, num 7 2)] !! j = Some p ->
           fst p <= num 1 1)
        /\ (forall j p, (i <= j)%nat ->
              [(num 0 1, num 5 1); (num 1 1, num 2 1); (num 3 1, num 7 2)] !! j = Some p ->
              num 1 1 <= fst p)
        /\ (num 1 1 ∈ fst <$> [(num 0 1, num 5 1); (num 1 1, num 2 1); (num 3 1, num 7 2)] ->
            exists p, [(num 0 1, num 5 1); (num 1 1, num 2 1); (num 3 1, num 7 2)] !! i = Some p
                      /\ fst p = num 1 1)).
Proof.
  exact (search_best_index_finds
           (Function.mk [(num 0 1, num 5 1); (num 1 1, num 2 1); (num 3 1, num 7 2)] None None)
           (num 1 1)).
Defined.

Lemma search_rec_same_bounds (self : Function.t) (x : Qc) (d' : nat) (s : nat) :
  Function.search_best_index_rec d' self x (Z.of_nat s) (Z.of_nat s) = Ok (Z.of_nat s).
Proof. destruct d'; simpl; by rewrite Z.eqb_refl. Qed.

Lemma search_best_index_rec_depth (self : Function.t) (x : Qc) (d : nat) :
  forall s e : nat,
    (s <= e <= length (Function.__points self))%nat -> (e - s < 2 ^ d)%nat ->
    exists i, forall d', (d <= d')%nat ->
      Function.search_best_index_rec d' self x (Z.of_nat s) (Z.of_nat e) = Ok (Z.of_nat i).
Proof.
  induction d as [|d IH]; intros s e Hse Hd.
  { simpl in Hd. assert (e = s) as -> by lia. exists s. intros d' _.
    apply search_rec_same_bounds. }
  destruct (decide (s = e)) as [->|Hne].
  { exists e. intros d' _. apply search_rec_same_bounds. }
  set (o := (s + (e - s) / 2)%nat).
  assert (Ho : (Z.of_nat s + (Z.of_nat e - Z.of_nat s) `div` 2)%Z = Z.of_nat o).
  { unfold o. rewrite Nat2Z.inj_add, Nat2Z.inj_div, Nat2Z.inj_sub by lia. done. }
  assert (Hso : (s <= o < e)%nat /\ (o - s < 2 ^ d)%nat /\ (e - S o < 2 ^ d)%nat).
  { unfold o. pose proof (Nat.div_mod_eq (e - s) 2).
    pose proof (Nat.mod_upper_bound (e - s) 2). rewrite Nat.pow_succ_r' in Hd. lia. }
  destruct Hso as (Hso & Hl & Hr).
  destruct (lookup_lt_is_Some_2 (Function.__points self) o) as [p Hp]; [lia|].
  assert (forall d' i,
            (forall d'', (d <= d'')%nat ->
               match x ?= fst p with
               | Gt => Function.search_best_index_rec d'' self x (Z.of_nat (S o)) (Z.of_nat e)
               | Lt => Function.search_best_index_rec d'' self x (Z.of_nat s) (Z.of_nat o)
               | Eq => Ok (Z.of_nat o)
               end = Ok (Z.of_nat i)) ->
            (S d <= d')%nat ->
            Function.search_best_index_rec d' self x (Z.of_nat s) (Z.of_nat e)
            = Ok (Z.of_nat i)) as Hstep.
  { intros d' i Hi Hd'. destruct d' as [|d']; [lia|]. simpl.
    destruct (Z.eqb_spec (Z.of_nat s) (Z.of_nat e)) as [Heq|_]; [lia|].
    rewrite Ho, (py_getitem_nat _ _ _ Hp). simpl.
    replace (Z.of_nat o + 1)%Z with (Z.of_nat (S o)) by lia.
    specialize (Hi d' ltac:(lia)). by destruct (x ?= fst p). }
  destruct (x ?= fst p) eqn:Hc.
  - exists o. intros d' Hd'. by apply Hstep.
  - destruct (IH s o) as [i Hi]; [lia..|]. exists i. intros d' Hd'. by apply Hstep.
  - destruct (IH (S o) e) as [i Hi]; [lia..|]. exists i. intros d' Hd'. by apply Hstep.
Qed.

(** X2. The binary search nests few calls: on fewer than [2 ^ d] stored
    points a search that may nest [d] calls returns what the search returns
    and never runs out of depth. *)
Theorem search_best_index_depth (self : Function.t) (x : Qc) (d : nat) :
  (length (Function.__points self) < 2 ^ d)%nat ->
  Function.search_best_index_rec d self x 0 (len (Function.__points self))
  = Function.search_best_index self x 0 (len (Function.__points self))
  /\ Function.search_best_index_rec d self x 0 (len (Function.__points self))
     <> Raise RecursionError.
Proof.
  intros Hd. unfold Function.search_best_index, len.
  set (n := length (Function.__points self)) in *.
  set (F := S (Z.to_nat (Z.of_nat n - 0))).
  destruct (search_best_index_rec_depth self x (Nat.min d F) 0 n) as [i Hi]; [lia| |].
  { destruct (Nat.min_spec d F) as [[_ ->]|[_ ->]]; [lia|].
    unfold F. pose proof (Nat.pow_gt_lin_r 2 (S (Z.to_nat (Z.of_nat n - 0)))). lia. }
  change 0%Z with (Z.of_nat 0). rewrite (Hi d), (Hi F) by lia. done.
Qed.

Lemma search_best_index_depth_witness :
  Function.search_best_index_rec 2
    (Function.mk [(num 0 1, num 5 1); (num 1 1, num 2 1); (num 3 1, num 7 2)] None None)
    (num 2 1) 0 (len [(num 0 1, num 5 1); (num 1 1, num 2 1); (num 3 1, num 7 2)])
  = Function.search_best_index
      (Function.mk [(num 0 1, num 5 1); (num 1 1, num 2 1); (num 3 1, num 7 2)] None None)
      (num 2 1) 0 (len [(num 0 1, num 5 1); (num 1 1, num 2 1); (num 3 1, num 7 2)])
  /\ Function.search_best_index_rec 2
       (Function.mk [(num 0 1, num 5 1); (num 1 1, num 2 1); (num 3 1, num 7 2)] None None)
       (num 2 1) 0 (len [(num 0 1, num 5 1); (num 1 1, num 2 1); (num 3 1, num 7 2)])
     <> Raise RecursionError.
Proof.
  apply (search_best_index_depth
           (Function.mk [(num 0 1, num 5 1); (num 1 1, num 2 1); (num 3 1, num 7 2)] None None)
           (num 2 1) 2).
  simpl. lia.
Defined.

(** ** Interpolation between stored points *)

Lemma chord_between (ya yb k : Qc) :
  0 <= k -> k <= 1 ->
  (ya <= yb -> ya <= ya + (yb - ya) * k /\ ya + (yb - ya) * k <= yb)
  /\ (yb <= ya -> yb <= ya + (yb - ya) * k /\ ya + (yb - ya) * k <= ya).
Proof.
  intros Hk0 Hk1. split; intros Hy.
  - assert (0 <= yb - ya) as Hd.
    { pose proof (proj1 (Qcplus_le_mono_r ya yb (- ya)) Hy) as H.
      by replace (ya + - ya) with 0 in H by ring. }
    pose proof (Qcmult_nonneg_nonneg _ _ Hd Hk0) as Hw0.
    pose proof (Qcmult_le_mono_nonneg_l _ _ _ Hd Hk1) as Hw1.
    split.
    + pose proof (proj1 (Qcplus_le_mono_l _ _ ya) Hw0) as H.
      by rewrite Qcplus_0_r in H.
    + pose proof (proj1 (Qcplus_le_mono_l _ _ ya) Hw1) as H.
      by replace (ya + (yb - ya) * 1) with yb in H by ring.
  - assert (0 <= ya - yb) as Hd.
    { pose proof (proj1 (Qcplus_le_mono_r yb ya (- yb)) Hy) as H.
      by replace (yb + - yb) with 0 in H by ring. }
    pose proof (Qcmult_nonneg_nonneg _ _ Hd Hk0) as Hw0.
    pose proof (Qcmult_le_mono_nonneg_l _ _ _ Hd Hk1) as Hw1.
    split.
    + pose proof (proj1 (Qcplus_le_mono_r _ _ (yb - (ya - yb) * k)) Hw1) as H.
      replace ((ya - yb) * k + (yb - (ya - yb) * k)) with yb in H by ring.
      by replace ((ya - yb) * 1 + (yb - (ya - yb) * k)) with (ya + (yb - ya) * k) in H by ring.
    + pose proof (proj1 (Qcplus_le_mono_r _ _ (ya - (ya - yb) * k)) Hw0) as H.
      replace (0 + (ya - (ya - yb) * k)) with (ya + (yb - ya) * k) in H by ring.
      by replace ((ya - yb) * k + (ya - (ya - yb) * k)) with ya in H by ring.
Qed.

(** X3. Strictly between two neighbouring stored points of a function with
    strictly increasing x-values, a call returns the value of the chord
    through the two points, which lies between their two y-values. *)
Theorem call_interpolates (self : Function.t) (i : nat) (a b : point) (x : Qc) :
  increasing (Function.__points self) ->
  Function.__points self !! i = Some a -> Function.__points self !! S i = Some b ->
  fst a < x -> x < fst b ->
  exists v, Function.__call__ self x = Ok v
    /\ v = snd a + (snd b - snd a) / (fst b - fst a) * (x - fst a)
    /\ (snd a <= snd b -> snd a <= v /\ v <= snd b)
    /\ (snd b <= snd a -> snd b <= v /\ v <= snd a).
Proof.
  intros Hinc Ha Hb Hax Hxb.
  pose proof (increasing_nondecreasing _ Hinc) as Hnd.
  pose proof (lookup_lt_Some _ _ _ Hb) as Hlen.
  destruct (lookup_lt_is_Some_2 (Function.__points self) 0%nat) as [first Hfirst]; [lia|].
  destruct (lookup_lt_is_Some_2 (Function.__points self)
              (length (Function.__points self) - 1)%nat) as [last Hlast]; [lia|].
  assert (fst a <> fst b) as Hab.
  { apply Qclt_not_eq. by apply Qclt_trans with x. }
  eexists. split; [|split; [reflexivity|]].
  - rewrite (call_two_or_more self x first last ltac:(lia) Hfirst Hlast).
    destruct (decide (fst last < x)) as [Hxl|_].
    { exfalso. apply (Qclt_not_le _ _ Hxl). apply Qclt_le_weak.
      eapply Qclt_le_trans; [exact Hxb|].
      apply (nondecreasing_lookup (Function.__points self) (S i)
               (length (Function.__points self) - 1) b last); [done|lia|done..]. }
    destruct (decide (x < fst first)) as [Hxf|_].
    { exfalso. apply (Qclt_not_le _ _ Hxf). apply Qclt_le_weak.
      eapply Qcle_lt_trans; [|exact Hax].
      apply (nondecreasing_lookup (Function.__points self) 0 i first a); [done|lia|done..]. }
    destruct (search_best_index_spec self x Hnd) as (j & -> & Hr & Hcase). simpl.
    assert (j = S i) as ->; [|by apply segment_value_line].
    destruct Hcase as [(Hlt & p & Hp & Hpx)|[Hl Hg]].
    + exfalso. destruct (decide (j <= i)%nat) as [Hji|Hji].
      * apply (Qclt_not_le _ _ Hax). rewrite <- Hpx.
        apply (nondecreasing_lookup (Function.__points self) j i p a); [done|lia|done..].
      * apply (Qclt_not_le _ _ Hxb). rewrite <- Hpx.
        apply (nondecreasing_lookup (Function.__points self) (S i) j b p); [done|lia|done..].
    + destruct (decide (j <= i)%nat) as [Hji|Hji].
      { exfalso. apply (Qclt_not_le _ _ Hax). apply Qclt_le_weak. apply (Hg i a); [lia|done]. }
      destruct (decide (S i < j)%nat) as [Hij|Hij]; [|lia].
      exfalso. apply (Qclt_not_le _ _ Hxb). apply Qclt_le_weak. apply (Hl (S i) b); [lia|done].
  - assert (0 < fst b - fst a) as HD.
    { apply (Qcplus_lt_mono_r _ _ (fst a)). replace (fst b - fst a + fst a) with (fst b) by ring.
      rewrite Qcplus_0_l. by apply Qclt_trans with x. }
    assert (fst b - fst a <> 0) as HD0.
    { intros H0. rewrite H0 in HD. by apply (Qclt_not_eq _ _ HD). }
    set (k := (x - fst a) * / (fst b - fst a)).
    assert (0 <= k) as Hk0.
    { apply Qclt_le_weak. apply Qcmult_pos_pos; [|by apply Qcinv_pos].
      apply (Qcplus_lt_mono_r _ _ (fst a)). replace (x - fst a + fst a) with x by ring.
      by rewrite Qcplus_0_l. }
    assert (k <= 1) as Hk1.
    { apply Qclt_le_weak. replace 1 with ((fst b - fst a) * / (fst b - fst a)).
      - unfold k. apply Qcmult_lt_mono_pos_r; [by apply Qcinv_pos|].
        by apply Qcplus_lt_mono_r.
      - by apply Qcmult_inv_r. }
    replace (snd a + (snd b - snd a) / (fst b - fst a) * (x - fst a))
      with (snd a + (snd b - snd a) * k).
    + by apply chord_between.
    + unfold k. field. done.
Qed.

Lemma call_interpolates_witness :
  exists v, Function.__call__
              (Function.mk [(num 0 1, num 5 1); (num 1 1, num 2 1); (num 3 1, num 7 2)] None None)
              (num 2 1) = Ok v
    /\ v = snd (num 1 1, num 2 1)
           + (snd (num 3 1, num 7 2) - snd (num 1 1, num 2 1))
             / (fst (num 3 1, num 7 2) - fst (num 1 1, num 2 1))
             * (num 2 1 - fst (num 1 1, num 2 1))
    /\ (snd (num 1 1, num 2 1) <= snd (num 3 1, num 7 2) ->
        snd (num 1 1, num 2 1) <= v /\ v <= snd (num 3 1, num 7 2))
    /\ (snd (num 3 1, num 7 2) <= snd (num 1 1, num 2 1) ->
        snd (num 3 1, num 7 2) <= v /\ v <= snd (num 1 1, num 2 1)).
Proof.
  apply (call_interpolates
           (Function.mk [(num 0 1, num 5 1); (num 1 1, num 2 1); (num 3 1, num 7 2)] None None)
           1%nat (num 1 1, num 2 1) (num 3 1, num 7 2) (num 2 1)).
  - unfold increasing. apply (bool_decide_unpack _). vm_compute. exact I.
  - reflexivity.
  - reflexivity.
  - reflexivity.
  - reflexivity.
Defined.

(** ** Repeated abscissas, [from_iter] and [iter] *)

Lemma increasing_NoDup (pts : list point) : increasing pts -> NoDup (fst <$> pts).
Proof.
  unfold increasing. induction (fst <$> pts) as [|a xs IH]; intros Hs; [constructor|].
  apply StronglySorted_inv in Hs as [Hs Hall]. constructor; [|by apply IH].
  intros Ha. rewrite Forall_forall in Hall. by apply (Qclt_not_eq _ _ (Hall a Ha)).
Qed.

(** X4. [insert(x, y, check=True)] at a stored x-value raises the
    [ValueError] and changes nothing.  Without the check (the default) the
    same insert stores the point beside the old one, and the stored x-values
    no longer increase strictly. *)
Theorem insert_check_rejects_stored_abscissa (h : Heap) (self : nat) (o : Function.t)
  (x y : Qc) :
  wf h -> h !! self = Some o -> x ∈ fst <$> Function.__points o ->
  Function.insert self x y true h = (h, Raise ValueError_point_exists)
  /\ exists o', fst (Function.insert self x y false h) !! self = Some o'
                /\ Function.__points o' ≡ₚ (x, y) :: Function.__points o
                /\ ~ increasing (Function.__points o').
Proof.
  intros Hwf Ho Hx. split.
  - unfold Function.insert. cbn [Function.insert_rec]. unfold Function.insert_with.
    rewrite !bind_deref, Ho. by rewrite bool_decide_eq_true_2.
  - destruct (insert_effect self x y false h o Hwf Ho eq_refl) as (_ & o' & Ho' & Hp).
    exists o'. split; [done|]. rewrite Hp. split; [apply inserted_Permutation|].
    intros Hinc. apply increasing_NoDup in Hinc.
    rewrite inserted_Permutation, fmap_cons in Hinc.
    apply NoDup_cons in Hinc as [Hnin _]. by apply Hnin.
Qed.

Lemma insert_check_rejects_stored_abscissa_witness :
  Function.insert 0 (num 1 1) (num 9 1) true
    [Function.mk [(num 0 1, num 5 1); (num 1 1, num 2 1)] None None]
  = ([Function.mk [(num 0 1, num 5 1); (num 1 1, num 2 1)] None None],
     Raise ValueError_point_exists)
  /\ exists o', fst (Function.insert 0 (num 1 1) (num 9 1) false
                       [Function.mk [(num 0 1, num 5 1); (num 1 1, num 2 1)] None None])
                !! 0%nat = Some o'
                /\ Function.__points o'
                   ≡ₚ (num 1 1, num 9 1) :: [(num 0 1, num 5 1); (num 1 1, num 2 1)]
                /\ ~ increasing (Function.__points o').
Proof.
  apply (insert_check_rejects_stored_abscissa
           [Function.mk [(num 0 1, num 5 1); (num 1 1, num 2 1)] None None] 0%nat
           (Function.mk [(num 0 1, num 5 1); (num 1 1, num 2 1)] None None)
           (num 1 1) (num 9 1)).
  - apply wfb_wf. reflexivity.
  - reflexivity.
  - apply (bool_decide_unpack _). vm_compute. exact I.
Defined.

Lemma segment_value_vertical (pts : list point) (x : Qc) (index : Z) (a b : point) :
  py_getitem pts (index - 1) = Ok a -> py_getitem pts index = Ok b -> fst a = fst b ->
  segment_value pts x index = Raise ZeroDivisionError.
Proof.
  intros Ha Hb Hab. unfold segment_value. rewrite Ha, Hb. simpl. unfold py_div.
  destruct (decide (fst b - fst a = 0)) as [|Hne]; [done|].
  exfalso. apply Hne. rewrite Hab. ring.
Qed.

(** X5. Two stored points with the same x-value make calls fail with
    [ZeroDivisionError]: every call to the right of the last two points when
    these are the pair, every call to the left of the first two points when
    those are the pair (x-values never decreasing), and every call at all
    when the pair is all the function holds. *)
Theorem call_fails_on_repeated_abscissa (self : Function.t) (x : Qc) :
  (forall front a b,
     Function.__points self = front ++ [a; b] -> fst a = fst b -> fst b < x ->
     Function.__call__ self x = Raise ZeroDivisionError)
  /\ (forall a b rest,
        Function.__points self = a :: b :: rest -> nondecreasing (Function.__points self) ->
        fst a = fst b -> x < fst a ->
        Function.__call__ self x = Raise ZeroDivisionError)
  /\ (forall a b,
        Function.__points self = [a; b] -> fst a = fst b ->
        Function.__call__ self x = Raise ZeroDivisionError).
Proof.
  split; [|split].
  - intros front a b Hpts Hab Hx.
    assert (length (Function.__points self) = S (S (length front))) as Hlen.
    { rewrite Hpts, length_app. simpl. lia. }
    destruct (lookup_lt_is_Some_2 (Function.__points self) 0%nat) as [first Hfirst]; [lia|].
    assert (Function.__points self !! (length (Function.__points self) - 1)%nat = Some b)
      as Hlast.
    { rewrite Hlen, Hpts. rewrite lookup_app_r by lia.
      by replace (S (S (length front)) - 1 - length front)%nat with 1%nat by lia. }
    assert (Function.__points self !! (length (Function.__points self) - 2)%nat = Some a)
      as Ha.
    { rewrite Hlen, Hpts. rewrite lookup_app_r by lia.
      by replace (S (S (length front)) - 2 - length front)%nat with 0%nat by lia. }
    rewrite (call_two_or_more self x first b ltac:(lia) Hfirst Hlast).
    destruct (decide (fst b < x)) as [_|]; [|done]. simpl.
    apply (segment_value_vertical _ _ _ a b); [| |done].
    + replace (len (Function.__points self) - 1 - 1)%Z
        with (Z.of_nat (length (Function.__points self) - 2)) by (unfold len; lia).
      by apply py_getitem_nat.
    + replace (len (Function.__points self) - 1)%Z
        with (Z.of_nat (length (Function.__points self) - 1)) by (unfold len; lia).
      by apply py_getitem_nat.
  - intros a b rest Hpts Hnd Hab Hx.
    assert (2 <= length (Function.__points self))%nat as Hlen.
    { rewrite Hpts. simpl. lia. }
    assert (Function.__points self !! 0%nat = Some a) as Hfirst by (by rewrite Hpts).
    assert (Function.__points self !! 1%nat = Some b) as Hb by (by rewrite Hpts).
    destruct (lookup_lt_is_Some_2 (Function.__points self)
                (length (Function.__points self) - 1)%nat) as [last Hlast]; [lia|].
    rewrite (call_two_or_more self x a last Hlen Hfirst Hlast).
    destruct (decide (fst last < x)) as [Hxl|_].
    { exfalso. apply (Qclt_not_le _ _ Hxl). apply Qclt_le_weak.
      eapply Qclt_le_trans; [exact Hx|].
      apply (nondecreasing_lookup (Function.__points self) 0
               (length (Function.__points self) - 1) a last); [done|lia|done..]. }
    destruct (decide (x < fst a)) as [_|]; [|done]. simpl.
    apply (segment_value_vertical _ _ _ a b); [by apply py_getitem_0| |done].
    by apply (py_getitem_nat _ 1%nat).
  - intros a b Hpts Hab.
    assert (Function.__points self !! 0%nat = Some a) as Hfirst by (by rewrite Hpts).
    assert (Function.__points self !! (length (Function.__points self) - 1)%nat = Some b)
      as Hlast by (by rewrite Hpts).
    assert (Function.__points self !! 1%nat = Some b) as Hb by (by rewrite Hpts).
    rewrite (call_two_or_more self x a b ltac:(rewrite Hpts; simpl; lia) Hfirst Hlast).
    assert (forall r, r = Ok 1%Z ->
              (index <-? r; segment_value (Function.__points self) x index)
              = Raise ZeroDivisionError) as Hone.
    { intros r ->. simpl. apply (segment_value_vertical _ _ _ a b); [|by apply (py_getitem_nat _ 1%nat)|done].
      by apply py_getitem_0. }
    apply Hone.
    destruct (decide (fst b < x)) as [_|Hxb]; [by rewrite Hpts|].
    destruct (decide (x < fst a)) as [_|Hxa]; [done|].
    assert (x = fst b) as ->.
    { apply Qcle_antisym; [by apply Qcle_ngt|]. rewrite <- Hab. by apply Qcle_ngt. }
    rewrite Hpts. unfold Function.search_best_index, len. simpl.
    rewrite Hpts. simpl.
    assert ((fst b ?= fst b) = Eq) as -> by (by apply Qceq_alt). done.
Qed.

Lemma call_fails_on_repeated_abscissa_witness :
  Function.__call__ (Function.mk [(num 0 1, num 5 1); (num 1 1, num 2 1); (num 1 1, num 3 1)]
                       None None) (num 2 1)
  = Raise ZeroDivisionError.
Proof.
  apply (proj1 (call_fails_on_repeated_abscissa
                  (Function.mk [(num 0 1, num 5 1); (num 1 1, num 2 1); (num 1 1, num 3 1)]
                     None None) (num 2 1))
           [(num 0 1, num 5 1)] (num 1 1, num 2 1) (num 1 1, num 3 1)).
  - reflexivity.
  - reflexivity.
  - reflexivity.
Defined.

Lemma increasing_by_points (pts : list point) :
  increasing pts -> StronglySorted (fun p q : point => fst p < fst q) pts.
Proof.
  unfold increasing. induction pts as [|p pts IH]; intros Hs; [constructor|].
  rewrite fmap_cons in Hs. apply StronglySorted_inv in Hs as [Hs Hall].
  constructor; [by apply IH|]. by rewrite Forall_fmap in Hall.
Qed.

Lemma increasing_unique (l1 l2 : list point) :
  increasing l1 -> increasing l2 -> l1 ≡ₚ l2 -> l1 = l2.
Proof.
  intros H1 H2 HP.
  apply (StronglySorted_unique_strong (fun p q : point => fst p < fst q));
    [|by apply increasing_by_points..|done].
  intros p q _ _ Hpq Hqp. exfalso. apply (Qclt_not_le _ _ Hpq). by apply Qclt_le_weak.
Qed.

(** X6. [from_iter] does not depend on the order of its input: two
    arrangements of the same points with distinct x-values give the same
    store and the same function, whose points are those given, strictly
    increasing in x. *)
Theorem from_iter_order_independent (l1 l2 : list point) (h : Heap) :
  NoDup (fst <$> l1) -> l1 ≡ₚ l2 ->
  Function.from_iter l1 h = Function.from_iter l2 h
  /\ exists o, fst (Function.from_iter l1 h) !! length h = Some o
               /\ increasing (Function.__points o) /\ Function.__points o ≡ₚ l1.
Proof.
  intros Hnd HP. rewrite !from_iter_eq.
  assert (NoDup (fst <$> l2)) as Hnd2 by (by rewrite <- HP).
  destruct (insert_all_sorted l1 [] ltac:(constructor)) as (_ & HP1 & Hinc1).
  destruct (insert_all_sorted l2 [] ltac:(constructor)) as (_ & HP2 & Hinc2).
  specialize (Hinc1 ltac:(constructor) Hnd). specialize (Hinc2 ltac:(constructor) Hnd2).
  simpl in HP1, HP2.
  assert (insert_all [] l1 = insert_all [] l2) as Heq.
  { apply increasing_unique; [done..|]. by rewrite HP1, HP2. }
  split; [by rewrite Heq|].
  eexists. split; [by apply lookup_app_last|]. done.
Qed.

Lemma from_iter_order_independent_witness :
  Function.from_iter [(num 3 1, num 7 2); (num 0 1, num 5 1); (num 1 1, num 2 1)] []
  = Function.from_iter [(num 0 1, num 5 1); (num 1 1, num 2 1); (num 3 1, num 7 2)] []
  /\ exists o,
       fst (Function.from_iter [(num 3 1, num 7 2); (num 0 1, num 5 1); (num 1 1, num 2 1)] [])
       !! length (@nil Function.t) = Some o
       /\ increasing (Function.__points o)
       /\ Function.__points o ≡ₚ [(num 3 1, num 7 2); (num 0 1, num 5 1); (num 1 1, num 2 1)].
Proof.
  apply (from_iter_order_independent
           [(num 3 1, num 7 2); (num 0 1, num 5 1); (num 1 1, num 2 1)]
           [(num 0 1, num 5 1); (num 1 1, num 2 1); (num 3 1, num 7 2)] []).
  - apply (bool_decide_unpack _). vm_compute. exact I.
  - apply (bool_decide_unpack _). vm_compute. exact I.
Defined.

(** X7. Round trip: [from_iter] over the points that [iter] yields for a
    function with strictly increasing x-values makes a new function with
    exactly the points of that function, in the same order, and no integral. *)
Theorem from_iter_of_iter (self : Function.t) (h : Heap) :
  increasing (Function.__points self) ->
  Function.from_iter (Function.__iter__ self) h
  = (h ++ [Function.mk (Function.__points self) None None], Ok (length h)).
Proof.
  intros Hinc. rewrite from_iter_eq. unfold Function.__iter__.
  destruct (insert_all_sorted (Function.__points self) [] ltac:(constructor))
    as (_ & HP & Hinc').
  assert (NoDup (fst <$> Function.__points self)) as Hnd.
  { by apply increasing_NoDup. }
  specialize (Hinc' ltac:(constructor) Hnd). simpl in HP.
  by rewrite (increasing_unique _ _ Hinc' Hinc HP).
Qed.

Lemma from_iter_of_iter_witness :
  Function.from_iter
    (Function.__iter__ (Function.mk [(num 0 1, num 5 1); (num 1 1, num 2 1)] None (Some RK4))) []
  = ([] ++ [Function.mk [(num 0 1, num 5 1); (num 1 1, num 2 1)] None None],
     Ok (length (@nil Function.t))).
Proof.
  apply (from_iter_of_iter
           (Function.mk [(num 0 1, num 5 1); (num 1 1, num 2 1)] None (Some RK4)) []).
  unfold increasing. apply (bool_decide_unpack _). vm_compute. exact I.
Defined.

(** ** [append], [pop] and the cached integral *)

Lemma alter_as_insert {A : Type} (f : A -> A) (l : list A) (i : nat) (a : A) :
  l !! i = Some a -> alter f i l = <[i := f a]> l.
Proof.
  intros Hl. rewrite list_insert_alter. apply list_alter_ext; [|done].
  intros b Hb. rewrite Hl in Hb. by inversion Hb.
Qed.

Lemma py_pop_last {A : Type} (l : list A) (a : A) : py_pop (l ++ [a]) (-1) = Ok (a, l).
Proof.
  unfold py_pop, len. rewrite length_app. simpl.
  assert ((Z.of_nat (length l + 1) + -1)%Z = Z.of_nat (length l)) as -> by lia.
  assert (((0 <=? Z.of_nat (length l)) && (Z.of_nat (length l) <? Z.of_nat (length l + 1)))%Z
          = true) as ->.
  { apply andb_true_intro. split; [apply Z.leb_le|apply Z.ltb_lt]; lia. }
  rewrite Nat2Z.id, (lookup_app_last l a (length l) eq_refl).
  rewrite take_app_length. rewrite drop_ge by (rewrite length_app; simpl; lia).
  by rewrite app_nil_r.
Qed.

(** One level of a trailing [insert]: the new point is stored, and the step
    of the integral's scheme hands its sample to the [insert] of the
    integral. *)
Lemma insert_rec_trailing (k : nat) (h : Heap) (self g : nat) (o go : Function.t)
  (m : IntegrationMethod) (x y : Qc) (check : bool) :
  h !! self = Some o -> Function.__integral o = Some g -> self <> g -> h !! g = Some go ->
  Function.__integration_method go = Some m ->
  check && bool_decide (x ∈ fst <$> Function.__points o) = false ->
  Function.search_best_index o x 0 (len (Function.__points o))
  = Ok (len (Function.__points o)) ->
  Function.insert_rec (S k) self x y check h
  = match sample m (Function.mk (Function.__points o ++ [(x, y)]) None None)
            (Function.__points go) (trailing_dx (Function.__points o) x) with
    | Ok p =>
        Function.insert_rec k g (fst p) (snd p) false
          (<[self := Function.mk (Function.__points o ++ [(x, y)]) (Some g)
                       (Function.__integration_method o)]> h)
    | Raise e =>
        (<[self := Function.mk (Function.__points o ++ [(x, y)]) (Some g)
                     (Function.__integration_method o)]> h, Raise e)
    end.
Proof.
  intros Ho Hg Hsg Hgo Hm Hcheck Hi.
  pose proof (lookup_lt_Some _ _ _ Ho) as Hlt.
  set (pts' := Function.__points o ++ [(x, y)]).
  set (cell1 := Function.mk pts' (Some g) (Function.__integration_method o)).
  set (h1 := <[self := cell1]> h).
  assert (h1 !! self = Some cell1) as H1 by (by apply list_lookup_insert_eq).
  assert (h1 !! g = Some go) as H1g by (unfold h1; by rewrite list_lookup_insert_ne).
  set (dx := trailing_dx (Function.__points o) x).
  set (ins := Function.insert_rec k).
  cbn [Function.insert_rec]. fold ins.
  unfold Function.insert_with at 1. rewrite bind_deref, Ho, Hcheck, bind_lift, Hi.
  unfold bind at 1. unfold Function.set_points at 1. rewrite py_insert_end. fold pts'.
  assert (alter (fun o0 => Function.mk pts' (Function.__integral o0)
                             (Function.__integration_method o0)) self h = h1) as ->.
  { rewrite (alter_as_insert _ _ _ _ Ho). unfold h1, cell1. by rewrite Hg. }
  rewrite bind_deref, H1. cbn [Function.__integral Function.__points cell1].
  assert (len pts' - 1 = len (Function.__points o))%Z as ->.
  { unfold pts', len. rewrite length_app. simpl. lia. }
  rewrite Z.eqb_refl. unfold Function.__update_integral_with.
  rewrite bind_the_integral, H1. cbn [Function.__integral cell1].
  rewrite bind_deref, H1g, Hm.
  assert (bind (Function.the_integral self)
            (fun f => bind (Function.last_dx self)
                        (fun dx => step_with ins m f self dx)) h1
          = match sample m cell1 (Function.__points go) dx with
            | Ok p => ins g (fst p) (snd p) false h1
            | Raise e => (h1, Raise e)
            end) as Hstep.
  { rewrite bind_the_integral, H1. cbn [Function.__integral cell1].
    rewrite (bind_Ok _ _ _ _ _ (last_dx_run self h1 cell1 (Function.__points o) x y
                                  H1 eq_refl)).
    by apply step_with_run. }
  rewrite (sample_points m (Function.mk pts' None None) cell1) by done.
  by destruct m.
Qed.

(** A trailing [insert] when the cached integral has no cached integral of
    its own. *)
Lemma insert_trailing_simple (h : Heap) (self g : nat) (o go : Function.t)
  (m : IntegrationMethod) (x y : Qc) (p : point) :
  h !! self = Some o -> Function.__integral o = Some g -> self <> g -> h !! g = Some go ->
  Function.__integration_method go = Some m -> Function.__integral go = None ->
  Function.search_best_index o x 0 (len (Function.__points o))
  = Ok (len (Function.__points o)) ->
  sample m (Function.mk (Function.__points o ++ [(x, y)]) None None)
    (Function.__points go) (trailing_dx (Function.__points o) x) = Ok p ->
  Function.insert self x y false h
  = (<[g := Function.mk (inserted (Function.__points go) (fst p) (snd p)) None (Some m)]>
       (<[self := Function.mk (Function.__points o ++ [(x, y)]) (Some g)
                    (Function.__integration_method o)]> h), Ok tt).
Proof.
  intros Ho Hg Hsg Hgo Hm Hgg Hi Hp. unfold Function.insert.
  rewrite (insert_rec_trailing _ h self g o go m x y false Ho Hg Hsg Hgo Hm eq_refl Hi), Hp.
  pose proof (lookup_lt_Some _ _ _ Ho) as Hlt.
  destruct (length h) as [|n] eqn:Hn; [lia|].
  assert (<[self := Function.mk (Function.__points o ++ [(x, y)]) (Some g)
                      (Function.__integration_method o)]> h !! g = Some go) as H1g.
  { by rewrite list_lookup_insert_ne. }
  rewrite (insert_rec_simple n g (fst p) (snd p) _ go H1g Hgg).
  f_equal. rewrite (alter_as_insert _ _ _ _ H1g). destruct go as [gp gi gm].
  simpl in *. by rewrite Hgg, Hm.
Qed.

(** X8. On a function without a cached integral whose x-values never
    decrease, [append(dx, dy)] with [dx > 0] followed by [pop()] returns the
    appended point, the last point moved by [(dx, dy)], and leaves the store
    as it was. *)
Theorem append_then_pop_restores (h : Heap) (f : nat) (fo : Function.t) (last : point)
  (dx dy : Qc) :
  h !! f = Some fo -> Function.__integral fo = None ->
  nondecreasing (Function.__points fo) ->
  Function.__points fo !! (length (Function.__points fo) - 1)%nat = Some last -> 0 < dx ->
  (Function.append f dx dy;; Function.pop f (-1)) h
  = (h, Ok (fst last + dx, snd last + dy)).
Proof.
  intros Hf Hg Hnd Hlast Hdx. unfold Function.append.
  assert (Function.append_with Function.insert f dx dy h
          = (<[f := Function.mk (Function.__points fo ++ [(fst last + dx, snd last + dy)])
                      None (Function.__integration_method fo)]> h, Ok tt)) as Happ.
  { rewrite (append_with_eq _ f dx dy h fo last Hf Hlast).
    rewrite (insert_no_integral f _ _ h fo Hf Hg), (alter_as_insert _ _ _ _ Hf), Hg.
    rewrite inserted_at_end; [done|done|]. by apply (below_last_plus _ last). }
  rewrite (bind_Ok _ _ _ _ _ Happ). unfold Function.pop.
  pose proof (lookup_lt_Some _ _ _ Hf) as Hlt.
  rewrite bind_deref, list_lookup_insert_eq by done. cbn [Function.__points].
  rewrite bind_lift, py_pop_last. cbn [fst snd].
  unfold bind, Function.set_points, ret.
  rewrite (alter_as_insert _ _ _ _ (list_lookup_insert_eq _ _ _ Hlt)).
  cbn [Function.__points Function.__integral Function.__integration_method].
  rewrite list_insert_insert_eq. f_equal.
  apply list_insert_id. rewrite Hf. destruct fo. simpl in *. by rewrite Hg.
Qed.

Lemma append_then_pop_restores_witness :
  (Function.append 0 (num 1 2) (num 3 1);; Function.pop 0 (-1))
    [Function.mk [(num 0 1, num 5 1); (num 1 1, num 2 1)] None None]
  = ([Function.mk [(num 0 1, num 5 1); (num 1 1, num 2 1)] None None],
     Ok (fst (num 1 1, num 2 1) + num 1 2, snd (num 1 1, num 2 1) + num 3 1)).
Proof.
  apply (append_then_pop_restores
           [Function.mk [(num 0 1, num 5 1); (num 1 1, num 2 1)] None None] 0%nat
           (Function.mk [(num 0 1, num 5 1); (num 1 1, num 2 1)] None None)
           (num 1 1, num 2 1) (num 1 2) (num 3 1)).
  - reflexivity.
  - reflexivity.
  - unfold nondecreasing. apply (bool_decide_unpack _). vm_compute. exact I.
  - reflexivity.
  - reflexivity.
Defined.

Lemma search_above_all (o : Function.t) (x : Qc) :
  nondecreasing (Function.__points o) ->
  (forall p, p ∈ Function.__points o -> fst p < x) ->
  Function.search_best_index o x 0 (len (Function.__points o))
  = Ok (len (Function.__points o)).
Proof.
  intros Hnd Hbelow.
  destruct (search_best_index_spec o x Hnd) as (i & Hi & Hr & Hcase). rewrite Hi.
  f_equal. unfold len. f_equal.
  destruct (decide (i = length (Function.__points o))) as [|Hne']; [done|]. exfalso.
  destruct (lookup_lt_is_Some_2 (Function.__points o) i) as [q Hq]; [lia|].
  pose proof (Hbelow q (list_elem_of_lookup_2 _ _ _ Hq)) as Hqx.
  destruct Hcase as [(_ & r & Hr1 & Hr2)|[_ Hg']].
  - rewrite Hq in Hr1. inversion Hr1; subst r. by apply (Qclt_not_eq _ _ Hqx).
  - apply (Qclt_not_le _ _ Hqx). apply Qclt_le_weak. apply (Hg' i q); [lia|done].
Qed.

Lemma trailing_dx_last (pts : list point) (last : point) (x : Qc) :
  pts !! (length pts - 1)%nat = Some last -> trailing_dx pts x = x - fst last.
Proof.
  intros Hlast. unfold trailing_dx. rewrite last_lookup.
  replace (pred (length pts)) with (length pts - 1)%nat by lia. by rewrite Hlast.
Qed.



Lemma call_two_equal (self : Function.t) (a b : point) (x : Qc) :
  Function.__points self = [a; b] -> fst a = fst b ->
  Function.__call__ self x = Raise ZeroDivisionError.
Proof.
  intros Hpts Hab.
  assert (Function.__points self !! 0%nat = Some a) as Hfirst by (by rewrite Hpts).
  assert (Function.__points self !! (length (Function.__points self) - 1)%nat = Some b)
    as Hlast by (by rewrite Hpts).
  assert (Function.__points self !! 1%nat = Some b) as Hb by (by rewrite Hpts).
  rewrite (call_two_or_more self x a b ltac:(rewrite Hpts; simpl; lia) Hfirst Hlast).
  assert (forall r, r = Ok 1%Z ->
            (index <-? r; segment_value (Function.__points self) x index)
            = Raise ZeroDivisionError) as Hone.
  { intros r ->. simpl.
    apply (segment_value_vertical _ _ _ a b); [|by apply (py_getitem_nat _ 1%nat)|done].
    by apply py_getitem_0. }
  apply Hone.
  destruct (decide (fst b < x)) as [_|Hxb]; [by rewrite Hpts|].
  destruct (decide (x < fst a)) as [_|Hxa]; [done|].
  assert (x = fst b) as ->.
  { apply Qcle_antisym; [by apply Qcle_ngt|]. rewrite <- Hab. by apply Qcle_ngt. }
  rewrite Hpts. unfold Function.search_best_index, len. simpl.
  rewrite Hpts. simpl.
  assert ((fst b ?= fst b) = Eq) as -> by (by apply Qceq_alt). done.
Qed.

Lemma sample_zero_step (m : IntegrationMethod) (d : Function.t) (seed p : point) :
  Function.__points d = [p] ->
  sample m d [seed] 0 = Ok seed.
Proof.
  intros Hd. destruct seed as [sx sy]. unfold sample, Function.seek, Function.__call__.
  rewrite Hd. destruct m; simpl; f_equal; f_equal; try ring.
  - unfold Qcdiv. ring.
  - unfold Qcdiv. ring.
Qed.

(** X10. [integral(method, x_i, y_i)] of a function without points,
    followed by the first [insert] into that function, leaves the integral
    with the seed [(x_i, y_i)] stored twice, whatever the scheme and the
    point inserted; every call of that integral then raises
    [ZeroDivisionError]. *)
Theorem first_insert_repeats_the_seed (h : Heap) (self : nat) (o : Function.t)
  (m : IntegrationMethod) (x_i y_i x y : Qc) :
  h !! self = Some o -> Function.__points o = [] ->
  exists h' go,
    (Function.integral self (Some m) x_i y_i;; Function.insert self x y false) h = (h', Ok tt)
    /\ integral_of h' self = Some go
    /\ Function.__points go = [(x_i, y_i); (x_i, y_i)]
    /\ forall x', Function.__call__ go x' = Raise ZeroDivisionError.
Proof.
  intros Ho Hpts. pose proof (lookup_lt_Some _ _ _ Ho) as Hlt.
  unfold Function.integral.
  pose proof (integral_with_run _ insert_simple self (Some m) x_i y_i h o Ho) as Hrun.
  unfold integral_points in Hrun. rewrite Hpts in Hrun.
  cbn [drop integral_points_loop fst snd] in Hrun.
  rewrite (alter_as_insert _ _ _ _ Ho), Hpts in Hrun.
  rewrite (bind_Ok _ _ _ _ _ Hrun).
  set (cell := Function.mk [] (Some (length h)) (Function.__integration_method o)).
  set (h2 := <[self := cell]> h ++ [Function.mk [(x_i, y_i)] None (Some m)]).
  assert (h2 !! self = Some cell) as H2.
  { unfold h2. rewrite lookup_app_l by (rewrite length_insert; lia).
    by apply list_lookup_insert_eq. }
  assert (h2 !! length h = Some (Function.mk [(x_i, y_i)] None (Some m))) as H2g.
  { unfold h2. apply lookup_app_last. by rewrite length_insert. }
  rewrite (insert_trailing_simple h2 self (length h) cell _ m x y (x_i, y_i) H2 eq_refl
             ltac:(lia) H2g eq_refl eq_refl);
    [|done|by apply (sample_zero_step m _ (x_i, y_i) (x, y))].
  cbn [Function.__points cell fst snd app].
  pose proof (inserted_last_again [(x_i, y_i)] (x_i, y_i)
                ltac:(repeat constructor) eq_refl) as Hins.
  cbn [fst snd app] in Hins. rewrite Hins.
  eexists _, (Function.mk [(x_i, y_i); (x_i, y_i)] None (Some m)).
  split; [reflexivity|]. split; [|split; [reflexivity|]].
  - unfold integral_of.
    assert (length (<[self := Function.mk [(x, y)] (Some (length h))
                                (Function.__integration_method cell)]> h2) = S (length h))
      as Hl.
    { rewrite length_insert. unfold h2. rewrite length_app, length_insert. simpl. lia. }
    rewrite list_lookup_insert_ne by lia.
    rewrite list_lookup_insert_eq by (unfold h2; rewrite length_app, length_insert; lia).
    cbn [Function.__integral]. rewrite list_lookup_insert_eq by lia. done.
  - intros x'. by apply (call_two_equal _ (x_i, y_i) (x_i, y_i)).
Qed.

Lemma first_insert_repeats_the_seed_witness :
  exists h' go,
    (Function.integral 0 (Some RK4) (num 0 1) (num 4 1);;
     Function.insert 0 (num 1 1) (num 2 1) false) [Function.__init__] = (h', Ok tt)
    /\ integral_of h' 0 = Some go
    /\ Function.__points go = [(num 0 1, num 4 1); (num 0 1, num 4 1)]
    /\ forall x', Function.__call__ go x' = Raise ZeroDivisionError.
Proof.
  apply (first_insert_repeats_the_seed [Function.__init__] 0%nat Function.__init__ RK4
           (num 0 1) (num 4 1) (num 1 1) (num 2 1)).
  - reflexivity.
  - reflexivity.
Defined.

(** ** The points of a new integral *)


(** X11. [integral(method, x_i, y_i)] of a function with strictly
    increasing x-values succeeds for every scheme; the integral starts at
    [(x_i, y_i)], its x-values are those of the function moved by
    [x_i] minus the first of them, and they increase strictly. *)
Theorem integral_keeps_the_grid (h : Heap) (self : nat) (o : Function.t)
  (m : IntegrationMethod) (x_i y_i : Qc) (first : point) :
  h !! self = Some o -> increasing (Function.__points o) ->
  Function.__points o !! 0%nat = Some first ->
  snd (Function.integral self (Some m) x_i y_i h) = Ok (length h)
  /\ exists fo,
       integral_of (fst (Function.integral self (Some m) x_i y_i h)) self = Some fo
       /\ Function.__points fo !! 0%nat = Some (x_i, y_i)
       /\ fst <$> Function.__points fo
          = (fun p => x_i + (fst p - fst first)) <$> Function.__points o
       /\ increasing (Function.__points fo).
Proof.
  intros Ho Hinc Hfirst.
  destruct (integral_run self (Some m) x_i y_i h o Ho) as [Hint Hres].
  unfold integral_points in Hint, Hres.
  change (integral_points_loop m o 1) with (integral_points_loop m o (Z.of_nat 1)) in *.
  pose proof (lookup_lt_Some _ _ _ Hfirst) as Hlen.
  destruct (integral_points_loop_grid m o Hinc (length (Function.__points o) - 1) 1
              [(x_i, y_i)] (x_i, y_i) first) as (out & Hout & Hfst);
    [lia|lia|done|repeat constructor|done|].
  rewrite Hout in Hint, Hres. split; [done|].
  eexists. split; [exact Hint|]. cbn [Function.__points fst].
  assert (fst <$> [(x_i, y_i)] ++ out
          = (fun p => x_i + (fst p - fst first)) <$> Function.__points o) as Hgrid.
  { rewrite fmap_app, Hfst. cbn [fst].
    rewrite <- (take_drop 1 (Function.__points o)) at 2. rewrite fmap_app. f_equal.
    destruct (Function.__points o) as [|q pts]; [done|]. inversion Hfirst; subst q.
    simpl. f_equal. ring. }
  split; [done|]. split; [done|].
  unfold increasing. rewrite Hgrid.
  replace ((fun p : point => x_i + (fst p - fst first)) <$> Function.__points o)
    with ((fun x => x_i + (x - fst first)) <$> (fst <$> Function.__points o))
    by (by rewrite <- list_fmap_compose).
  apply (StronglySorted_fmap _ Qclt Qclt); [|done].
  intros a b Hab. apply Qcplus_lt_mono_l. by apply Qcplus_lt_mono_r.
Qed.

Lemma integral_keeps_the_grid_witness :
  snd (Function.integral 0 (Some TRAPEZOIDAL) (num 5 1) (num 0 1)
         [Function.mk [(num 0 1, num 1 1); (num 1 1, num 4 1); (num 3 1, num 2 1)] None None])
  = Ok (length [Function.mk [(num 0 1, num 1 1); (num 1 1, num 4 1); (num 3 1, num 2 1)]
                  None None])
  /\ exists fo,
       integral_of
         (fst (Function.integral 0 (Some TRAPEZOIDAL) (num 5 1) (num 0 1)
                 [Function.mk [(num 0 1, num 1 1); (num 1 1, num 4 1); (num 3 1, num 2 1)]
                    None None])) 0 = Some fo
       /\ Function.__points fo !! 0%nat = Some (num 5 1, num 0 1)
       /\ fst <$> Function.__points fo
          = (fun p => num 5 1 + (fst p - fst (num 0 1, num 1 1)))
              <$> [(num 0 1, num 1 1); (num 1 1, num 4 1); (num 3 1, num 2 1)]
       /\ increasing (Function.__points fo).
Proof.
  apply (integral_keeps_the_grid
           [Function.mk [(num 0 1, num 1 1); (num 1 1, num 4 1); (num 3 1, num 2 1)] None None]
           0%nat
           (Function.mk [(num 0 1, num 1 1); (num 1 1, num 4 1); (num 3 1, num 2 1)] None None)
           TRAPEZOIDAL (num 5 1) (num 0 1) (num 0 1, num 1 1)).
  - reflexivity.
  - unfold increasing. apply (bool_decide_unpack _). vm_compute. exact I.
  - reflexivity.
Defined.




(** ** The sample of a trailing insert *)




Lemma below_beyond_last (front : list point) (l : point) (x : Qc) :
  nondecreasing (front ++ [l]) -> fst l < x ->
  forall p, p ∈ front ++ [l] -> fst p < x.
Proof.
  intros Hnd Hx p Hp. apply list_elem_of_lookup_1 in Hp as [j Hj].
  pose proof (lookup_lt_Some _ _ _ Hj) as Hlt. rewrite length_app in Hlt. simpl in Hlt.
  eapply Qcle_lt_trans; [|exact Hx].
  apply (nondecreasing_lookup (front ++ [l]) j (length front) p l); [done|lia|done|].
  by rewrite lookup_app_r, Nat.sub_diag by lia.
Qed.



(** ** Uniform grids *)

Lemma after_shift (x dx : Qc) (n : nat) : after (x + dx) dx n = after x dx n + dx.
Proof. unfold after. induction n as [|n IH]; [done|]. simpl. by rewrite IH. Qed.

Lemma uniform_snoc (x dx c : Qc) (n : nat) :
  uniform x dx c (S n) = uniform x dx c n ++ [(after x dx n, c)].
Proof.
  revert x. induction n as [|n IH]; intros x; [done|].
  change (uniform x dx c (S (S n))) with ((x, c) :: uniform (x + dx) dx c (S n)).
  rewrite IH, after_shift. reflexivity.
Qed.

Lemma ramp_snoc (x y dx dy : Qc) (n : nat) :
  ramp x y dx dy (S n) = ramp x y dx dy n ++ [(after x dx n, after y dy n)].
Proof.
  revert x y. induction n as [|n IH]; intros x y; [done|].
  change (ramp x y dx dy (S (S n))) with ((x, y) :: ramp (x + dx) (y + dy) dx dy (S n)).
  rewrite IH, !after_shift. reflexivity.
Qed.

Lemma ramp_abscissas (x y dx dy : Qc) (n : nat) :
  fst <$> ramp x y dx dy n = fst <$> uniform x dx 0 n.
Proof. revert x y. induction n as [|n IH]; intros x y; [done|]. simpl. by rewrite IH. Qed.

Lemma ramp_increasing (x y dx dy : Qc) (n : nat) : 0 < dx -> increasing (ramp x y dx dy n).
Proof.
  intros Hdx. unfold increasing. rewrite ramp_abscissas. by apply uniform_increasing.
Qed.

Lemma num_0 : num 0 1 = 0.
Proof. by apply Qc_is_canon. Qed.

Lemma num_of_Z (n : Z) : num n 1 = Qc_of_Z n.
Proof. apply Qc_is_canon. simpl. apply Qred_correct. Qed.

Lemma num_succ (n : nat) : num (Z.of_nat (S n)) 1 = num (Z.of_nat n) 1 + 1.
Proof.
  replace (Z.of_nat (S n)) with (Z.of_nat n + 1)%Z by lia.
  by rewrite !num_of_Z, Z2Qc_inj_add, Z2Qc_inj_1.
Qed.

Lemma after_closed (x dx : Qc) (n : nat) : after x dx n = x + num (Z.of_nat n) 1 * dx.
Proof.
  induction n as [|n IH].
  - change (Z.of_nat 0) with 0%Z. rewrite num_0. change (after x dx 0) with x. ring.
  - change (after x dx (S n)) with (after x dx n + dx). rewrite IH, num_succ. ring.
Qed.

Lemma ramp_lookup (x y dx dy : Qc) (n k : nat) :
  (k < n)%nat ->
  ramp x y dx dy n !! k
  = Some (x + num (Z.of_nat k) 1 * dx, y + num (Z.of_nat k) 1 * dy).
Proof.
  induction n as [|n IH]; intros Hk; [lia|]. rewrite ramp_snoc.
  destruct (decide (k < n)%nat) as [Hlt|Hge].
  - rewrite lookup_app_l by (rewrite length_ramp; lia). by apply IH.
  - assert (k = n) as -> by lia.
    rewrite lookup_app_r by (rewrite length_ramp; lia). rewrite length_ramp, Nat.sub_diag.
    simpl. by rewrite !after_closed.
Qed.

Lemma uniform_below_next (x dx c : Qc) (n : nat) :
  0 < dx -> forall p, p ∈ uniform x dx c (S n) -> fst p < after x dx (S n).
Proof.
  intros Hdx. rewrite uniform_snoc.
  apply (below_beyond_last _ (after x dx n, c)).
  - rewrite <- uniform_snoc. apply increasing_nondecreasing. by apply uniform_increasing.
  - simpl. rewrite <- (Qcplus_0_r (after x dx n)) at 1. by apply Qcplus_lt_mono_l.
Qed.

Lemma ramp_below_next (x y dx dy : Qc) (n : nat) :
  0 < dx -> forall p, p ∈ ramp x y dx dy (S n) -> fst p < after x dx (S n).
Proof.
  intros Hdx. rewrite ramp_snoc.
  apply (below_beyond_last _ (after x dx n, after y dy n)).
  - rewrite <- ramp_snoc. apply increasing_nondecreasing. by apply ramp_increasing.
  - simpl. rewrite <- (Qcplus_0_r (after x dx n)) at 1. by apply Qcplus_lt_mono_l.
Qed.

(** A trailing insert of a zero into a function that is zero on a uniform
    grid, whose cached integral is constant and has a cached integral of its
    own: one sample goes to each of the three functions. *)
Lemma insert_zero_chain (h : Heap) (a v p : nat) (n : nat) (dt vv x0 : Qc)
  (ma : option IntegrationMethod) (scheme : IntegrationMethod) :
  0 < dt -> a <> v -> v <> p -> a <> p ->
  h !! a = Some (Function.mk (uniform 0 dt 0 (S n)) (Some v) ma) ->
  h !! v = Some (Function.mk (uniform 0 dt vv (S n)) (Some p) (Some scheme)) ->
  h !! p = Some (Function.mk (ramp 0 x0 dt (vv * dt) (S n)) None (Some scheme)) ->
  Function.insert a (after 0 dt (S n)) 0 false h
  = (<[p := Function.mk (ramp 0 x0 dt (vv * dt) (S (S n))) None (Some scheme)]>
       (<[v := Function.mk (uniform 0 dt vv (S (S n))) (Some p) (Some scheme)]>
          (<[a := Function.mk (uniform 0 dt 0 (S (S n))) (Some v) ma]> h)), Ok tt).
Proof.
  intros Hdt Hav Hvp Hap Ha Hv Hp.
  pose proof (lookup_lt_Some _ _ _ Ha) as Hla.
  pose proof (lookup_lt_Some _ _ _ Hv) as Hlv.
  pose proof (lookup_lt_Some _ _ _ Hp) as Hlp.
  set (T := after 0 dt n).
  assert (after 0 dt (S n) = T + dt) as HT by done.
  assert (forall c, (uniform 0 dt c (S n)) !! (length (uniform 0 dt c (S n)) - 1)%nat
                    = Some (T, c)) as Hulast.
  { intros c. rewrite uniform_snoc. apply lookup_last_app. }
  assert (forall c o, Function.__points o = uniform 0 dt c (S n) ->
            Function.search_best_index o (after 0 dt (S n)) 0 (len (Function.__points o))
            = Ok (len (Function.__points o))) as Hsearch.
  { intros c o Ho. apply search_above_all; rewrite Ho.
    - apply increasing_nondecreasing. by apply uniform_increasing.
    - by apply uniform_below_next. }
  assert (forall c, trailing_dx (uniform 0 dt c (S n)) (after 0 dt (S n)) = dt) as Hdx.
  { intros c. rewrite (trailing_dx_last _ (T, c)) by done. rewrite HT. simpl. ring. }
  assert (forall c (fpts : list point) (last : point),
            fpts !! (length fpts - 1)%nat = Some last ->
            sample scheme (Function.mk (uniform 0 dt c (S n) ++ [(after 0 dt (S n), c)])
                             None None) fpts dt
            = Ok (fst last + dt, snd last + c * dt)) as Hsample.
  { intros c fpts last Hlast. rewrite <- uniform_snoc.
    apply sample_constant; cbn [Function.__points]; [by apply uniform_increasing|done| |done].
    intros q. apply uniform_ordinate. }
  unfold Function.insert.
  destruct (length h) as [|[|[|k]]] eqn:Hlen; [lia..|].
  rewrite (insert_rec_trailing _ h a v (Function.mk (uniform 0 dt 0 (S n)) (Some v) ma)
             (Function.mk (uniform 0 dt vv (S n)) (Some p) (Some scheme)) scheme _ _ false
             Ha eq_refl Hav Hv eq_refl eq_refl
             (Hsearch 0 (Function.mk (uniform 0 dt 0 (S n)) (Some v) ma) eq_refl)).
  cbn [Function.__points Function.__integration_method].
  rewrite Hdx, (Hsample 0 _ (T, vv) (Hulast vv)). cbn [fst snd].
  replace (vv + 0 * dt) with vv by ring. rewrite <- HT, <- uniform_snoc.
  set (h1 := <[a := Function.mk (uniform 0 dt 0 (S (S n))) (Some v) ma]> h).
  assert (h1 !! v = Some (Function.mk (uniform 0 dt vv (S n)) (Some p) (Some scheme))) as H1v.
  { unfold h1. by rewrite list_lookup_insert_ne. }
  assert (h1 !! p = Some (Function.mk (ramp 0 x0 dt (vv * dt) (S n)) None (Some scheme)))
    as H1p.
  { unfold h1. by rewrite list_lookup_insert_ne. }
  rewrite (insert_rec_trailing _ h1 v p
             (Function.mk (uniform 0 dt vv (S n)) (Some p) (Some scheme))
             (Function.mk (ramp 0 x0 dt (vv * dt) (S n)) None (Some scheme)) scheme _ _ false
             H1v eq_refl Hvp H1p eq_refl eq_refl
             (Hsearch vv (Function.mk (uniform 0 dt vv (S n)) (Some p) (Some scheme)) eq_refl)).
  cbn [Function.__points Function.__integration_method].
  rewrite Hdx.
  rewrite (Hsample vv _ (T, after x0 (vv * dt) n)).
  2:{ rewrite ramp_snoc. apply lookup_last_app. }
  cbn [fst snd]. rewrite <- HT, <- uniform_snoc.
  set (h2 := <[v := Function.mk (uniform 0 dt vv (S (S n))) (Some p) (Some scheme)]> h1).
  assert (h2 !! p = Some (Function.mk (ramp 0 x0 dt (vv * dt) (S n)) None (Some scheme)))
    as H2p.
  { unfold h2. by rewrite list_lookup_insert_ne. }
  rewrite (insert_rec_simple (S k) p _ _ h2 _ H2p eq_refl).
  rewrite (alter_as_insert _ _ _ _ H2p). cbn [Function.__points Function.__integral
                                               Function.__integration_method].
  rewrite inserted_at_end.
  - by rewrite (ramp_snoc 0 x0 dt (vv * dt) (S n)).
  - apply increasing_nondecreasing. by apply ramp_increasing.
  - by apply ramp_below_next.
Qed.

(** ** A body without forces *)

(** With no force and a mass other than zero the acceleration is zero. *)
Lemma generate_acceleration_free (m : math.t) (b : Obj.Body) (h : Heap) :
  Obj.forces b = [] -> Obj.mass b <> 0 ->
  AnimatedBody.generate_acceleration m (b, h) = ((b, h), Ok (0, 0)).
Proof.
  intros Hf Hm.
  assert (Body.get_net_force m (b, h) = ((b, h), Ok (0, 0))) as Hnet.
  { unfold Body.get_net_force. rewrite (bind_Ok _ _ _ (b, h) b) by done. by rewrite Hf. }
  unfold AnimatedBody.generate_acceleration. rewrite (bind_Ok _ _ _ _ _ Hnet).
  rewrite (bind_Ok _ _ _ (b, h) b) by done.
  unfold py_div. cbn [fst snd]. destruct (decide (Obj.mass b = 0)) as [|_]; [done|].
  rewrite bind_lift. rewrite (bind_Ok _ _ _ (b, h) b) by done.
  rewrite bind_lift. destruct (decide (Obj.mass b = 0)) as [|_]; [done|].
  by rewrite !Qcdiv_0_l.
Qed.

Ltac lookups :=
  repeat first
    [ rewrite list_lookup_insert_ne by lia
    | rewrite list_lookup_insert_eq by (rewrite ?length_insert; lia) ].

Lemma free_step (m : math.t) (n : nat) (dt v_ix v_iy x_i y_i : Qc)
  (scheme : IntegrationMethod) (w : Cb.AnimatedBody * Heap) :
  0 < dt -> free_state n dt v_ix v_iy x_i y_i scheme w ->
  exists w', AnimatedBody.step m w = (w', Ok tt)
             /\ free_state (S n) dt v_ix v_iy x_i y_i scheme w'.
Proof.
  intros Hdt. destruct w as [[b pre post] h]. unfold free_state.
  cbn [fst snd Cb.attrs Cb.pre_step Cb.post_step].
  intros (-> & -> & Hf & Hm & Hbdt & Htime & Ho1 & Ho2 & Ho3 & Hax & Hay & Hvx & Hvy & Hpx & Hpy).
  set (b1 := Body.set_time (Obj.time b + Obj.dt b) b).
  assert (Obj.time b1 = after 0 dt (S n)) as Ht1.
  { cbn [b1 Body.set_time Obj.time]. by rewrite Htime, Hbdt. }
  pose proof (lookup_lt_Some _ _ _ Hax) as Hlax.
  pose proof (lookup_lt_Some _ _ _ Hay) as Hlay.
  pose proof (lookup_lt_Some _ _ _ Hvx) as Hlvx.
  pose proof (lookup_lt_Some _ _ _ Hvy) as Hlvy.
  pose proof (lookup_lt_Some _ _ _ Hpx) as Hlpx.
  pose proof (lookup_lt_Some _ _ _ Hpy) as Hlpy.
  set (ax := VectorFunction.x (Obj.acceleration b)) in *.
  set (ay := VectorFunction.y (Obj.acceleration b)) in *.
  set (vx := VectorFunction.x (Obj.velocity b)) in *.
  set (vy := VectorFunction.y (Obj.velocity b)) in *.
  set (px := VectorFunction.x (Obj.position b)) in *.
  set (py := VectorFunction.y (Obj.position b)) in *.
  set (h3 := <[px := Function.mk (ramp 0 x_i dt (v_ix * dt) (S (S n))) None (Some scheme)]>
               (<[vx := Function.mk (uniform 0 dt v_ix (S (S n))) (Some px) (Some scheme)]>
                  (<[ax := Function.mk (uniform 0 dt 0 (S (S n))) (Some vx) None]> h))).
  set (h6 := <[py := Function.mk (ramp 0 y_i dt (v_iy * dt) (S (S n))) None (Some scheme)]>
               (<[vy := Function.mk (uniform 0 dt v_iy (S (S n))) (Some py) (Some scheme)]>
                  (<[ay := Function.mk (uniform 0 dt 0 (S (S n))) (Some vy) None]> h3))).
  assert (Function.insert ax (after 0 dt (S n)) 0 false h = (h3, Ok tt)) as Hix.
  { apply (insert_zero_chain h ax vx px n dt v_ix x_i None scheme); try done; lia. }
  assert (Function.insert ay (after 0 dt (S n)) 0 false h3 = (h6, Ok tt)) as Hiy.
  { apply (insert_zero_chain h3 ay vy py n dt v_iy y_i None scheme); try done; try lia;
      unfold h3; by lookups. }
  assert (AnimatedBody.on_attrs (AnimatedBody.__step_acceleration m) (Cb.mk b1 [] [], h)
          = ((Cb.mk b1 [] [], h6), Ok tt)) as Hstep.
  { unfold AnimatedBody.on_attrs. cbn [fst snd Cb.attrs Cb.pre_step Cb.post_step].
    unfold AnimatedBody.__step_acceleration.
    rewrite (bind_Ok _ _ _ _ _ (generate_acceleration_free m b1 h Hf Hm)).
    rewrite (bind_Ok _ _ _ (b1, h) b1) by done.
    unfold on_heap. cbn [fst snd]. rewrite Ht1.
    change (Obj.acceleration b1) with (Obj.acceleration b).
    unfold VectorFunction.insert. fold ax ay.
    rewrite (bind_Ok _ _ _ _ _ Hix). by rewrite Hiy. }
  exists (Cb.mk b1 [] [], h6). split.
  - unfold AnimatedBody.step. rewrite (bind_Ok _ _ _ (Cb.mk b [] [], h) (Cb.mk b [] [])) by done.
    cbn [Cb.pre_step AnimatedBody.run_all]. rewrite bind_ret.
    rewrite (bind_Ok _ _ _ (Cb.mk b1 [] [], h) tt) by done.
    by rewrite (bind_Ok _ _ _ _ _ Hstep).
  - cbn [fst snd Cb.attrs Cb.pre_step Cb.post_step].
    change (Obj.acceleration b1) with (Obj.acceleration b).
    change (Obj.velocity b1) with (Obj.velocity b).
    change (Obj.position b1) with (Obj.position b).
    fold ax ay vx vy px py.
    repeat split; try done; try lia; unfold h6, h3; by lookups.
Qed.

Lemma free_run (m : math.t) (dt v_ix v_iy x_i y_i : Qc) (scheme : IntegrationMethod)
  (n : nat) :
  0 < dt -> forall k w,
    free_state k dt v_ix v_iy x_i y_i scheme w ->
    exists w', run_steps m n w = (w', Ok tt)
               /\ free_state (k + n) dt v_ix v_iy x_i y_i scheme w'.
Proof.
  intros Hdt. induction n as [|n IH]; intros k w Hw.
  { exists w. split; [done|]. by rewrite Nat.add_0_r. }
  destruct (free_step m k dt v_ix v_iy x_i y_i scheme w Hdt Hw) as (w1 & Hs & Hw1).
  destruct (IH (S k) w1 Hw1) as (w' & Hr & Hw').
  exists w'. split.
  - cbn [run_steps]. by rewrite (bind_Ok _ _ _ _ _ Hs).
  - by replace (k + S n)%nat with (S k + n)%nat by lia.
Qed.

Lemma lookup_grow_new (h : Heap) (l n : nat) (o o' : Function.t) :
  length h = n -> (<[l := o]> h ++ [o']) !! n = Some o'.
Proof. intros <-. apply lookup_app_last. by rewrite length_insert. Qed.

Lemma lookup_grow_eq (h : Heap) (l : nat) (o o' : Function.t) :
  (l < length h)%nat -> (<[l := o]> h ++ [o']) !! l = Some o.
Proof.
  intros Hl. rewrite lookup_app_l by (by rewrite length_insert).
  by apply list_lookup_insert_eq.
Qed.

Lemma lookup_grow_ne (h : Heap) (l l' : nat) (o o' : Function.t) :
  l' <> l -> (l' < length h)%nat -> (<[l := o]> h ++ [o']) !! l' = h !! l'.
Proof.
  intros Hne Hl. rewrite lookup_app_l by (by rewrite length_insert).
  by apply list_lookup_insert_ne.
Qed.

Lemma length_grow (h : Heap) (l : nat) (o o' : Function.t) :
  length (<[l := o]> h ++ [o']) = S (length h).
Proof. rewrite length_app, length_insert. simpl. lia. Qed.

(** [integral] of a function that holds one point. *)
Lemma integral_single (h : Heap) (l : nat) (pt : point) (gi : option nat)
  (gm : option IntegrationMethod) (scheme : IntegrationMethod) (x_i y_i : Qc) :
  h !! l = Some (Function.mk [pt] gi gm) ->
  Function.integral l (Some scheme) x_i y_i h
  = (<[l := Function.mk [pt] (Some (length h)) gm]> h
       ++ [Function.mk [(x_i, y_i)] None (Some scheme)], Ok (length h)).
Proof.
  intros Hl. unfold Function.integral.
  rewrite (integral_with_run _ insert_simple l (Some scheme) x_i y_i h _ Hl).
  by rewrite (alter_as_insert _ _ _ _ Hl).
Qed.

Lemma set_state_free (m : math.t) (dt v_ix v_iy x_i y_i : Qc) (scheme : IntegrationMethod)
  (w : Cb.AnimatedBody * Heap) :
  Cb.pre_step (fst w) = [] -> Cb.post_step (fst w) = [] ->
  Obj.forces (Cb.attrs (fst w)) = [] -> Obj.mass (Cb.attrs (fst w)) <> 0 ->
  Obj.dt (Cb.attrs (fst w)) = dt -> Obj.time (Cb.attrs (fst w)) = 0 ->
  (VectorFunction.x (Obj.acceleration (Cb.attrs (fst w)))
   < VectorFunction.y (Obj.acceleration (Cb.attrs (fst w))))%nat ->
  snd w !! VectorFunction.x (Obj.acceleration (Cb.attrs (fst w))) = Some Function.__init__ ->
  snd w !! VectorFunction.y (Obj.acceleration (Cb.attrs (fst w))) = Some Function.__init__ ->
  exists w',
    AnimatedBody.on_attrs (AnimatedBody.set_state m v_ix v_iy x_i y_i scheme) w = (w', Ok tt)
    /\ free_state 0 dt v_ix v_iy x_i y_i scheme w'.
Proof.
  destruct w as [[b pre post] h]. cbn [fst snd Cb.attrs Cb.pre_step Cb.post_step].
  intros -> -> Hf Hm Hbdt Htime Hlt Hax Hay.
  pose proof (lookup_lt_Some _ _ _ Hax) as Hlax.
  pose proof (lookup_lt_Some _ _ _ Hay) as Hlay.
  set (ax := VectorFunction.x (Obj.acceleration b)) in *.
  set (ay := VectorFunction.y (Obj.acceleration b)) in *.
  set (L := length h).
  set (A0 := Function.mk [(0, 0)] None None).
  set (h2 := <[ay := A0]> (<[ax := A0]> h)).
  set (h3 := <[ax := Function.mk [(0, 0)] (Some L) None]> h2
             ++ [Function.mk [(0, v_ix)] None (Some scheme)]).
  set (h4 := <[ay := Function.mk [(0, 0)] (Some (S L)) None]> h3
             ++ [Function.mk [(0, v_iy)] None (Some scheme)]).
  set (h5 := <[L := Function.mk [(0, v_ix)] (Some (S (S L))) (Some scheme)]> h4
             ++ [Function.mk [(0, x_i)] None (Some scheme)]).
  set (h6 := <[S L := Function.mk [(0, v_iy)] (Some (S (S (S L)))) (Some scheme)]> h5
             ++ [Function.mk [(0, y_i)] None (Some scheme)]).
  assert (length h2 = L) as Hl2 by (unfold h2; by rewrite !length_insert).
  assert (length h3 = S L) as Hl3 by (unfold h3; by rewrite length_grow, Hl2).
  assert (length h4 = S (S L)) as Hl4 by (unfold h4; by rewrite length_grow, Hl3).
  assert (length h5 = S (S (S L))) as Hl5 by (unfold h5; by rewrite length_grow, Hl4).
  assert (VectorFunction.insert (Obj.acceleration b) 0 0 0 h = (h2, Ok tt)) as Hins.
  { unfold VectorFunction.insert. fold ax ay.
    rewrite (bind_Ok _ _ _ (<[ax := A0]> h) tt).
    - rewrite (insert_no_integral ay 0 0 _ Function.__init__); [|by lookups|done].
      rewrite (alter_as_insert _ _ _ Function.__init__) by (by lookups). done.
    - rewrite (insert_no_integral ax 0 0 _ Function.__init__ Hax eq_refl).
      by rewrite (alter_as_insert _ _ _ _ Hax). }
  assert (VectorFunction.integrate (Obj.acceleration b) 0 v_ix v_iy scheme h2
          = (h4, Ok (VectorFunction.mk L (S L)))) as Hv.
  { unfold VectorFunction.integrate. fold ax ay.
    rewrite (bind_Ok _ _ _ h3 L).
    2:{ rewrite (integral_single h2 ax (0, 0) None None scheme 0 v_ix); [by rewrite Hl2|].
        unfold h2. by lookups. }
    rewrite (bind_Ok _ _ _ h4 (S L)); [done|].
    rewrite (integral_single h3 ay (0, 0) None None scheme 0 v_iy); [by rewrite Hl3|].
    unfold h3. rewrite lookup_grow_ne by lia. unfold h2. by lookups. }
  assert (VectorFunction.integrate (VectorFunction.mk L (S L)) 0 x_i y_i scheme h4
          = (h6, Ok (VectorFunction.mk (S (S L)) (S (S (S L)))))) as Hp.
  { unfold VectorFunction.integrate. cbn [VectorFunction.x VectorFunction.y].
    rewrite (bind_Ok _ _ _ h5 (S (S L))).
    2:{ rewrite (integral_single h4 L (0, v_ix) None (Some scheme) scheme 0 x_i);
          [by rewrite Hl4|].
        unfold h4. rewrite lookup_grow_ne by lia. unfold h3. by apply lookup_grow_new. }
    rewrite (bind_Ok _ _ _ h6 (S (S (S L)))); [done|].
    rewrite (integral_single h5 (S L) (0, v_iy) None (Some scheme) scheme 0 y_i);
      [by rewrite Hl5|].
    unfold h5. rewrite lookup_grow_ne by lia. unfold h4. by apply lookup_grow_new. }
  set (b' := Body.set_position (VectorFunction.mk (S (S L)) (S (S (S L))))
               (Body.set_velocity (VectorFunction.mk L (S L)) b)).
  exists (Cb.mk b' [] [], h6). split.
  - unfold AnimatedBody.on_attrs. cbn [fst snd Cb.attrs Cb.pre_step Cb.post_step].
    unfold AnimatedBody.set_state.
    rewrite (bind_Ok _ _ _ _ _ (generate_acceleration_free m b h Hf Hm)).
    rewrite (bind_Ok _ _ _ (b, h) b) by done.
    rewrite (bind_Ok _ _ _ (b, h2) tt) by (unfold on_heap; cbn [fst snd]; by rewrite Hins).
    rewrite (bind_Ok _ _ _ (b, h2) b) by done.
    rewrite (bind_Ok _ _ _ (b, h4) (VectorFunction.mk L (S L)))
      by (unfold on_heap; cbn [fst snd]; by rewrite Hv).
    rewrite (bind_Ok _ _ _ (Body.set_velocity (VectorFunction.mk L (S L)) b, h4) tt) by done.
    rewrite (bind_Ok _ _ _ (Body.set_velocity (VectorFunction.mk L (S L)) b, h4)
               (Body.set_velocity (VectorFunction.mk L (S L)) b)) by done.
    rewrite (bind_Ok _ _ _ (Body.set_velocity (VectorFunction.mk L (S L)) b, h6)
               (VectorFunction.mk (S (S L)) (S (S (S L)))))
      by (unfold on_heap; cbn [fst snd Body.set_velocity Obj.velocity]; by rewrite Hp).
    done.
  - unfold free_state. cbn [fst snd Cb.attrs Cb.pre_step Cb.post_step b' Body.set_position
                             Body.set_velocity Obj.forces Obj.mass Obj.dt Obj.time
                             Obj.acceleration Obj.velocity Obj.position
                             VectorFunction.x VectorFunction.y uniform ramp].
    fold ax ay.
    repeat split; try done; try lia.
    + unfold h6. rewrite lookup_grow_ne by lia. unfold h5. rewrite lookup_grow_ne by lia.
      unfold h4. rewrite lookup_grow_ne by lia. unfold h3. by rewrite lookup_grow_eq by lia.
    + unfold h6. rewrite lookup_grow_ne by lia. unfold h5. rewrite lookup_grow_ne by lia.
      unfold h4. by rewrite lookup_grow_eq by lia.
    + unfold h6. rewrite lookup_grow_ne by lia. unfold h5. apply lookup_grow_eq. lia.
    + unfold h6. apply lookup_grow_eq. lia.
    + unfold h6. rewrite lookup_grow_ne by lia. unfold h5. by apply lookup_grow_new.
    + unfold h6. by apply lookup_grow_new.
Qed.

(** X14. A new body of mass other than zero without forces, seeded by
    [set_state] and stepped [n] times with [dt > 0], never fails, for every
    scheme: its time is [n * dt], its acceleration holds zero at the times
    [0, dt, .., n * dt], its velocity the initial velocity, and its position
    after [k] steps is the initial position plus [k * dt] times the initial
    velocity. *)
Theorem free_body_moves_uniformly (mth : math.t) (mass dt : Qc)
  (pendulum : option Obj.Pendulum) (h0 : Heap) (v_ix v_iy x_i y_i : Qc)
  (scheme : IntegrationMethod) (n : nat) :
  mass <> 0 -> 0 < dt ->
  exists ab h w',
    AnimatedBody.__init__ mass dt pendulum h0 = (h, Ok ab)
    /\ (AnimatedBody.on_attrs (AnimatedBody.set_state mth v_ix v_iy x_i y_i scheme);;
        run_steps mth n) (ab, h) = (w', Ok tt)
    /\ Obj.time (Cb.attrs (fst w')) = num (Z.of_nat n) 1 * dt
    /\ points_at (snd w') (VectorFunction.x (Obj.position (Cb.attrs (fst w'))))
       = Some (ramp 0 x_i dt (v_ix * dt) (S n))
    /\ points_at (snd w') (VectorFunction.y (Obj.position (Cb.attrs (fst w'))))
       = Some (ramp 0 y_i dt (v_iy * dt) (S n))
    /\ points_at (snd w') (VectorFunction.x (Obj.velocity (Cb.attrs (fst w'))))
       = Some (uniform 0 dt v_ix (S n))
    /\ points_at (snd w') (VectorFunction.y (Obj.velocity (Cb.attrs (fst w'))))
       = Some (uniform 0 dt v_iy (S n))
    /\ points_at (snd w') (VectorFunction.x (Obj.acceleration (Cb.attrs (fst w'))))
       = Some (uniform 0 dt 0 (S n))
    /\ points_at (snd w') (VectorFunction.y (Obj.acceleration (Cb.attrs (fst w'))))
       = Some (uniform 0 dt 0 (S n))
    /\ forall k, (k <= n)%nat ->
         ramp 0 x_i dt (v_ix * dt) (S n) !! k
         = Some (num (Z.of_nat k) 1 * dt, x_i + num (Z.of_nat k) 1 * (v_ix * dt))
         /\ ramp 0 y_i dt (v_iy * dt) (S n) !! k
            = Some (num (Z.of_nat k) 1 * dt, y_i + num (Z.of_nat k) 1 * (v_iy * dt)).
Proof.
  intros Hm Hdt.
  destruct (init_never_seeded mass dt pendulum h0)
    as (ab & h & Hinit & Hseed & Hf & Ht & Hmass & Hbdt).
  assert (VectorFunction.x (Obj.acceleration (Cb.attrs ab))
          < VectorFunction.y (Obj.acceleration (Cb.attrs ab)))%nat as Hlt.
  { unfold AnimatedBody.__init__, VectorFunction.__init__, Function.new, bind, ret in Hinit.
    simpl in Hinit. inversion Hinit; subst ab h. simpl. rewrite !length_app. simpl. lia. }
  destruct Hseed as (Hpre & Hpost & _ & _ & _ & _ & Hax & Hay & _).
  cbn [fst snd] in *.
  destruct (set_state_free mth dt v_ix v_iy x_i y_i scheme (ab, h))
    as (w0 & Hs & Hw0); cbn [fst snd]; try done; [by rewrite Hmass|].
  destruct (free_run mth dt v_ix v_iy x_i y_i scheme n Hdt 0 w0 Hw0) as (w' & Hr & Hw').
  exists ab, h, w'. split; [done|]. split; [by rewrite (bind_Ok _ _ _ _ _ Hs)|].
  destruct Hw' as (_ & _ & _ & _ & _ & Htime & _ & _ & _ & Hax' & Hay' & Hvx & Hvy & Hpx & Hpy).
  unfold points_at. rewrite Hax', Hay', Hvx, Hvy, Hpx, Hpy. cbn [fmap option_fmap option_map
                                                                 Function.__points].
  split; [rewrite Htime, after_closed; simpl; ring|].
  repeat (split; [done|]).
  intros k Hk. split.
  - rewrite ramp_lookup by lia. do 2 f_equal. ring.
  - rewrite ramp_lookup by lia. do 2 f_equal. ring.
Qed.

Lemma free_body_moves_uniformly_witness :
  exists ab h w',
    AnimatedBody.__init__ (num 2 1) (num 1 2) None [] = (h, Ok ab)
    /\ (AnimatedBody.on_attrs
          (AnimatedBody.set_state no_math (num 3 1) (num (-1) 1) (num 0 1) (num 5 1) RK4);;
        run_steps no_math 4) (ab, h) = (w', Ok tt)
    /\ Obj.time (Cb.attrs (fst w')) = num (Z.of_nat 4) 1 * num 1 2
    /\ points_at (snd w') (VectorFunction.x (Obj.position (Cb.attrs (fst w'))))
       = Some (ramp 0 (num 0 1) (num 1 2) (num 3 1 * num 1 2) 5)
    /\ points_at (snd w') (VectorFunction.y (Obj.position (Cb.attrs (fst w'))))
       = Some (ramp 0 (num 5 1) (num 1 2) (num (-1) 1 * num 1 2) 5)
    /\ points_at (snd w') (VectorFunction.x (Obj.velocity (Cb.attrs (fst w'))))
       = Some (uniform 0 (num 1 2) (num 3 1) 5)
    /\ points_at (snd w') (VectorFunction.y (Obj.velocity (Cb.attrs (fst w'))))
       = Some (uniform 0 (num 1 2) (num (-1) 1) 5)
    /\ points_at (snd w') (VectorFunction.x (Obj.acceleration (Cb.attrs (fst w'))))
       = Some (uniform 0 (num 1 2) 0 5)
    /\ points_at (snd w') (VectorFunction.y (Obj.acceleration (Cb.attrs (fst w'))))
       = Some (uniform 0 (num 1 2) 0 5)
    /\ forall k, (k <= 4)%nat ->
         ramp 0 (num 0 1) (num 1 2) (num 3 1 * num 1 2) 5 !! k
         = Some (num (Z.of_nat k) 1 * num 1 2,
                 num 0 1 + num (Z.of_nat k) 1 * (num 3 1 * num 1 2))
         /\ ramp 0 (num 5 1) (num 1 2) (num (-1) 1 * num 1 2) 5 !! k
            = Some (num (Z.of_nat k) 1 * num 1 2,
                    num 5 1 + num (Z.of_nat k) 1 * (num (-1) 1 * num 1 2)).
Proof.
  apply (free_body_moves_uniformly no_math (num 2 1) (num 1 2) None [] (num 3 1) (num (-1) 1)
           (num 0 1) (num 5 1) RK4 4).
  - discriminate.
  - reflexivity.
Defined.

(** ** [VectorFunction] and [add_force] *)

(** X15. [insert(time, x, y)] on a [VectorFunction] whose two functions
    are ordered by x, cache no integral and hold only points before [time],
    followed by [seek(-1)], appends [(time, x)] to the one and [(time, y)]
    to the other and returns that pair. *)
Theorem vector_insert_then_seek (h : Heap) (self : VectorFunction.t) (fx fy : Function.t)
  (t vx vy : Qc) :
  VectorFunction.x self <> VectorFunction.y self ->
  h !! VectorFunction.x self = Some fx -> h !! VectorFunction.y self = Some fy ->
  Function.__integral fx = None -> Function.__integral fy = None ->
  nondecreasing (Function.__points fx) -> nondecreasing (Function.__points fy) ->
  (forall p, p ∈ Function.__points fx -> fst p < t) ->
  (forall p, p ∈ Function.__points fy -> fst p < t) ->
  (VectorFunction.insert self t vx vy;; VectorFunction.seek self (-1)) h
  = (<[VectorFunction.y self := Function.mk (Function.__points fy ++ [(t, vy)]) None
                                  (Function.__integration_method fy)]>
       (<[VectorFunction.x self := Function.mk (Function.__points fx ++ [(t, vx)]) None
                                     (Function.__integration_method fx)]> h),
     Ok ((t, vx), (t, vy))).
Proof.
  intros Hxy Hx Hy Hgx Hgy Hnx Hny Hbx Hby.
  pose proof (lookup_lt_Some _ _ _ Hx) as Hlx.
  pose proof (lookup_lt_Some _ _ _ Hy) as Hly.
  set (h1 := <[VectorFunction.x self := Function.mk (Function.__points fx ++ [(t, vx)]) None
                                          (Function.__integration_method fx)]> h).
  set (h2 := <[VectorFunction.y self := Function.mk (Function.__points fy ++ [(t, vy)]) None
                                          (Function.__integration_method fy)]> h1).
  assert (VectorFunction.insert self t vx vy h = (h2, Ok tt)) as Hins.
  { unfold VectorFunction.insert. rewrite (bind_Ok _ _ _ h1 tt).
    - rewrite (insert_no_integral _ t vy h1 fy); [|unfold h1; by rewrite list_lookup_insert_ne|done].
      rewrite (alter_as_insert _ _ _ fy) by (unfold h1; by rewrite list_lookup_insert_ne).
      by rewrite inserted_at_end, Hgy.
    - rewrite (insert_no_integral _ t vx h fx Hx Hgx), (alter_as_insert _ _ _ _ Hx).
      by rewrite inserted_at_end, Hgx. }
  rewrite (bind_Ok _ _ _ _ _ Hins). unfold VectorFunction.seek.
  rewrite bind_deref. unfold h2 at 1. rewrite list_lookup_insert_ne by done.
  unfold h1 at 1. rewrite list_lookup_insert_eq by done.
  unfold Function.seek. cbn [Function.__points]. rewrite bind_lift, py_getitem_last.
  rewrite bind_deref. unfold h2 at 1.
  rewrite list_lookup_insert_eq by (unfold h1; by rewrite length_insert).
  cbn [Function.__points]. by rewrite bind_lift, py_getitem_last.
Qed.

Lemma vector_insert_then_seek_witness :
  (VectorFunction.insert (VectorFunction.mk 0 1) (num 2 1) (num 7 1) (num 8 1);;
   VectorFunction.seek (VectorFunction.mk 0 1) (-1))
    [Function.mk [(num 0 1, num 1 1)] None None; Function.mk [(num 0 1, num 3 1)] None None]
  = (<[1%nat := Function.mk ([(num 0 1, num 3 1)] ++ [(num 2 1, num 8 1)]) None None]>
       (<[0%nat := Function.mk ([(num 0 1, num 1 1)] ++ [(num 2 1, num 7 1)]) None None]>
          [Function.mk [(num 0 1, num 1 1)] None None;
           Function.mk [(num 0 1, num 3 1)] None None]),
     Ok ((num 2 1, num 7 1), (num 2 1, num 8 1))).
Proof.
  apply (vector_insert_then_seek
           [Function.mk [(num 0 1, num 1 1)] None None; Function.mk [(num 0 1, num 3 1)] None None]
           (VectorFunction.mk 0 1)
           (Function.mk [(num 0 1, num 1 1)] None None)
           (Function.mk [(num 0 1, num 3 1)] None None)
           (num 2 1) (num 7 1) (num 8 1)).
  - simpl. lia.
  - reflexivity.
  - reflexivity.
  - reflexivity.
  - reflexivity.
  - unfold nondecreasing. apply (bool_decide_unpack _). vm_compute. exact I.
  - unfold nondecreasing. apply (bool_decide_unpack _). vm_compute. exact I.
  - intros p Hp. apply list_elem_of_singleton in Hp. subst p. reflexivity.
  - intros p Hp. apply list_elem_of_singleton in Hp. subst p. reflexivity.
Defined.

(** X16. [VectorFunction.pop] is not atomic: when the y function is empty
    and the x function is not, it raises [IndexError] after it has removed
    the last point of the x function. *)
Theorem vector_pop_is_not_atomic (h : Heap) (self : VectorFunction.t) (fx fy : Function.t)
  (front : list point) (p : point) :
  VectorFunction.x self <> VectorFunction.y self ->
  h !! VectorFunction.x self = Some fx -> h !! VectorFunction.y self = Some fy ->
  Function.__points fx = front ++ [p] -> Function.__points fy = [] ->
  VectorFunction.pop self (-1) h
  = (<[VectorFunction.x self := Function.mk front (Function.__integral fx)
                                  (Function.__integration_method fx)]> h,
     Raise IndexError).
Proof.
  intros Hxy Hx Hy Hpx Hpy. unfold VectorFunction.pop, Function.pop.
  set (h1 := <[VectorFunction.x self := Function.mk front (Function.__integral fx)
                                          (Function.__integration_method fx)]> h).
  rewrite (bind_Ok _ _ _ h1 p).
  - apply bind_Raise. rewrite bind_deref. unfold h1 at 1.
    rewrite list_lookup_insert_ne, Hy, Hpy by done.
    by rewrite bind_lift.
  - rewrite bind_deref, Hx, Hpx, bind_lift, py_pop_last. cbn [fst snd].
    unfold bind, Function.set_points, ret. by rewrite (alter_as_insert _ _ _ _ Hx).
Qed.

Lemma vector_pop_is_not_atomic_witness :
  VectorFunction.pop (VectorFunction.mk 0 1) (-1)
    [Function.mk [(num 0 1, num 1 1); (num 1 1, num 2 1)] None None; Function.__init__]
  = (<[0%nat := Function.mk [(num 0 1, num 1 1)] None None]>
       [Function.mk [(num 0 1, num 1 1); (num 1 1, num 2 1)] None None; Function.__init__],
     Raise IndexError).
Proof.
  apply (vector_pop_is_not_atomic
           [Function.mk [(num 0 1, num 1 1); (num 1 1, num 2 1)] None None; Function.__init__]
           (VectorFunction.mk 0 1)
           (Function.mk [(num 0 1, num 1 1); (num 1 1, num 2 1)] None None) Function.__init__
           [(num 0 1, num 1 1)] (num 1 1, num 2 1)).
  - simpl. lia.
  - reflexivity.
  - reflexivity.
  - reflexivity.
  - reflexivity.
Defined.

Lemma setitem_types (forces : list Obj.Force) (instance : Obj.Force) :
  Obj.type_of <$> Body.forces_setitem forces instance
  = if bool_decide (Obj.type_of instance ∈ Obj.type_of <$> forces)
    then Obj.type_of <$> forces
    else (Obj.type_of <$> forces) ++ [Obj.type_of instance].
Proof.
  induction forces as [|f forces IH].
  { by rewrite bool_decide_eq_false_2 by apply not_elem_of_nil. }
  cbn [Body.forces_setitem].
  destruct (decide (Obj.type_of f = Obj.type_of instance)) as [Heq|Hne].
  - rewrite !fmap_cons, Heq. by rewrite bool_decide_eq_true_2 by left.
  - rewrite !fmap_cons, IH.
    destruct (bool_decide (Obj.type_of instance ∈ Obj.type_of <$> forces)) eqn:Hd.
    + apply bool_decide_eq_true_1 in Hd. rewrite bool_decide_eq_true_2; [done|]. by right.
    + apply bool_decide_eq_false_1 in Hd. rewrite bool_decide_eq_false_2; [done|].
      intros Hin. apply elem_of_cons in Hin as [Heq|Hin]; [by apply Hne|done].
Qed.

Lemma setitem_elem_of (forces : list Obj.Force) (instance f : Obj.Force) :
  NoDup (Obj.type_of <$> forces) ->
  f ∈ Body.forces_setitem forces instance
  <-> f = instance \/ (f ∈ forces /\ Obj.type_of f <> Obj.type_of instance).
Proof.
  induction forces as [|g forces IH]; intros Hnd.
  { cbn [Body.forces_setitem]. rewrite list_elem_of_singleton. split; [by left|].
    intros [->|[Hin _]]; [done|]. by apply elem_of_nil in Hin. }
  rewrite fmap_cons in Hnd. apply NoDup_cons in Hnd as [Hg Hnd].
  cbn [Body.forces_setitem].
  destruct (decide (Obj.type_of g = Obj.type_of instance)) as [Heq|Hne].
  - rewrite !elem_of_cons. split.
    + intros [->|Hin]; [by left|]. right. split; [by right|].
      intros Hf. apply Hg. rewrite Heq, <- Hf. by apply list_elem_of_fmap_2.
    + intros [->|[[->|Hin] Hf]]; [by left|done|by right].
  - rewrite !elem_of_cons, (IH Hnd). split.
    + intros [->|[->|[Hin Hf]]]; [right; split; [by left|done]|by left|].
      right. split; [by right|done].
    + intros [->|[[->|Hin] Hf]]; [right; by left|by left|]. right. right. done.
Qed.

(** X17. [add_force] keeps one instance per force class: with the right
    arguments it succeeds, the new instance of the class replaces the one
    the body had or is added, the other forces stay, and nothing else of
    the body or the store changes; with the wrong number of arguments it
    raises [TypeError] and changes nothing. *)
Theorem add_force_keeps_one_instance_per_class (force : Obj.ForceType) (args : list Qc)
  (b : Obj.Body) (h : Heap) :
  NoDup (Obj.type_of <$> Obj.forces b) ->
  (forall instance, Force.__init__ force args = Ok instance ->
     exists b',
       Body.add_force force args (b, h) = ((b', h), Ok tt)
       /\ Obj.type_of instance = force
       /\ NoDup (Obj.type_of <$> Obj.forces b')
       /\ (forall f, f ∈ Obj.forces b'
                     <-> f = instance \/ (f ∈ Obj.forces b /\ Obj.type_of f <> force))
       /\ length (Obj.forces b')
          = (if bool_decide (force ∈ Obj.type_of <$> Obj.forces b)
             then length (Obj.forces b) else S (length (Obj.forces b)))
       /\ Obj.mass b' = Obj.mass b /\ Obj.time b' = Obj.time b
       /\ Obj.position b' = Obj.position b /\ Obj.velocity b' = Obj.velocity b
       /\ Obj.acceleration b' = Obj.acceleration b)
  /\ (forall e, Force.__init__ force args = Raise e ->
        e = TypeError /\ Body.add_force force args (b, h) = ((b, h), Raise TypeError)).
Proof.
  intros Hnd. split.
  - intros instance Hi.
    assert (Obj.type_of instance = force) as Ht.
    { destruct force, args as [|a [|a' [|]]]; simpl in Hi; inversion Hi; done. }
    eexists. unfold Body.add_force. rewrite Hi, bind_lift. split; [reflexivity|].
    cbn [Body.set_forces Obj.forces Obj.mass Obj.time Obj.position Obj.velocity
         Obj.acceleration fst].
    split; [done|]. split; [|split; [|split]].
    + rewrite setitem_types. destruct (bool_decide _) eqn:Hd; [done|].
      apply bool_decide_eq_false_1 in Hd. apply NoDup_app. split; [done|].
      split; [|apply NoDup_singleton]. intros t Ht1 Ht2.
      apply list_elem_of_singleton in Ht2. by subst t.
    + intros f. rewrite <- Ht. by apply setitem_elem_of.
    + rewrite <- (length_fmap Obj.type_of), setitem_types, <- Ht.
      destruct (bool_decide _); rewrite ?length_app, length_fmap; simpl; lia.
    + done.
  - intros e He. unfold Body.add_force. rewrite He, bind_lift.
    destruct force, args as [|a [|a' [|]]]; simpl in He; inversion He; done.
Qed.

(** ** Failing steps, queries and the replay *)

Lemma add_force_keeps_one_instance_per_class_witness :
  (forall instance, Force.__init__ Obj.Gravity_t [num 5 1; num 6 1] = Ok instance ->
     exists b',
       Body.add_force Obj.Gravity_t [num 5 1; num 6 1]
         (Obj.mk_Body (num 1 1) [Obj.Gravity_o (num 1 1) (num 2 1); Obj.PendulumTension_o]
            (VectorFunction.mk 0 1) (VectorFunction.mk 2 3) (VectorFunction.mk 4 5)
            (num 1 2) 0 None, [])
       = ((b', []), Ok tt)
       /\ Obj.type_of instance = Obj.Gravity_t
       /\ NoDup (Obj.type_of <$> Obj.forces b')
       /\ (forall f, f ∈ Obj.forces b'
                     <-> f = instance
                         \/ (f ∈ [Obj.Gravity_o (num 1 1) (num 2 1); Obj.PendulumTension_o]
                             /\ Obj.type_of f <> Obj.Gravity_t))
       /\ length (Obj.forces b')
          = (if bool_decide (Obj.Gravity_t
                               ∈ Obj.type_of <$> [Obj.Gravity_o (num 1 1) (num 2 1);
                                                  Obj.PendulumTension_o])
             then length [Obj.Gravity_o (num 1 1) (num 2 1); Obj.PendulumTension_o]
             else S (length [Obj.Gravity_o (num 1 1) (num 2 1); Obj.PendulumTension_o]))
       /\ Obj.mass b' = num 1 1 /\ Obj.time b' = 0
       /\ Obj.position b' = VectorFunction.mk 0 1 /\ Obj.velocity b' = VectorFunction.mk 2 3
       /\ Obj.acceleration b' = VectorFunction.mk 4 5)
  /\ (forall e, Force.__init__ Obj.Gravity_t [num 5 1; num 6 1] = Raise e ->
        e = TypeError
        /\ Body.add_force Obj.Gravity_t [num 5 1; num 6 1]
             (Obj.mk_Body (num 1 1) [Obj.Gravity_o (num 1 1) (num 2 1); Obj.PendulumTension_o]
                (VectorFunction.mk 0 1) (VectorFunction.mk 2 3) (VectorFunction.mk 4 5)
                (num 1 2) 0 None, [])
           = ((Obj.mk_Body (num 1 1) [Obj.Gravity_o (num 1 1) (num 2 1); Obj.PendulumTension_o]
                 (VectorFunction.mk 0 1) (VectorFunction.mk 2 3) (VectorFunction.mk 4 5)
                 (num 1 2) 0 None, []), Raise TypeError)).
Proof.
  apply (add_force_keeps_one_instance_per_class Obj.Gravity_t [num 5 1; num 6 1]
           (Obj.mk_Body (num 1 1) [Obj.Gravity_o (num 1 1) (num 2 1); Obj.PendulumTension_o]
              (VectorFunction.mk 0 1) (VectorFunction.mk 2 3) (VectorFunction.mk 4 5)
              (num 1 2) 0 None) []).
  apply (bool_decide_unpack _). vm_compute. exact I.
Defined.

(** X18. A body of mass zero (without pre-step callbacks) cannot step:
    [step] raises the error of the net force or else [ZeroDivisionError],
    after time has advanced by [dt] and before any sample is stored. *)
Theorem massless_body_cannot_step (m : math.t) (w : Cb.AnimatedBody * Heap) :
  Obj.mass (Cb.attrs (fst w)) = 0 -> Cb.pre_step (fst w) = [] ->
  exists e,
    AnimatedBody.step m w = ((advance (fst w), snd w), Raise e)
    /\ (snd (Body.get_net_force m (Cb.attrs (advance (fst w)), snd w)) = Raise e
        \/ ((exists f, snd (Body.get_net_force m (Cb.attrs (advance (fst w)), snd w)) = Ok f)
            /\ e = ZeroDivisionError)).
Proof.
  destruct w as [[b pre post] h]. cbn [fst snd Cb.attrs Cb.pre_step Cb.post_step].
  intros Hm ->. unfold advance. cbn [Cb.attrs Cb.pre_step Cb.post_step].
  set (b1 := Body.set_time (Obj.time b + Obj.dt b) b).
  pose proof (reads_bind _ _ reads_self
                (fun self => reads_net_force_loop m (Obj.forces self) 0 0) (b1, h)) as Hr.
  fold (Body.get_net_force m) in Hr.
  destruct (Body.get_net_force m (b1, h)) as [w1 r] eqn:Hnet. simpl in Hr. subst w1.
  assert (forall e, AnimatedBody.generate_acceleration m (b1, h) = ((b1, h), Raise e) ->
            AnimatedBody.step m (Cb.mk b [] post, h) = ((Cb.mk b1 [] post, h), Raise e))
    as Hfail.
  { intros e He. unfold AnimatedBody.step.
    rewrite (bind_Ok _ _ _ (Cb.mk b [] post, h) (Cb.mk b [] post)) by done.
    cbn [Cb.pre_step AnimatedBody.run_all]. rewrite bind_ret.
    rewrite (bind_Ok _ _ _ (Cb.mk b1 [] post, h) tt) by done.
    apply bind_Raise. unfold AnimatedBody.on_attrs. simpl.
    unfold AnimatedBody.__step_acceleration. by rewrite (bind_Raise _ _ _ _ _ He). }
  destruct r as [f|e].
  - exists ZeroDivisionError. split; [|right; split; [by exists f|done]].
    apply Hfail. unfold AnimatedBody.generate_acceleration.
    rewrite (bind_Ok _ _ _ _ _ Hnet). rewrite (bind_Ok _ _ _ (b1, h) b1) by done.
    apply bind_Raise. unfold lift, py_div. change (Obj.mass b1) with (Obj.mass b).
    by destruct (decide (Obj.mass b = 0)).
  - exists e. split; [|by left].
    apply Hfail. unfold AnimatedBody.generate_acceleration.
    by rewrite (bind_Raise _ _ _ _ _ Hnet).
Qed.

Lemma massless_body_cannot_step_witness :
  exists e,
    AnimatedBody.step no_math
      (Cb.mk (Obj.mk_Body 0 [] (VectorFunction.mk 0 1) (VectorFunction.mk 2 3)
                (VectorFunction.mk 4 5) (num 1 2) 0 None) [] [], [])
    = ((advance
          (Cb.mk (Obj.mk_Body 0 [] (VectorFunction.mk 0 1) (VectorFunction.mk 2 3)
                    (VectorFunction.mk 4 5) (num 1 2) 0 None) [] []), []), Raise e)
    /\ (snd (Body.get_net_force no_math
               (Cb.attrs
                  (advance
                     (Cb.mk (Obj.mk_Body 0 [] (VectorFunction.mk 0 1) (VectorFunction.mk 2 3)
                               (VectorFunction.mk 4 5) (num 1 2) 0 None) [] [])), []))
        = Raise e
        \/ ((exists f,
               snd (Body.get_net_force no_math
                      (Cb.attrs
                         (advance
                            (Cb.mk (Obj.mk_Body 0 [] (VectorFunction.mk 0 1)
                                      (VectorFunction.mk 2 3) (VectorFunction.mk 4 5)
                                      (num 1 2) 0 None) [] [])), [])) = Ok f)
            /\ e = ZeroDivisionError)).
Proof.
  apply (massless_body_cannot_step no_math
           (Cb.mk (Obj.mk_Body 0 [] (VectorFunction.mk 0 1) (VectorFunction.mk 2 3)
                     (VectorFunction.mk 4 5) (num 1 2) 0 None) [] [], [])).
  - reflexivity.
  - reflexivity.
Defined.

(** X19. The queries write nothing: [get_net_force],
    [generate_acceleration], the magnitude and direction of every force and
    the two pivot queries of a pendulum return with the body and the store
    as they found them, whether they succeed or raise. *)
Theorem force_queries_write_nothing (m : math.t) (w : World) :
  fst (Body.get_net_force m w) = w
  /\ fst (AnimatedBody.generate_acceleration m w) = w
  /\ (forall f, fst (Force.get_magnitude m f w) = w /\ fst (Force.get_direction m f w) = w)
  /\ fst (Pendulum.distance_from_pivot m w) = w
  /\ fst (Pendulum.angle_from_pivot m w) = w.
Proof.
  split; [|split; [|split; [|split]]].
  - apply (reads_bind _ _ reads_self
             (fun self => reads_net_force_loop m (Obj.forces self) 0 0) w).
  - apply reads_generate_acceleration.
  - intros f. split; [apply reads_force_magnitude|apply reads_force_direction].
  - apply reads_distance_from_pivot.
  - unfold Pendulum.angle_from_pivot.
    apply (reads_bind _ _ reads_self). intros self.
    apply reads_bind; [apply reads_on_heap, reads_vector_seek|]. intros s.
    apply reads_bind; [apply reads_the_pendulum|]. intros p. apply reads_ret.
Qed.

(** X20. Once [BodyReplay.step] has returned [False] the index is past the
    stored samples: [get_state] then raises [IndexError]. *)
Theorem replay_state_after_the_last_sample (w : Obj.BodyReplay * Heap) (fx : Function.t) :
  snd w !! VectorFunction.x (Obj.replay_position (fst w)) = Some fx ->
  snd (BodyReplay.step w) = Ok false ->
  BodyReplay.get_state (fst (BodyReplay.step w)) = (fst (BodyReplay.step w), Raise IndexError).
Proof.
  intros Hfx. rewrite replay_step_eq. unfold replay_sample. rewrite Hfx.
  destruct (Function.seek fx (Obj.index (fst w) + 1)) as [p|e] eqn:Hs; [done|]. intros _.
  cbn [fst snd]. destruct w as [b h]. cbn [fst snd] in *. unfold BodyReplay.get_state.
  rewrite (bind_Ok _ _ _ (BodyReplay.set_index (Obj.index b + 1) b, h)
             (BodyReplay.set_index (Obj.index b + 1) b)) by done.
  apply bind_Raise.
  unfold on_heap. cbn [fst snd BodyReplay.set_index Obj.replay_position Obj.index].
  unfold VectorFunction.seek. rewrite bind_deref, Hfx, bind_lift, Hs.
  unfold Function.seek, py_getitem in Hs.
  destruct (_ && _) in Hs; [destruct (_ !! _) in Hs|]; by inversion Hs.
Qed.

Lemma replay_state_after_the_last_sample_witness :
  BodyReplay.get_state
    (fst (BodyReplay.step
            (Obj.mk_BodyReplay (VectorFunction.mk 0 1) (VectorFunction.mk 2 3)
               (VectorFunction.mk 4 5) 1 (num 1 1),
             [Function.mk [(num 0 1, num 0 1); (num 1 1, num 2 1)] None None])))
  = (fst (BodyReplay.step
            (Obj.mk_BodyReplay (VectorFunction.mk 0 1) (VectorFunction.mk 2 3)
               (VectorFunction.mk 4 5) 1 (num 1 1),
             [Function.mk [(num 0 1, num 0 1); (num 1 1, num 2 1)] None None])),
     Raise IndexError).
Proof.
  apply (replay_state_after_the_last_sample
           (Obj.mk_BodyReplay (VectorFunction.mk 0 1) (VectorFunction.mk 2 3)
              (VectorFunction.mk 4 5) 1 (num 1 1),
            [Function.mk [(num 0 1, num 0 1); (num 1 1, num 2 1)] None None])
           (Function.mk [(num 0 1, num 0 1); (num 1 1, num 2 1)] None None)).
  - reflexivity.
  - reflexivity.
Defined.

Lemma py_getitem_ge {A : Type} (l : list A) (i : nat) :
  (length l <= i)%nat -> py_getitem l (Z.of_nat i) = Raise IndexError.
Proof.
  intros Hi. unfold py_getitem, len.
  assert ((Z.of_nat i <? 0)%Z = false) as -> by (apply Z.ltb_ge; lia).
  assert ((Z.of_nat i <? Z.of_nat (length l))%Z = false) as -> by (apply Z.ltb_ge; lia).
  by rewrite andb_false_r.
Qed.

Lemma replay_sample_nat (b : Obj.BodyReplay) (h : Heap) (fx : Function.t) (k : nat) :
  h !! VectorFunction.x (Obj.replay_position b) = Some fx ->
  replay_sample (b, h) (Z.of_nat k) = Function.__points fx !! k.
Proof.
  intros Hfx. unfold replay_sample. cbn [fst snd]. rewrite Hfx. unfold Function.seek.
  destruct (Function.__points fx !! k) as [p|] eqn:Hp.
  - by rewrite (py_getitem_nat _ _ _ Hp).
  - apply lookup_ge_None in Hp. by rewrite py_getitem_ge.
Qed.

Lemma replay_steps_state (b : Obj.BodyReplay) (h : Heap) (fx : Function.t) :
  h !! VectorFunction.x (Obj.replay_position b) = Some fx -> Obj.index b = 0%Z ->
  forall k,
    snd (replay_steps k (b, h)) = h
    /\ Obj.replay_position (fst (replay_steps k (b, h))) = Obj.replay_position b
    /\ Obj.index (fst (replay_steps k (b, h))) = Z.of_nat k
    /\ (forall p, (0 < k)%nat -> Function.__points fx !! k = Some p ->
          Obj.replay_time (fst (replay_steps k (b, h))) = fst p).
Proof.
  intros Hfx Hi. induction k as [|k (Hh & Hpos & Hidx & Htime)].
  { repeat split; try done. intros p Hk. lia. }
  change (replay_steps (S k) (b, h)) with (fst (BodyReplay.step (replay_steps k (b, h)))).
  destruct (replay_steps k (b, h)) as [bk hk]. cbn [fst snd] in *. subst hk.
  rewrite replay_step_eq. cbn [fst snd]. rewrite Hidx.
  replace (Z.of_nat k + 1)%Z with (Z.of_nat (S k)) by lia.
  rewrite (replay_sample_nat bk h fx (S k)) by (by rewrite Hpos).
  destruct (Function.__points fx !! S k) as [p|] eqn:Hp; cbn [fst snd].
  - repeat split; try done. intros p' _ Hp'. by inversion Hp'.
  - repeat split; try done.
Qed.

(** X21. A replay that starts at index 0 visits the samples in order:
    after [k] steps the index is [k] and, for [k > 0] with a sample [k]
    stored, the time is the x-value of that sample of the position; the
    next [step] returns [True] exactly when a sample [k + 1] is stored. *)
Theorem replay_visits_every_sample_once (b : Obj.BodyReplay) (h : Heap) (fx : Function.t) :
  h !! VectorFunction.x (Obj.replay_position b) = Some fx -> Obj.index b = 0%Z ->
  forall k,
    Obj.index (fst (replay_steps k (b, h))) = Z.of_nat k
    /\ snd (BodyReplay.step (replay_steps k (b, h)))
       = Ok (bool_decide (S k < length (Function.__points fx))%nat)
    /\ (forall p, (0 < k)%nat -> Function.__points fx !! k = Some p ->
          Obj.replay_time (fst (replay_steps k (b, h))) = fst p).
Proof.
  intros Hfx Hi k.
  destruct (replay_steps_state b h fx Hfx Hi k) as (Hh & Hpos & Hidx & Htime).
  split; [done|]. split; [|done].
  destruct (replay_steps k (b, h)) as [bk hk]. cbn [fst snd] in *. subst hk.
  rewrite replay_step_eq. cbn [fst snd]. rewrite Hidx.
  replace (Z.of_nat k + 1)%Z with (Z.of_nat (S k)) by lia.
  rewrite (replay_sample_nat bk h fx (S k)) by (by rewrite Hpos).
  destruct (Function.__points fx !! S k) as [p|] eqn:Hp; cbn [snd].
  - apply lookup_lt_Some in Hp. by rewrite bool_decide_eq_true_2.
  - apply lookup_ge_None in Hp. rewrite bool_decide_eq_false_2; [done|lia].
Qed.

Lemma replay_visits_every_sample_once_witness :
  Obj.index
    (fst (replay_steps 1
            (Obj.mk_BodyReplay (VectorFunction.mk 0 1) (VectorFunction.mk 2 3)
               (VectorFunction.mk 4 5) 0 0,
             [Function.mk [(num 0 1, num 0 1); (num 1 1, num 2 1)] None None])))
  = Z.of_nat 1
  /\ snd (BodyReplay.step
            (replay_steps 1
               (Obj.mk_BodyReplay (VectorFunction.mk 0 1) (VectorFunction.mk 2 3)
                  (VectorFunction.mk 4 5) 0 0,
                [Function.mk [(num 0 1, num 0 1); (num 1 1, num 2 1)] None None])))
     = Ok (bool_decide (2 < length [(num 0 1, num 0 1); (num 1 1, num 2 1)])%nat)
  /\ (forall p, (0 < 1)%nat -> [(num 0 1, num 0 1); (num 1 1, num 2 1)] !! 1%nat = Some p ->
        Obj.replay_time
          (fst (replay_steps 1
                  (Obj.mk_BodyReplay (VectorFunction.mk 0 1) (VectorFunction.mk 2 3)
                     (VectorFunction.mk 4 5) 0 0,
                   [Function.mk [(num 0 1, num 0 1); (num 1 1, num 2 1)] None None])))
        = fst p).
Proof.
  apply (replay_visits_every_sample_once
           (Obj.mk_BodyReplay (VectorFunction.mk 0 1) (VectorFunction.mk 2 3)
              (VectorFunction.mk 4 5) 0 0)
           [Function.mk [(num 0 1, num 0 1); (num 1 1, num 2 1)] None None]
           (Function.mk [(num 0 1, num 0 1); (num 1 1, num 2 1)] None None)).
  - reflexivity.
  - reflexivity.
Defined.

(** ** Peaks, unpacking and averages *)

Lemma py_setitem_last {A : Type} (l : list A) (a b : A) :
  py_setitem (l ++ [a]) (-1) b = Ok (l ++ [b]).
Proof.
  unfold py_setitem, len. rewrite length_app. simpl.
  assert ((Z.of_nat (length l + 1) + -1)%Z = Z.of_nat (length l)) as -> by lia.
  assert (((0 <=? Z.of_nat (length l)) && (Z.of_nat (length l) <? Z.of_nat (length l + 1)))%Z
          = true) as ->.
  { apply andb_true_intro. split; [apply Z.leb_le|apply Z.ltb_lt]; lia. }
  rewrite Nat2Z.id. f_equal.
  replace (length l) with (length l + 0)%nat at 1 by lia. by rewrite insert_app_r.
Qed.

Lemma get_peaks_loop_track (rest : list point) :
  forall (rising : bool) (cur : point) (ts ps : list Qc),
    plot_simulation.get_peaks_loop rest (ts ++ [fst cur]) (ps ++ [snd cur]) (negb rising)
    = Ok (ts ++ (fst <$> track rising cur rest), ps ++ (snd <$> track rising cur rest)).
Proof.
  induction rest as [|[x y] rest IH]; intros rising cur ts ps; [done|].
  cbn [plot_simulation.get_peaks_loop track]. rewrite py_getitem_last. cbn [rbind snd].
  destruct (decide (Qcabs.Qcabs (snd cur) < Qcabs.Qcabs y)) as [Hlt|Hge].
  - rewrite !py_setitem_last. cbn [rbind].
    apply (IH true (x, y)).
  - destruct rising; cbn [negb].
    + pose proof (IH false (x, y) (ts ++ [fst cur]) (ps ++ [snd cur])) as H.
      cbn [fst snd negb] in H. rewrite H.
      by rewrite !fmap_cons, <- !app_assoc.
    + rewrite !py_setitem_last. cbn [rbind].
      apply (IH false (x, y)).
Qed.

Lemma last_cons_default {A : Type} (l : list A) (a d : A) :
  List.last (a :: l) d = List.last l a.
Proof.
  revert a d. induction l as [|b l IH]; intros a d; [done|].
  change (List.last (a :: b :: l) d) with (List.last (b :: l) d). by rewrite !IH.
Qed.

(** [track] ends with the sample it was following; before it come the
    peaks, in order. *)
Lemma track_peaks (rest : list point) :
  forall (pre : list point) (rising : bool) (cur : point),
    rising = match last pre with
             | Some prev => bool_decide (Qcabs.Qcabs (snd prev) < Qcabs.Qcabs (snd cur))
             | None => true
             end ->
    track rising cur rest
    = omap (fun i => if peak_at (pre ++ cur :: rest) i then (pre ++ cur :: rest) !! i else None)
        (seq (length pre) (length rest))
      ++ [List.last rest cur].
Proof.
  induction rest as [|next rest IH]; intros pre rising cur Hr; [done|].
  cbn [track length seq omap list_omap].
  assert ((pre ++ cur :: next :: rest) !! length pre = Some cur) as Hcur.
  { by rewrite lookup_app_r, Nat.sub_diag by lia. }
  assert ((pre ++ cur :: next :: rest) !! S (length pre) = Some next) as Hnext.
  { rewrite lookup_app_r by lia. by replace (S (length pre) - length pre)%nat with 1%nat by lia. }
  assert (peak_at (pre ++ cur :: next :: rest) (length pre)
          = bool_decide (¬ Qcabs.Qcabs (snd cur) < Qcabs.Qcabs (snd next)) && rising)
    as Hpk.
  { unfold peak_at. rewrite Hcur, Hnext. f_equal. rewrite Hr.
    destruct pre as [|q pre] using rev_ind; [done|].
    rewrite last_snoc, length_app. simpl.
    replace (length pre + 1)%nat with (S (length pre)) by lia.
    rewrite <- app_assoc. by rewrite lookup_app_r, Nat.sub_diag by lia. }
  rewrite Hpk, Hcur.
  assert (forall R, R = bool_decide (Qcabs.Qcabs (snd cur) < Qcabs.Qcabs (snd next)) ->
            track R next rest
            = omap (fun i => if peak_at (pre ++ cur :: next :: rest) i
                             then (pre ++ cur :: next :: rest) !! i else None)
                (seq (S (length pre)) (length rest))
              ++ [List.last rest next]) as IH'.
  { intros R HR. pose proof (IH (pre ++ [cur]) R next) as H. rewrite last_snoc in H.
    specialize (H HR). rewrite <- app_assoc in H. cbn [app] in H.
    rewrite length_app in H. cbn [length] in H.
    by replace (length pre + 1)%nat with (S (length pre)) in H by lia. }
  rewrite last_cons_default.
  destruct (decide (Qcabs.Qcabs (snd cur) < Qcabs.Qcabs (snd next))) as [Hlt|Hge].
  - rewrite bool_decide_eq_false_2 by (by intros H; apply H). cbn [andb].
    apply IH'. by rewrite bool_decide_eq_true_2.
  - rewrite bool_decide_eq_true_2 by done. cbn [andb].
    destruct rising.
    + cbn [app]. f_equal. apply IH'. by rewrite bool_decide_eq_false_2.
    + apply IH'. by rewrite bool_decide_eq_false_2.
Qed.

Lemma peaks_of_cons_data (cur : point) (data : list point) :
  peaks_of (cur :: data)
  = omap (fun i => if peak_at (cur :: data) i then (cur :: data) !! i else None)
      (seq 0 (length data)).
Proof.
  unfold peaks_of. cbn [length]. rewrite seq_S, omap_app. cbn [omap list_omap Nat.add].
  unfold peak_at at 2.
  assert ((cur :: data) !! S (length data) = None) as ->.
  { apply lookup_ge_None. simpl. lia. }
  destruct ((cur :: data) !! length data); by rewrite app_nil_r.
Qed.

(** X22. [get_peaks] never fails and returns, in order, the x-values and
    the y-values of the peaks of the data preceded by the point [(0, 0)]:
    the samples whose magnitude is above that of the sample before (or that
    come first) and is not exceeded by that of the sample after, which has
    to exist. *)
Theorem get_peaks_returns_the_peaks (data : list point) :
  plot_simulation.get_peaks data
  = Ok (fst <$> peaks_of ((0, 0) :: data), snd <$> peaks_of ((0, 0) :: data))
  /\ (forall p, p ∈ peaks_of ((0, 0) :: data)
                <-> exists i, peak_at ((0, 0) :: data) i = true
                              /\ ((0, 0) :: data) !! i = Some p)
  /\ peaks_of ((0, 0) :: data) `sublist_of` (0, 0) :: data.
Proof.
  split; [|split].
  - unfold plot_simulation.get_peaks.
    pose proof (get_peaks_loop_track data true (0, 0) [] []) as Hloop.
    cbn [app fst snd negb] in Hloop. rewrite Hloop. cbn [rbind fst snd].
    pose proof (track_peaks data [] true (0, 0) eq_refl) as Ht.
    cbn [app length] in Ht. rewrite Ht, <- peaks_of_cons_data.
    by rewrite !fmap_app, !list_fmap_singleton, !py_pop_last.
  - intros p. unfold peaks_of. rewrite list_elem_of_omap. split.
    + intros (i & _ & Hi). exists i. by destruct (peak_at _ i).
    + intros (i & Hpk & Hi). exists i. rewrite Hpk. split; [|done].
      apply elem_of_seq. apply lookup_lt_Some in Hi. lia.
  - unfold peaks_of. generalize ((0, 0) :: data). intros s.
    assert (forall k n, (k + n = length s)%nat ->
              omap (fun i => if peak_at s i then s !! i else None) (seq k n)
              `sublist_of` drop k s) as H.
    { intros k n. revert k. induction n as [|n IH]; intros k Hk; [apply sublist_nil_l|].
      cbn [seq omap list_omap].
      destruct (lookup_lt_is_Some_2 s k) as [p Hp]; [lia|].
      rewrite (drop_S _ _ _ Hp), Hp.
      destruct (peak_at s k); [apply sublist_skip|apply sublist_cons]; apply IH; lia. }
    apply (H 0%nat (length s)). lia.
Qed.

Lemma unpack_function_loop_eq (data : list point) :
  forall times values,
    plot_simulation.unpack_function_loop data times values
    = (times ++ (fst <$> data), values ++ (snd <$> data)).
Proof.
  induction data as [|[x y] data IH]; intros times values.
  - by rewrite !app_nil_r.
  - cbn [plot_simulation.unpack_function_loop]. rewrite IH.
    by rewrite !fmap_cons, <- !app_assoc.
Qed.

(** X23. [unpack_function] returns the x-values and the y-values of the
    data, in order, as two lists of the length of the data; zipping them
    gives the data back. *)
Theorem unpack_function_splits_and_zips_back (data : list point) :
  plot_simulation.unpack_function data = (fst <$> data, snd <$> data)
  /\ zip (fst (plot_simulation.unpack_function data))
         (snd (plot_simulation.unpack_function data)) = data
  /\ length (fst (plot_simulation.unpack_function data)) = length data
  /\ length (snd (plot_simulation.unpack_function data)) = length data.
Proof.
  unfold plot_simulation.unpack_function. rewrite unpack_function_loop_eq. cbn [app fst snd].
  split; [done|]. split; [apply zip_fst_snd|]. by rewrite !length_fmap.
Qed.

Lemma foldl_Qcplus (values : list Qc) (acc : Qc) :
  foldl Qcplus acc values = acc + foldl Qcplus 0 values.
Proof.
  revert acc. induction values as [|v values IH]; intros acc; simpl; [ring|].
  rewrite (IH (acc + v)), (IH (0 + v)). ring.
Qed.

Lemma sum_between (lo hi : Qc) (values : list Qc) :
  (forall v, v ∈ values -> lo <= v /\ v <= hi) ->
  num (len values) 1 * lo <= foldl Qcplus 0 values
  /\ foldl Qcplus 0 values <= num (len values) 1 * hi.
Proof.
  induction values as [|v values IH]; intros Hb.
  { change (len (@nil Qc)) with 0%Z. cbn [foldl]. rewrite num_0, !Qcmult_0_l.
    split; apply Qcle_refl. }
  destruct IH as [IHl IHh]; [intros u Hu; apply Hb; by right|].
  destruct (Hb v ltac:(left)) as [Hl Hh].
  unfold len in *. cbn [length foldl]. rewrite num_succ, foldl_Qcplus.
  split.
  - replace ((num (Z.of_nat (length values)) 1 + 1) * lo)
      with (lo + num (Z.of_nat (length values)) 1 * lo) by ring.
    rewrite Qcplus_0_l. by apply Qcplus_le_compat.
  - replace ((num (Z.of_nat (length values)) 1 + 1) * hi)
      with (hi + num (Z.of_nat (length values)) 1 * hi) by ring.
    rewrite Qcplus_0_l. by apply Qcplus_le_compat.
Qed.

Lemma num_len_pos {A : Type} (l : list A) : l <> [] -> 0 < num (len l) 1.
Proof.
  intros Hne. rewrite num_of_Z, <- Z2Qc_inj_0.
  apply (proj1 (Z2Qc_inj_lt 0 (len l))).
  unfold len. destruct l as [|a l]; [done|]. rewrite length_cons. lia.
Qed.

(** X24. [average] of no value raises [ZeroDivisionError]; of one or more
    values it is their sum divided by their number, and lies between any
    two bounds of the values. *)
Theorem average_of_values (values : list Qc) :
  (values = [] -> data.average values = Raise ZeroDivisionError)
  /\ (values <> [] ->
      exists a, data.average values = Ok a
                /\ a * num (len values) 1 = foldl Qcplus 0 values
                /\ forall lo hi, (forall v, v ∈ values -> lo <= v /\ v <= hi) ->
                                 lo <= a /\ a <= hi).
Proof.
  split.
  - intros ->. unfold data.average, py_div. change (len (@nil Qc)) with 0%Z.
    rewrite num_0. by destruct (decide (0 = 0)).
  - intros Hne. pose proof (num_len_pos values Hne) as Hpos.
    assert (num (len values) 1 <> 0) as Hn0.
    { intros H0. rewrite H0 in Hpos. by apply (Qclt_not_eq _ _ Hpos). }
    unfold data.average, py_div. destruct (decide (num (len values) 1 = 0)) as [|_]; [done|].
    eexists. split; [reflexivity|]. split; [by field|].
    intros lo hi Hb. destruct (sum_between lo hi values Hb) as [Hl Hh].
    pose proof (Qcinv_pos _ Hpos) as Hinv. unfold Qcdiv. split.
    + replace lo with (num (len values) 1 * lo * / num (len values) 1) by (by field).
      by apply Qcmult_le_mono_pos_r.
    + apply (Qcle_trans _ (num (len values) 1 * hi * / num (len values) 1)).
      * by apply Qcmult_le_mono_pos_r.
      * replace (num (len values) 1 * hi * / num (len values) 1) with hi by (by field).
        apply Qcle_refl.
Qed.

Lemma average_of_values_witness :
  ([num 1 1; num 2 1; num 6 1] = [] ->
   data.average [num 1 1; num 2 1; num 6 1] = Raise ZeroDivisionError)
  /\ ([num 1 1; num 2 1; num 6 1] <> [] ->
      exists a, data.average [num 1 1; num 2 1; num 6 1] = Ok a
                /\ a * num (len [num 1 1; num 2 1; num 6 1]) 1
                   = foldl Qcplus 0 [num 1 1; num 2 1; num 6 1]
                /\ forall lo hi,
                     (forall v, v ∈ [num 1 1; num 2 1; num 6 1] -> lo <= v /\ v <= hi) ->
                     lo <= a /\ a <= hi).
Proof.
  exact (average_of_values [num 1 1; num 2 1; num 6 1]).
Defined.
